(** * capture_ddp: a shallow embedding of the DDP frame recorder

    The recorder is one Python function, [main], whose body is a receive loop
    over UDP datagrams.  The embedding follows the loop body block by block:
    header parsing, payload slicing, range learning, finalisation of the
    discovery, the leading-empty skip, the buffer write and the frame
    completion.  Local variables of [main] are the fields of [State];
    exceptions are the [Raise] results of a small error monad; every call of
    [datetime.now()] consumes one reading of a clock oracle.  What [main]
    prints is left out, but for the exception that computing a printed
    frame rate can raise. *)

From Stdlib Require Import ZArith List Bool Lia.
From Stdlib.Strings Require Import Byte.
Import ListNotations.
Local Open Scope Z_scope.

(** ** The fragment of the Python runtime the recorder uses *)
Module Py.

Inductive exn : Type :=
| ValueError
| OverflowError
| ZeroDivisionError
| KeyError
| UnboundLocalError
| ArgumentTypeError.

Inductive result (A : Type) : Type :=
| Ok (a : A)
| Raise (e : exn).
Arguments Ok {A} a.
Arguments Raise {A} e.

Definition bind {A B : Type} (m : result A) (k : A -> result B) : result B :=
  match m with
  | Ok a => k a
  | Raise e => Raise e
  end.

(** [len(l)] *)
Definition len {A : Type} (l : list A) : Z := Z.of_nat (length l).

(** the integer a byte reads as, and the byte of an integer below 256 *)
Definition byte_val (b : byte) : Z := Z.of_N (Byte.to_N b).

Definition byte_of (z : Z) : byte :=
  match Byte.of_N (Z.to_N (z mod 256)) with
  | Some b => b
  | None => x00
  end.

(** how a slice bound is read against a sequence of length [n]: negative
    bounds count from the end, and every bound is clamped into [0, n] *)
Definition clamp (n i : Z) : Z :=
  if i <? 0 then Z.max 0 (n + i) else Z.min i n.

(** [l[lo:hi]] *)
Definition slice {A : Type} (l : list A) (lo hi : Z) : list A :=
  let lo' := clamp (len l) lo in
  let hi' := clamp (len l) hi in
  firstn (Z.to_nat (hi' - lo')) (skipn (Z.to_nat lo') l).

(** [b[lo:hi] = v] on a bytearray: the slice is replaced by [v], whatever
    the length of [v] *)
Definition slice_assign {A : Type} (b : list A) (lo hi : Z) (v : list A) : list A :=
  let lo' := clamp (len b) lo in
  let hi' := Z.max lo' (clamp (len b) hi) in
  firstn (Z.to_nat lo') b ++ v ++ skipn (Z.to_nat hi') b.

(** [b"\x00" * n]: empty when [n] is not positive *)
Definition zeros (n : Z) : list byte := repeat x00 (Z.to_nat n).

(** [bytearray(n)]: [n] zero bytes, [ValueError] on a negative count *)
Definition bytearray (n : Z) : result (list byte) :=
  if n <? 0 then Raise ValueError else Ok (zeros n).

Fixpoint le_bytes (n : nat) (x : Z) : list byte :=
  match n with
  | O => []
  | S k => byte_of x :: le_bytes k (x / 256)
  end.

(** [x.to_bytes(n, 'little')]: unsigned, [OverflowError] when [x] is
    negative or does not fit in [n] bytes *)
Definition to_bytes_little (x : Z) (n : nat) : result (list byte) :=
  if (x <? 0) || (256 ^ Z.of_nat n <=? x) then Raise OverflowError
  else Ok (le_bytes n x).

(** [struct.unpack(">I", bs)[0]] and [struct.unpack(">H", bs)[0]]: the
    bytes read as one big-endian unsigned integer *)
Definition unpack_be (bs : list byte) : Z :=
  fold_left (fun acc b => acc * 256 + byte_val b) bs 0.

(** [max(...)] over a generator of integers: [ValueError] when empty *)
Definition max_of (l : list Z) : result Z :=
  match l with
  | [] => Raise ValueError
  | x :: r => Ok (fold_left Z.max r x)
  end.

(** [sorted(...)] on integers *)
Fixpoint insert_sorted (x : Z) (l : list Z) : list Z :=
  match l with
  | [] => [x]
  | y :: r => if x <=? y then x :: l else y :: insert_sorted x r
  end.

Definition sorted (l : list Z) : list Z := fold_right insert_sorted [] l.

(** A [dict] with integer keys.  Iteration follows insertion order, and
    assigning to a key that is present keeps its place. *)
Definition dict (V : Type) : Type := list (Z * V).

Fixpoint get {V : Type} (d : dict V) (k : Z) : option V :=
  match d with
  | [] => None
  | (k', v) :: r => if k' =? k then Some v else get r k
  end.

Fixpoint set {V : Type} (d : dict V) (k : Z) (v : V) : dict V :=
  match d with
  | [] => [(k, v)]
  | (k', v') :: r => if k' =? k then (k', v) :: r else (k', v') :: set r k v
  end.

Definition keys {V : Type} (d : dict V) : list Z := map fst d.
Definition values {V : Type} (d : dict V) : list V := map snd d.

(** [d[k]], [KeyError] when absent *)
Definition getitem {V : Type} (d : dict V) (k : Z) : result V :=
  match get d k with
  | Some v => Ok v
  | None => Raise KeyError
  end.

End Py.

Import Py.

Notation "x <- m ;; k" := (Py.bind m (fun x => k))
  (at level 61, m at next level, right associativity).

(** ** Module-level functions of capture_ddp.py *)

(** [check_positive_int]: the argparse type of [--strings] and
    [--seconds_to_capture] *)
Definition check_positive_int (value : Z) : result Z :=
  if value <=? 0 then Raise ArgumentTypeError else Ok value.

Definition count_zero (input_data : list byte) : Z :=
  len (filter (fun b => Byte.eqb b x00) input_data).

Definition is_empty_bytearray (input_data : list byte) : bool :=
  let byte_length := len input_data in
  count_zero input_data =? byte_length.

(** ** Session state

    The command line, as argparse hands it to [main]. *)
Record Args : Type := {
  number_of_strings : Z;
  seconds_to_capture : option Z;
  debug : bool
}.

(** What the recorder reads from outside: its arguments, the successive
    readings of [datetime.now()] in microseconds, and the conversion
    [int(td.total_seconds() * 1_000)] of a time difference of so many
    microseconds, which Python computes in floating point and which is
    therefore left abstract. *)
Record Env : Type := {
  args : Args;
  clock : nat -> Z;
  total_ms : Z -> Z
}.

(** How [main] returned. *)
Inductive ExitReason : Type :=
| IdleTimeout
| DurationLimit
| Interrupted.

(** The local variables of [main].  [start_time] and [frames_written] are
    unbound until their first assignment; [out_file] is the content of the
    output file, [None] while it does not exist; [ticks] counts the calls of
    [datetime.now()] made so far; [exited] is set when [main] returns. *)
Record State : Type := {
  strings_ranges : dict (Z * Z);
  next_assigned : Z;
  packets_seen : Z;
  start : Z;
  is_beginning : bool;
  empty_frames : Z;
  collecting : bool;
  buffers : dict (list byte);
  filled_count : dict Z;
  max_bytes : option Z;
  last_frame_time : option Z;
  start_time : option Z;
  frames_written : option Z;
  out_file : option (list byte);
  ticks : nat;
  exited : option ExitReason
}.

Definition with_strings_ranges (v : dict (Z * Z)) (st : State) : State :=
  {| strings_ranges := v;
     next_assigned := next_assigned st;
     packets_seen := packets_seen st;
     start := start st;
     is_beginning := is_beginning st;
     empty_frames := empty_frames st;
     collecting := collecting st;
     buffers := buffers st;
     filled_count := filled_count st;
     max_bytes := max_bytes st;
     last_frame_time := last_frame_time st;
     start_time := start_time st;
     frames_written := frames_written st;
     out_file := out_file st;
     ticks := ticks st;
     exited := exited st |}.

Definition with_next_assigned (v : Z) (st : State) : State :=
  {| strings_ranges := strings_ranges st;
     next_assigned := v;
     packets_seen := packets_seen st;
     start := start st;
     is_beginning := is_beginning st;
     empty_frames := empty_frames st;
     collecting := collecting st;
     buffers := buffers st;
     filled_count := filled_count st;
     max_bytes := max_bytes st;
     last_frame_time := last_frame_time st;
     start_time := start_time st;
     frames_written := frames_written st;
     out_file := out_file st;
     ticks := ticks st;
     exited := exited st |}.

Definition with_packets_seen (v : Z) (st : State) : State :=
  {| strings_ranges := strings_ranges st;
     next_assigned := next_assigned st;
     packets_seen := v;
     start := start st;
     is_beginning := is_beginning st;
     empty_frames := empty_frames st;
     collecting := collecting st;
     buffers := buffers st;
     filled_count := filled_count st;
     max_bytes := max_bytes st;
     last_frame_time := last_frame_time st;
     start_time := start_time st;
     frames_written := frames_written st;
     out_file := out_file st;
     ticks := ticks st;
     exited := exited st |}.

Definition with_start (v : Z) (st : State) : State :=
  {| strings_ranges := strings_ranges st;
     next_assigned := next_assigned st;
     packets_seen := packets_seen st;
     start := v;
     is_beginning := is_beginning st;
     empty_frames := empty_frames st;
     collecting := collecting st;
     buffers := buffers st;
     filled_count := filled_count st;
     max_bytes := max_bytes st;
     last_frame_time := last_frame_time st;
     start_time := start_time st;
     frames_written := frames_written st;
     out_file := out_file st;
     ticks := ticks st;
     exited := exited st |}.

Definition with_is_beginning (v : bool) (st : State) : State :=
  {| strings_ranges := strings_ranges st;
     next_assigned := next_assigned st;
     packets_seen := packets_seen st;
     start := start st;
     is_beginning := v;
     empty_frames := empty_frames st;
     collecting := collecting st;
     buffers := buffers st;
     filled_count := filled_count st;
     max_bytes := max_bytes st;
     last_frame_time := last_frame_time st;
     start_time := start_time st;
     frames_written := frames_written st;
     out_file := out_file st;
     ticks := ticks st;
     exited := exited st |}.

Definition with_empty_frames (v : Z) (st : State) : State :=
  {| strings_ranges := strings_ranges st;
     next_assigned := next_assigned st;
     packets_seen := packets_seen st;
     start := start st;
     is_beginning := is_beginning st;
     empty_frames := v;
     collecting := collecting st;
     buffers := buffers st;
     filled_count := filled_count st;
     max_bytes := max_bytes st;
     last_frame_time := last_frame_time st;
     start_time := start_time st;
     frames_written := frames_written st;
     out_file := out_file st;
     ticks := ticks st;
     exited := exited st |}.

Definition with_collecting (v : bool) (st : State) : State :=
  {| strings_ranges := strings_ranges st;
     next_assigned := next_assigned st;
     packets_seen := packets_seen st;
     start := start st;
     is_beginning := is_beginning st;
     empty_frames := empty_frames st;
     collecting := v;
     buffers := buffers st;
     filled_count := filled_count st;
     max_bytes := max_bytes st;
     last_frame_time := last_frame_time st;
     start_time := start_time st;
     frames_written := frames_written st;
     out_file := out_file st;
     ticks := ticks st;
     exited := exited st |}.

Definition with_buffers (v : dict (list byte)) (st : State) : State :=
  {| strings_ranges := strings_ranges st;
     next_assigned := next_assigned st;
     packets_seen := packets_seen st;
     start := start st;
     is_beginning := is_beginning st;
     empty_frames := empty_frames st;
     collecting := collecting st;
     buffers := v;
     filled_count := filled_count st;
     max_bytes := max_bytes st;
     last_frame_time := last_frame_time st;
     start_time := start_time st;
     frames_written := frames_written st;
     out_file := out_file st;
     ticks := ticks st;
     exited := exited st |}.

Definition with_filled_count (v : dict Z) (st : State) : State :=
  {| strings_ranges := strings_ranges st;
     next_assigned := next_assigned st;
     packets_seen := packets_seen st;
     start := start st;
     is_beginning := is_beginning st;
     empty_frames := empty_frames st;
     collecting := collecting st;
     buffers := buffers st;
     filled_count := v;
     max_bytes := max_bytes st;
     last_frame_time := last_frame_time st;
     start_time := start_time st;
     frames_written := frames_written st;
     out_file := out_file st;
     ticks := ticks st;
     exited := exited st |}.

Definition with_max_bytes (v : option Z) (st : State) : State :=
  {| strings_ranges := strings_ranges st;
     next_assigned := next_assigned st;
     packets_seen := packets_seen st;
     start := start st;
     is_beginning := is_beginning st;
     empty_frames := empty_frames st;
     collecting := collecting st;
     buffers := buffers st;
     filled_count := filled_count st;
     max_bytes := v;
     last_frame_time := last_frame_time st;
     start_time := start_time st;
     frames_written := frames_written st;
     out_file := out_file st;
     ticks := ticks st;
     exited := exited st |}.

Definition with_last_frame_time (v : option Z) (st : State) : State :=
  {| strings_ranges := strings_ranges st;
     next_assigned := next_assigned st;
     packets_seen := packets_seen st;
     start := start st;
     is_beginning := is_beginning st;
     empty_frames := empty_frames st;
     collecting := collecting st;
     buffers := buffers st;
     filled_count := filled_count st;
     max_bytes := max_bytes st;
     last_frame_time := v;
     start_time := start_time st;
     frames_written := frames_written st;
     out_file := out_file st;
     ticks := ticks st;
     exited := exited st |}.

Definition with_start_time (v : option Z) (st : State) : State :=
  {| strings_ranges := strings_ranges st;
     next_assigned := next_assigned st;
     packets_seen := packets_seen st;
     start := start st;
     is_beginning := is_beginning st;
     empty_frames := empty_frames st;
     collecting := collecting st;
     buffers := buffers st;
     filled_count := filled_count st;
     max_bytes := max_bytes st;
     last_frame_time := last_frame_time st;
     start_time := v;
     frames_written := frames_written st;
     out_file := out_file st;
     ticks := ticks st;
     exited := exited st |}.

Definition with_frames_written (v : option Z) (st : State) : State :=
  {| strings_ranges := strings_ranges st;
     next_assigned := next_assigned st;
     packets_seen := packets_seen st;
     start := start st;
     is_beginning := is_beginning st;
     empty_frames := empty_frames st;
     collecting := collecting st;
     buffers := buffers st;
     filled_count := filled_count st;
     max_bytes := max_bytes st;
     last_frame_time := last_frame_time st;
     start_time := start_time st;
     frames_written := v;
     out_file := out_file st;
     ticks := ticks st;
     exited := exited st |}.

Definition with_out_file (v : option (list byte)) (st : State) : State :=
  {| strings_ranges := strings_ranges st;
     next_assigned := next_assigned st;
     packets_seen := packets_seen st;
     start := start st;
     is_beginning := is_beginning st;
     empty_frames := empty_frames st;
     collecting := collecting st;
     buffers := buffers st;
     filled_count := filled_count st;
     max_bytes := max_bytes st;
     last_frame_time := last_frame_time st;
     start_time := start_time st;
     frames_written := frames_written st;
     out_file := v;
     ticks := ticks st;
     exited := exited st |}.

Definition with_ticks (v : nat) (st : State) : State :=
  {| strings_ranges := strings_ranges st;
     next_assigned := next_assigned st;
     packets_seen := packets_seen st;
     start := start st;
     is_beginning := is_beginning st;
     empty_frames := empty_frames st;
     collecting := collecting st;
     buffers := buffers st;
     filled_count := filled_count st;
     max_bytes := max_bytes st;
     last_frame_time := last_frame_time st;
     start_time := start_time st;
     frames_written := frames_written st;
     out_file := out_file st;
     ticks := v;
     exited := exited st |}.

Definition with_exited (v : option ExitReason) (st : State) : State :=
  {| strings_ranges := strings_ranges st;
     next_assigned := next_assigned st;
     packets_seen := packets_seen st;
     start := start st;
     is_beginning := is_beginning st;
     empty_frames := empty_frames st;
     collecting := collecting st;
     buffers := buffers st;
     filled_count := filled_count st;
     max_bytes := max_bytes st;
     last_frame_time := last_frame_time st;
     start_time := start_time st;
     frames_written := frames_written st;
     out_file := out_file st;
     ticks := ticks st;
     exited := v |}.

Definition CHANNELS_PER_PIXEL : Z := 3.

(** The values the locals have when the loop is entered (lines 45-56). *)
Definition initial_state : State :=
  {| strings_ranges := [];
     next_assigned := 1;
     packets_seen := 0;
     start := 0;
     is_beginning := true;
     empty_frames := 0;
     collecting := false;
     buffers := [];
     filled_count := [];
     max_bytes := None;
     last_frame_time := None;
     start_time := None;
     frames_written := None;
     out_file := None;
     ticks := O;
     exited := None |}.

(** Reading a local that may still be unbound. *)
Definition read_local {A : Type} (v : option A) : result A :=
  match v with
  | Some a => Ok a
  | None => Raise UnboundLocalError
  end.

(** One call of [datetime.now()]. *)
Definition now (env : Env) (st : State) : Z * State :=
  (clock env (ticks st), with_ticks (S (ticks st)) st).

(** [open(args.output, "ab")] followed by one [write]. *)
Definition append_file (f : option (list byte)) (bs : list byte) : option (list byte) :=
  match f with
  | Some content => Some (content ++ bs)
  | None => Some bs
  end.

(** ** Header parsing (lines 77-100) and payload slicing (lines 119-123) *)

(** The fields [main] reads from a datagram; [pkt_length] is the local
    [length], [pos] the index at which the payload starts. *)
Record Header : Type := {
  flags1 : Z;
  flags2 : Z;
  data_type : Z;
  string_id : Z;
  offset : Z;
  pkt_length : Z;
  has_timecode : bool;
  timecode : option Z;
  pos : Z
}.

(** The three ways a datagram is skipped before it reaches the session. *)
Inductive DecodeError : Type :=
| TooShort
| TruncatedTimecode
| PayloadLengthMismatch.

(** [data[i]] for an index known to be in range *)
Definition byte_at (data : list byte) (i : nat) : Z := byte_val (nth i data x00).

Definition parse_header (data : list byte) : DecodeError + Header :=
  if len data <? 10 then inl TooShort
  else
    let flags1 := byte_at data 0 in
    let flags2 := byte_at data 1 in
    let data_type := byte_at data 2 in
    let string_id := byte_at data 3 in
    let offset := unpack_be (slice data 4 8) in
    let length := unpack_be (slice data 8 10) in
    let has_timecode := negb (Z.land flags1 16 =? 0) in
    if has_timecode then
      if 14 <=? len data then
        inr {| flags1 := flags1; flags2 := flags2; data_type := data_type;
               string_id := string_id; offset := offset; pkt_length := length;
               has_timecode := true;
               timecode := Some (unpack_be (slice data 10 14)); pos := 14 |}
      else inl TruncatedTimecode
    else
      inr {| flags1 := flags1; flags2 := flags2; data_type := data_type;
             string_id := string_id; offset := offset; pkt_length := length;
             has_timecode := false; timecode := None; pos := 10 |}.

Definition slice_payload (data : list byte) (h : Header) : DecodeError + list byte :=
  let payload := slice data (pos h) (pos h + pkt_length h) in
  if negb (len payload =? pkt_length h) then inl PayloadLengthMismatch
  else inr payload.

(** Both checks in sequence: what a datagram decodes to. *)
Definition decode (data : list byte) : DecodeError + (Header * list byte) :=
  match parse_header data with
  | inl e => inl e
  | inr h =>
      match slice_payload data h with
      | inl e => inl e
      | inr payload => inr (h, payload)
      end
  end.

(** ** Range learning (lines 125-136) *)

Definition push_flag (h : Header) : bool := negb (Z.land (flags1 h) 1 =? 0).

Definition learn_range (h : Header) (st : State) : State :=
  if negb (collecting st) && push_flag h then
    let end_ := offset h + pkt_length h in
    let assigned := next_assigned st in
    with_start end_
      (with_next_assigned (next_assigned st + 1)
         (with_strings_ranges (set (strings_ranges st) assigned (start st, end_)) st))
  else st.

(** ** End of the discovery (lines 138-166) *)

(** [e - s for (s, e) in strings_ranges.values()] *)
Definition range_lengths (ranges : dict (Z * Z)) : list Z :=
  map (fun r => snd r - fst r) (values ranges).

(** The allocation loop of lines 155-159. *)
Fixpoint allocate (items : list (Z * (Z * Z))) (bufs : dict (list byte)) (filled : dict Z)
  : result (dict (list byte) * dict Z) :=
  match items with
  | [] => Ok (bufs, filled)
  | (string_num, (s, e)) :: rest =>
      let length_bytes := e - s in
      b <- bytearray length_bytes ;;
      allocate rest (set bufs string_num b) (set filled string_num 0)
  end.

Definition finalize (env : Env) (st : State) : result State :=
  if negb (collecting st)
     && (number_of_strings (args env) <=? len (strings_ranges st)) then
    max_string_len <- max_of (range_lengths (strings_ranges st)) ;;
    let max_pixels := max_string_len / CHANNELS_PER_PIXEL in
    header <- to_bytes_little max_pixels 2 ;;
    let st1 := with_out_file (Some header) st in
    alloc <- allocate (strings_ranges st1) (buffers st1) (filled_count st1) ;;
    max_string_len' <- max_of (range_lengths (strings_ranges st1)) ;;
    let max_pixels' := max_string_len' / CHANNELS_PER_PIXEL in
    Ok (with_frames_written (Some 0)
          (with_collecting true
             (with_max_bytes (Some (max_pixels' * CHANNELS_PER_PIXEL))
                (with_filled_count (snd alloc)
                   (with_buffers (fst alloc) st1)))))
  else Ok st.

(** ** Skipping the empty packets at the beginning (lines 169-178)

    The boolean is [true] when the iteration ends here ([continue]). *)
Definition skip_leading_empty (env : Env) (payload : list byte) (st : State) : State * bool :=
  if is_beginning st && is_empty_bytearray payload then
    (with_empty_frames (empty_frames st + 1) st, true)
  else if is_beginning st then
    let (t1, st1) := now env st in
    let (t2, st2) := now env st1 in
    (with_last_frame_time (Some t2)
       (with_start_time (Some t1)
          (with_is_beginning false st2)), false)
  else (st, false).

(** ** Writing a payload into its buffer (lines 183-191) *)

(** The loop over [strings_ranges.items()]: [None] when no range holds the
    packet, else the two dictionaries after the write. *)
Fixpoint write_payload (items : list (Z * (Z * Z))) (off length : Z) (payload : list byte)
    (bufs : dict (list byte)) (filled : dict Z)
  : result (option (dict (list byte) * dict Z)) :=
  match items with
  | [] => Ok None
  | (string_num, (s, e)) :: rest =>
      if (s <=? off) && (off + length <=? e) then
        let rel_off := off - s in
        b <- getitem bufs string_num ;;
        c <- getitem filled string_num ;;
        Ok (Some (set bufs string_num (slice_assign b rel_off (rel_off + length) payload),
                  set filled string_num (c + length)))
      else write_payload rest off length payload bufs filled
  end.

(** ** Frame completion (lines 195-242) *)

(** [filled_count.get(n, 0)] *)
Definition get_count (filled : dict Z) (n : Z) : Z :=
  match get filled n with
  | Some c => c
  | None => 0
  end.

(** [buffers[n]] for a key [n] of [buffers] *)
Definition buffer_of (bufs : dict (list byte)) (n : Z) : list byte :=
  match get bufs n with
  | Some b => b
  | None => []
  end.

Definition all_full (bufs : dict (list byte)) (filled : dict Z) : bool :=
  forallb (fun n => get_count filled n =? len (buffer_of bufs n)) (keys bufs).

(** One element of [frame_parts] (lines 201-208). *)
Definition render_part (max_bytes : option Z) (b : list byte) : list byte :=
  match max_bytes with
  | None => b
  | Some m =>
      if len b <? m then b ++ zeros (m - len b)
      else slice b 0 m
  end.

Definition frame_parts (st : State) : list (list byte) :=
  map (fun n => render_part (max_bytes st) (buffer_of (buffers st) n))
      (sorted (keys (buffers st))).

(** The reset loop of lines 240-242. *)
Definition reset_buffers (bufs : dict (list byte)) : dict (list byte) :=
  fold_left (fun d n => set d n (slice_assign (buffer_of d n) 0 (len (buffer_of d n))
                                       (zeros (len (buffer_of d n)))))
            (keys bufs) bufs.

Definition reset_counts (bufs : dict (list byte)) (filled : dict Z) : dict Z :=
  fold_left (fun d n => set d n 0) (keys bufs) filled.

Definition reset_frame (st : State) : State :=
  with_filled_count (reset_counts (buffers st) (filled_count st))
    (with_buffers (reset_buffers (buffers st)) st).

(** [fps = 1_000 * frames_written / elapsed_time_ms]: a float division, which
    raises exactly when the elapsed time is zero; the quotient is only
    printed. *)
Definition fps_check (elapsed_us : Z) : result unit :=
  if elapsed_us =? 0 then Raise ZeroDivisionError else Ok tt.

(** The progress report every 40 frames (lines 226-229). *)
Definition report_progress (env : Env) (t0 fw : Z) (st : State) : result State :=
  if fw mod 40 =? 0 then
    let (t, st1) := now env st in
    _ <- fps_check (t - t0) ;;
    Ok st1
  else Ok st.

(** The capture-duration limit (lines 230-237); seconds are compared in
    microseconds. *)
Definition check_duration (env : Env) (t0 : Z) (st : State) : result State :=
  match seconds_to_capture (args env) with
  | None => Ok st
  | Some secs =>
      if secs =? 0 then Ok st
      else
        let (t, st1) := now env st in
        if secs * 1000000 <=? t - t0 then
          _ <- fps_check (t - t0) ;;
          Ok (with_exited (Some DurationLimit) st1)
        else Ok st1
  end.

(** Lines 198-242, run when [all_full] holds. *)
Definition complete_frame (env : Env) (st : State) : result State :=
  let frame_data := concat (frame_parts st) in
  t0 <- read_local (start_time st) ;;
  let (t, st1) := now env st in
  let time_ms := total_ms env (t - t0) in
  time_header <- to_bytes_little time_ms 4 ;;
  let st2 := with_out_file (append_file (out_file st1) (time_header ++ frame_data)) st1 in
  let (t', st3) := now env st2 in
  let st4 := with_last_frame_time (Some t') st3 in
  fw <- read_local (frames_written st4) ;;
  let st5 := with_frames_written (Some (fw + 1)) st4 in
  st6 <- report_progress env t0 (fw + 1) st5 ;;
  st7 <- check_duration env t0 st6 ;;
  match exited st7 with
  | Some _ => Ok st7
  | None => Ok (reset_frame st7)
  end.

(** Lines 180-242. *)
Definition assemble (env : Env) (h : Header) (payload : list byte) (st : State) : result State :=
  w <- write_payload (strings_ranges st) (offset h) (pkt_length h) payload
         (buffers st) (filled_count st) ;;
  match w with
  | None => Ok st
  | Some (bufs, filled) =>
      let st1 := with_filled_count filled (with_buffers bufs st) in
      if all_full (buffers st1) (filled_count st1) then complete_frame env st1
      else Ok st1
  end.

(** ** The receive loop *)

(** What [sock.recvfrom] does in one iteration: it returns a datagram, or
    times out after a second, or is interrupted from the keyboard. *)
Inductive Event : Type :=
| Datagram (data : list byte)
| SocketTimeout
| KeyboardInterrupt.

(** The [except socket.timeout] branch (lines 62-75). *)
Definition on_timeout (env : Env) (st : State) : result State :=
  if collecting st && negb (is_beginning st) then
    match last_frame_time st with
    | None => Ok st
    | Some lft =>
        let (t, st1) := now env st in
        if 5000000 <=? t - lft then
          t0 <- read_local (start_time st1) ;;
          fw <- read_local (frames_written st1) ;;
          _ <- (if 0 <? fw then fps_check (lft - t0) else Ok tt) ;;
          Ok (with_exited (Some IdleTimeout) st1)
        else Ok st1
    end
  else Ok st.

(** The loop body for a received datagram (lines 77-242). *)
Definition on_datagram (env : Env) (data : list byte) (st : State) : result State :=
  match parse_header data with
  | inl _ => Ok st
  | inr h =>
      let st1 := with_packets_seen (packets_seen st + 1) st in
      match slice_payload data h with
      | inl _ => Ok st1
      | inr payload =>
          let st2 := learn_range h st1 in
          st3 <- finalize env st2 ;;
          let (st4, skipped) := skip_leading_empty env payload st3 in
          if skipped then Ok st4
          else if collecting st4 then assemble env h payload st4
          else Ok st4
      end
  end.

(** One iteration of [while True]; nothing runs once [main] has returned. *)
Definition step (env : Env) (ev : Event) (st : State) : result State :=
  match exited st with
  | Some _ => Ok st
  | None =>
      match ev with
      | Datagram data => on_datagram env data st
      | SocketTimeout => on_timeout env st
      | KeyboardInterrupt => Ok (with_exited (Some Interrupted) st)
      end
  end.

Fixpoint run (env : Env) (evs : list Event) (st : State) : result State :=
  match evs with
  | [] => Ok st
  | ev :: rest => st' <- step env ev st ;; run env rest st'
  end.

(** [main] on a sequence of receive events. *)
Definition main (env : Env) (evs : list Event) : result State :=
  run env evs initial_state.

(** ** Vocabulary of the properties *)

(** The identifiers 1, 2, ..., k in assignment order. *)
Definition ids (k : nat) : list Z := map Z.of_nat (seq 1 k).

(** [chained s0 rs s1]: the ranges [rs] follow one another, the first one
    starting at [s0] and the last one ending at [s1]. *)
Fixpoint chained (s0 : Z) (rs : dict (Z * Z)) (s1 : Z) : Prop :=
  match rs with
  | [] => s0 = s1
  | (_, (s, e)) :: rest => s = s0 /\ chained e rest s1
  end.

(** The byte offset [x] lies in the half-open range [r]. *)
Definition covers (r : Z * Z) (x : Z) : Prop := fst r <= x < snd r.

(** A packet [off, off + length) fits entirely inside a range. *)
Definition fits (off length : Z) (item : Z * (Z * Z)) : bool :=
  (fst (snd item) <=? off) && (off + length <=? snd (snd item)).

(** The ranges partition [0, total): every offset below [total] lies in a
    range, ranges hold nothing else, and no offset lies in two ranges. *)
Definition partitions (rs : dict (Z * Z)) (total : Z) : Prop :=
  forall x,
    ((exists n r, In (n, r) rs /\ covers r x) <-> 0 <= x < total) /\
    (forall n r n' r', In (n, r) rs -> In (n', r') rs ->
                       covers r x -> covers r' x -> n = n' /\ r = r').

(** Every buffer of the session is filled to its own length. *)
Definition completion_condition (st : State) : Prop :=
  forall n, In n (keys (buffers st)) ->
            get_count (filled_count st) n = len (buffer_of (buffers st) n).

(** Some buffer has counted more bytes than it holds. *)
Definition overfull (st : State) : Prop :=
  exists n, In n (keys (buffers st)) /\
            len (buffer_of (buffers st) n) < get_count (filled_count st) n.

(** What holds of the locals of [main] between two iterations. *)
Record Inv (st : State) : Prop := {
  inv_ids : keys (strings_ranges st) = ids (length (strings_ranges st));
  inv_next : next_assigned st = len (strings_ranges st) + 1;
  inv_chain : chained 0 (strings_ranges st) (start st);
  inv_discovering :
    collecting st = false ->
    buffers st = [] /\ filled_count st = [] /\ max_bytes st = None /\
    frames_written st = None /\ out_file st = None;
  inv_keys_buffers :
    collecting st = true -> keys (buffers st) = keys (strings_ranges st);
  inv_keys_filled :
    collecting st = true -> keys (filled_count st) = keys (strings_ranges st);
  inv_len :
    collecting st = true ->
    forall n s e, In (n, (s, e)) (strings_ranges st) ->
                  len (buffer_of (buffers st) n) = e - s;
  inv_count : forall n, 0 <= get_count (filled_count st) n;
  inv_max :
    collecting st = true ->
    exists m rest, max_bytes st = Some m /\ 0 <= m /\
                   out_file st = Some (le_bytes 2 (m / 3) ++ rest);
  inv_frames :
    collecting st = true -> exists fw, frames_written st = Some fw /\ 0 <= fw;
  inv_started :
    is_beginning st = false ->
    exists t0 t1, start_time st = Some t0 /\ last_frame_time st = Some t1;
  inv_fresh :
    is_beginning st = true ->
    start_time st = None /\ last_frame_time st = None /\
    (forall n, get_count (filled_count st) n = 0) /\
    (forall n, buffer_of (buffers st) n = zeros (len (buffer_of (buffers st) n))) /\
    (collecting st = true ->
     frames_written st = Some 0 /\
     exists m, max_bytes st = Some m /\ out_file st = Some (le_bytes 2 (m / 3)))
}.

(** ** Datagrams and sessions used as examples *)

Definition be_bytes (n : nat) (x : Z) : list byte := rev (le_bytes n x).

(** A DDP datagram without timecode: flags, sequence, type, id, offset,
    length, payload. *)
Definition ddp_packet (flags : byte) (off length : Z) (payload : list byte) : list byte :=
  [flags; x00; x01; x01] ++ be_bytes 4 off ++ be_bytes 2 length ++ payload.

(** flags 0x41: version 1 with push; flags 0x40: version 1 without push. *)
Definition PUSH : byte := x41.
Definition NOPUSH : byte := x40.

(** A clock that advances one second per reading, and the exact quotient
    for the conversion to milliseconds. *)
Definition example_env (strings : Z) (limit : option Z) : Env :=
  {| args := {| number_of_strings := strings; seconds_to_capture := limit; debug := false |};
     clock := fun n => Z.of_nat n * 1000000;
     total_ms := fun us => Z.quot us 1000 |}.

(** ** The outcome of the discovery, in closed form *)

Definition nonneg_range (item : Z * (Z * Z)) : bool :=
  fst (snd item) <=? snd (snd item).

Definition fresh_buffer (item : Z * (Z * Z)) : Z * list byte :=
  (fst item, zeros (snd (snd item) - fst (snd item))).

Definition fresh_count (item : Z * (Z * Z)) : Z * Z := (fst item, 0).

(** The state in which [finalize] leaves a discovery whose longest range
    has [mx] bytes. *)
Definition finalized (mx : Z) (st : State) : State :=
  with_frames_written (Some 0)
    (with_collecting true
       (with_max_bytes (Some (mx / CHANNELS_PER_PIXEL * CHANNELS_PER_PIXEL))
          (with_filled_count (map fresh_count (strings_ranges st))
             (with_buffers (map fresh_buffer (strings_ranges st))
                (with_out_file (Some (le_bytes 2 (mx / CHANNELS_PER_PIXEL))) st))))).

(** ** The frame assembler, in closed form *)

(** The session after the payload of [h] has been accepted by the range
    [item]: lines 186-189. *)
Definition accept (item : Z * (Z * Z)) (h : Header) (payload : list byte) (st : State) : State :=
  let n := fst item in
  let rel_off := offset h - fst (snd item) in
  with_filled_count (set (filled_count st) n (get_count (filled_count st) n + pkt_length h))
    (with_buffers
       (set (buffers st) n
            (slice_assign (buffer_of (buffers st) n) rel_off (rel_off + pkt_length h) payload))
       st).

(** The first range, in assignment order, that holds the packet entirely. *)
Definition first_fit (h : Header) (st : State) : option (Z * (Z * Z)) :=
  find (fits (offset h) (pkt_length h)) (strings_ranges st).

(** The record a completed frame appends to the file: the timestamp, then
    the parts. *)
Definition frame_record (env : Env) (t0 : Z) (st : State) : list byte :=
  le_bytes 4 (total_ms env (clock env (ticks st) - t0)) ++ concat (frame_parts st).

(** The session after lines 212-225: the record is written, the last-frame
    time refreshed, the frame counted. *)
Definition emitted (env : Env) (t0 fw : Z) (st : State) : State :=
  with_frames_written (Some (fw + 1))
    (with_last_frame_time (Some (clock env (S (ticks st))))
       (with_ticks (S (S (ticks st)))
          (with_out_file (append_file (out_file st) (frame_record env t0 st)) st))).

(** All bytes of all buffers are zero. *)
Definition all_zero (st : State) : Prop :=
  forall n, buffer_of (buffers st) n = zeros (len (buffer_of (buffers st) n)).

(** The session after the first packet with a non-zero byte: lines 173-178. *)
Definition started (env : Env) (st : State) : State :=
  with_last_frame_time (Some (clock env (S (ticks st))))
    (with_start_time (Some (clock env (ticks st)))
       (with_is_beginning false
          (with_ticks (S (S (ticks st))) st))).

(** The session after a datagram has passed the header checks: line 102. *)
Definition counted (st : State) : State :=
  with_packets_seen (packets_seen st + 1) st.

(** Every count is within its buffer. *)
Definition bounded (st : State) : Prop :=
  forall n, get_count (filled_count st) n <= len (buffer_of (buffers st) n).

(** ** Sessions used as examples *)

(** One string; a push packet at offset 2 teaches the range (0, 4) and is
    written itself, then three more bytes arrive at offset 0. *)
Definition overlapping_session : list Event :=
  [Datagram (ddp_packet PUSH 2 2 [x01; x01]);
   Datagram (ddp_packet NOPUSH 0 3 [x01; x01; x01])].

(** Two strings whose push packets arrive in the wrong order: the ends are
    30, then 10. *)
Definition reordered_session : list Event :=
  [Datagram (ddp_packet PUSH 27 3 [x01; x02; x03]);
   Datagram (ddp_packet PUSH 7 3 [x01; x02; x03])].

(** One push packet whose range, (0, 196608), has 65536 pixels. *)
Definition oversized_session : list Event :=
  [Datagram (ddp_packet PUSH 196608 0 [])].

(** The state a run ends in, for the runs below that do end. *)
Definition final_state (r : result State) : State :=
  match r with
  | Ok st => st
  | Raise _ => initial_state
  end.

(** [overlapping_session] after its first packet, and after both. *)
Definition overlapping_first : State :=
  Eval vm_compute in
    final_state (main (example_env 1 None) [Datagram (ddp_packet PUSH 2 2 [x01; x01])]).

Definition overlapping_last : State :=
  Eval vm_compute in final_state (main (example_env 1 None) overlapping_session).

(** What follows [overlapping_session] in the example of a stuck session: a
    packet that would by itself fill the buffer, and a quiet second. *)
Definition after_overlap : list Event :=
  [Datagram (ddp_packet NOPUSH 0 4 [x02; x02; x02; x02]); SocketTimeout].

Definition stuck_last : State :=
  Eval vm_compute in final_state (run (example_env 1 None) after_overlap overlapping_last).

(** The range learner alone, fed the headers of a sequence of decoded
    packets. *)
Definition learn_all (hs : list Header) (st : State) : State :=
  fold_left (fun s h => learn_range h s) hs st.

(** The header of a decoded datagram, if it decodes. *)
Definition header_of (data : list byte) : option Header :=
  match decode data with
  | inr (h, _) => Some h
  | inl _ => None
  end.

(** The headers of [reordered_session]: push packets that end at 30 and
    at 10. *)
Definition reordered_headers : list Header :=
  Eval vm_compute in
    match header_of (ddp_packet PUSH 27 3 [x01; x02; x03]),
          header_of (ddp_packet PUSH 7 3 [x01; x02; x03]) with
    | Some h1, Some h2 => [h1; h2]
    | _, _ => []
    end.

(** Push packets that end at 15 and at 45: the two strings of the spec's
    scenario B. *)
Definition ordered_headers : list Header :=
  Eval vm_compute in
    match header_of (ddp_packet PUSH 0 15 (zeros 15)),
          header_of (ddp_packet PUSH 15 30 (zeros 30)) with
    | Some h1, Some h2 => [h1; h2]
    | _, _ => []
    end.

(** What the learner holds after [reordered_headers]. *)
Definition reordered_learned : State := learn_all reordered_headers initial_state.

(** A payload of [n] bytes of value 1. *)
Definition ones (n : nat) : list byte := repeat x01 n.

(** Scenario B of the spec: two strings with the ranges (0, 15) and
    (15, 45), learned from two push packets, and a packet of 10 bytes at
    offset 10, which spans the boundary. *)
Definition scenario_b : list Event :=
  [Datagram (ddp_packet PUSH 0 15 (ones 15)); Datagram (ddp_packet PUSH 15 30 (ones 30))].

Definition scenario_b_state : State :=
  Eval vm_compute in final_state (main (example_env 2 None) scenario_b).

Definition spanning_packet : list byte := ddp_packet NOPUSH 10 10 (ones 10).

Definition spanning_header : Header :=
  Eval vm_compute in
    match header_of spanning_packet with
    | Some h => h
    | None => {| flags1 := 0; flags2 := 0; data_type := 0; string_id := 0; offset := 0;
                 pkt_length := 0; has_timecode := false; timecode := None; pos := 0 |}
    end.

(** ** The wire format in the words of the spec *)

(** The timecode-present bit: bit 4 of byte 0. *)
Definition spec_has_timecode (data : list byte) : bool := Z.testbit (byte_at data 0) 4.

(** The payload starts at byte 14 with a timecode, at byte 10 without. *)
Definition spec_payload_start (data : list byte) : Z :=
  if spec_has_timecode data then 14 else 10.

(** Bytes 4-7, most significant first. *)
Definition spec_offset (data : list byte) : Z :=
  byte_at data 4 * 2 ^ 24 + byte_at data 5 * 2 ^ 16 + byte_at data 6 * 2 ^ 8 + byte_at data 7.

(** Bytes 8-9, most significant first. *)
Definition spec_length (data : list byte) : Z :=
  byte_at data 8 * 2 ^ 8 + byte_at data 9.

(** A datagram that announces 20 bytes of payload and carries 15: scenario E
    of the spec. *)
Definition short_payload_packet : list byte :=
  [NOPUSH; x00; x01; x01] ++ be_bytes 4 0 ++ be_bytes 2 20 ++ ones 15.

(** Two states agree on the session of the spec: the ranges, the buffers and
    their counts, the padding width, the frame count, the two times, the
    count of skipped packets, the phase flags and the output file.  The
    packet counter and the clock are left out. *)
Definition same_session (a b : State) : Prop :=
  strings_ranges a = strings_ranges b /\ next_assigned a = next_assigned b /\
  start a = start b /\ buffers a = buffers b /\ filled_count a = filled_count b /\
  max_bytes a = max_bytes b /\ frames_written a = frames_written b /\
  start_time a = start_time b /\ last_frame_time a = last_frame_time b /\
  empty_frames a = empty_frames b /\ collecting a = collecting b /\
  is_beginning a = is_beginning b /\ out_file a = out_file b /\ exited a = exited b.




(** The headers of the push packets of [oversized_session] and of scenario A
    of the spec (one string, offset 0, length 30). *)
Definition no_header : Header :=
  {| flags1 := 0; flags2 := 0; data_type := 0; string_id := 0; offset := 0;
     pkt_length := 0; has_timecode := false; timecode := None; pos := 0 |}.

Definition oversized_header : Header :=
  Eval vm_compute in
    match header_of (ddp_packet PUSH 196608 0 []) with Some h => h | None => no_header end.

Definition scenario_a_packet : list byte := ddp_packet PUSH 0 30 (ones 30).

Definition scenario_a_header : Header :=
  Eval vm_compute in
    match header_of scenario_a_packet with Some h => h | None => no_header end.

(** A session in which a packet with a non-zero byte arrives while the one
    string is still to be learned, then the push packet, whose payload is all
    zero, then one more all-zero packet. *)
Definition dark_session : list Event :=
  [Datagram (ddp_packet NOPUSH 0 3 (ones 3)); Datagram (ddp_packet PUSH 0 6 (zeros 6))].

Definition dark_packet : list byte := ddp_packet NOPUSH 0 6 (zeros 6).

Definition dark_state : State :=
  Eval vm_compute in final_state (main (example_env 1 None) dark_session).

Definition dark_last : State :=
  Eval vm_compute in final_state (step (example_env 1 None) (Datagram dark_packet) dark_state).

(** A session that does enter the leading-empty skip: the push packet that
    ends the discovery is itself all zero. *)
Definition warmup_session : list Event :=
  [Datagram (ddp_packet PUSH 0 6 (zeros 6))].

Definition warmup_state : State :=
  Eval vm_compute in final_state (main (example_env 1 None) warmup_session).

Definition dark_header : Header :=
  Eval vm_compute in
    match header_of dark_packet with Some h => h | None => no_header end.

(** The capture-duration limit is configured and the [k]-th reading of the
    clock is that many seconds after [t0]. *)
Definition limit_reached (env : Env) (t0 : Z) (k : nat) : bool :=
  match seconds_to_capture (args env) with
  | Some secs => negb (secs =? 0) && (secs * 1000000 <=? clock env k - t0)
  | None => false
  end.

(** The index of the clock reading that the duration check of a completed
    frame consumes: two readings go to the timestamp and to the last-frame
    time, one more to the progress report of every fortieth frame. *)
Definition limit_reading (st : State) (fw : Z) : nat :=
  if (fw + 1) mod 40 =? 0 then S (S (S (ticks st))) else S (S (ticks st)).

(** One string of range (0, 3) and a limit of five seconds: the first packet
    completes a frame after four seconds, the second after seven. *)
Definition limit_env : Env := example_env 1 (Some 5).

Definition limit_packet : list byte := ddp_packet PUSH 0 3 (ones 3).

Definition limit_header : Header :=
  Eval vm_compute in
    match header_of limit_packet with Some h => h | None => no_header end.

Definition limit_state : State :=
  Eval vm_compute in final_state (main limit_env [Datagram limit_packet]).

Definition limit_exit : State :=
  Eval vm_compute in final_state (step limit_env (Datagram limit_packet) limit_state).

(** ** Vocabulary of the further properties *)

(** A datagram as it travels: four bytes of flags, sequence, type and
    identifier, the offset on four bytes and the length of the payload on
    two, most significant byte first, the timecode on four bytes when there
    is one, and the payload. *)
Definition wire_datagram (b0 b1 b2 b3 : byte) (off : Z) (tc : option Z)
    (payload : list byte) : list byte :=
  [b0; b1; b2; b3] ++ be_bytes 4 off ++ be_bytes 2 (len payload)
  ++ match tc with Some t => be_bytes 4 t | None => [] end ++ payload.

(** What of a header reaches the session: the push flag, the offset, the
    length and the start of the payload. *)
Definition relevant (h : Header) : bool * Z * Z * Z :=
  (push_flag h, offset h, pkt_length h, pos h).

(** How the number of learned ranges, the padding width and the size of the
    file relate to the target number of strings, between two iterations. *)
Record Layout (env : Env) (st : State) : Prop := {
  lay_discovering :
    collecting st = false ->
    len (strings_ranges st) < number_of_strings (args env);
  lay_collecting :
    collecting st = true ->
    len (strings_ranges st) = number_of_strings (args env) /\
    exists mx written fw,
      max_of (range_lengths (strings_ranges st)) = Ok mx /\
      0 <= mx / 3 < 65536 /\
      max_bytes st = Some (mx / 3 * 3) /\
      out_file st = Some written /\
      frames_written st = Some fw /\
      len written = 2 + fw * (4 + number_of_strings (args env) * (mx / 3 * 3))
}.

(** A session of two strings of 4 and 5 bytes, in which a frame has been
    completed. *)
Definition uneven_session : list Event :=
  [Datagram (ddp_packet PUSH 0 4 (ones 4)); Datagram (ddp_packet PUSH 4 5 (ones 5));
   Datagram (ddp_packet NOPUSH 0 4 (ones 4))].

Definition uneven_state : State :=
  Eval vm_compute in final_state (main (example_env 2 None) uneven_session).

(** The datagram of [sent] carries the payload of [sent] for the whole of
    the range [item]: it decodes to that payload, at the offset at which the
    range starts and with the length of the range. *)
Definition carries (item : Z * (Z * Z)) (sent : list byte * Event) : Prop :=
  exists data h,
    snd sent = Datagram data /\ decode data = inr (h, fst sent) /\
    offset h = fst (snd item) /\ pkt_length h = snd (snd item) - fst (snd item).

(** Two states of one frame: they differ at most in the buffers, the counts
    and the packet counter. *)
Definition same_frame (a b : State) : Prop :=
  strings_ranges a = strings_ranges b /\ collecting a = collecting b /\
  is_beginning a = is_beginning b /\ exited a = exited b /\
  max_bytes a = max_bytes b /\ start_time a = start_time b /\
  frames_written a = frames_written b /\ out_file a = out_file b /\
  ticks a = ticks b /\ keys (buffers a) = keys (buffers b).

(** A frame for [uneven_state], one datagram per string. *)
Definition uneven_frame : list (list byte * Event) :=
  [([x0a; x0b; x0c; x0d], Datagram (ddp_packet NOPUSH 0 4 [x0a; x0b; x0c; x0d]));
   ([x01; x02; x03; x04; x05], Datagram (ddp_packet PUSH 4 5 [x01; x02; x03; x04; x05]))].

(** What the state in which [main] returned shows of the event [ev] that
    made it return, for each of the three ways out of the loop. *)
Definition exit_evidence (env : Env) (r : ExitReason) (ev : Event) (st : State) : Prop :=
  match r with
  | Interrupted => ev = KeyboardInterrupt
  | IdleTimeout =>
      ev = SocketTimeout /\ collecting st = true /\ is_beginning st = false /\
      exists lft k,
        last_frame_time st = Some lft /\ ticks st = S k /\
        5000000 <= clock env k - lft
  | DurationLimit =>
      (exists data, ev = Datagram data) /\ collecting st = true /\
      exists secs t0 fw k,
        seconds_to_capture (args env) = Some secs /\ start_time st = Some t0 /\
        ticks st = S k /\ secs * 1000000 <= clock env k - t0 /\
        frames_written st = Some fw /\ 1 <= fw /\ completion_condition st
  end.

(** The events that are datagrams with a whole header, and those that are
    datagrams with a whole header and a whole payload. *)
Definition parses (ev : Event) : bool :=
  match ev with
  | Datagram data => match parse_header data with inr _ => true | inl _ => false end
  | _ => false
  end.

Definition decodes (ev : Event) : bool :=
  match ev with
  | Datagram data => match decode data with inr _ => true | inl _ => false end
  | _ => false
  end.

(** What one event adds to a counter. *)
Definition tally (b : bool) : Z := if b then 1 else 0.

(** Three datagrams: one too short, one whose payload is cut, one whole and
    all zero. *)
Definition counter_session : list Event :=
  [Datagram [x41; x00; x01]; Datagram (ddp_packet NOPUSH 0 6 (zeros 3));
   Datagram (ddp_packet NOPUSH 0 3 (zeros 3)); SocketTimeout].

Definition counter_state : State :=
  Eval vm_compute in final_state (main (example_env 1 None) counter_session).

(** ** The iteration up to the buffer write

    Lines 125-181 for a decoded packet: the learner, the end of the
    discovery and the leading-empty skip, as they run in one iteration
    before [if collecting:].  The boolean tells whether the packet goes on
    to the buffer write, in the state returned with it; when it does not,
    that state is the one the iteration ends in. *)
Definition before_write (env : Env) (h : Header) (payload : list byte) (st : State)
  : result (State * bool) :=
  st3 <- finalize env (learn_range h (counted st)) ;;
  let (st4, skipped) := skip_leading_empty env payload st3 in
  Ok (st4, negb skipped && collecting st4).

(** Scenario B after its first push packet only, the second push packet,
    which ends the discovery, and the state in which that packet reaches
    the buffer write. *)
Definition scenario_b_first : State :=
  Eval vm_compute in
    final_state (main (example_env 2 None) [Datagram (ddp_packet PUSH 0 15 (ones 15))]).

Definition scenario_b_second : list byte := ddp_packet PUSH 15 30 (ones 30).

Definition scenario_b_second_header : Header :=
  Eval vm_compute in
    match header_of scenario_b_second with Some h => h | None => no_header end.

Definition scenario_b_handed : State :=
  Eval vm_compute in
    match before_write (example_env 2 None) scenario_b_second_header (ones 30)
                       scenario_b_first with
    | Ok (s, _) => s
    | Raise _ => initial_state
    end.

(** One string and no limit, with a wall clock that is set back by one
    second after the first reading, and with a clock that stands still. *)
Definition backward_env : Env :=
  {| args := {| number_of_strings := 1; seconds_to_capture := None; debug := false |};
     clock := fun n => match n with O => 10000000 | S _ => 9000000 end;
     total_ms := fun us => Z.quot us 1000 |}.

Definition still_env : Env :=
  {| args := {| number_of_strings := 1; seconds_to_capture := None; debug := false |};
     clock := fun _ => 0;
     total_ms := fun us => Z.quot us 1000 |}.

(** The state in which the only packet of the session under [backward_env]
    reaches the buffer write. *)
Definition backward_handed : State :=
  Eval vm_compute in
    match before_write backward_env limit_header (ones 3) initial_state with
    | Ok (s, _) => s
    | Raise _ => initial_state
    end.

(** [limit_packet] received a number of times in a row. *)
Definition frames (k : nat) : list Event := repeat (Datagram limit_packet) k.

(** The state in which the first packet of a session of one string reaches
    the buffer write: the packet has ended the discovery and started the
    capture. *)
Definition first_handed : State :=
  Eval vm_compute in
    match before_write (example_env 1 None) limit_header (ones 3) initial_state with
    | Ok (s, _) => s
    | Raise _ => initial_state
    end.

(** ** Facts about the runtime fragment *)

Lemma len_nonneg {A : Type} (l : list A) : 0 <= len l.
Proof. unfold len. lia. Qed.

Lemma len_app {A : Type} (l1 l2 : list A) : len (l1 ++ l2) = len l1 + len l2.
Proof. unfold len. rewrite length_app. lia. Qed.

Lemma len_zeros (n : Z) : len (zeros n) = Z.max 0 n.
Proof. unfold len, zeros. rewrite repeat_length. lia. Qed.

Lemma clamp_inside (n i : Z) : 0 <= i <= n -> clamp n i = i.
Proof. intros H. unfold clamp. destruct (Z.ltb_spec i 0); lia. Qed.

Lemma clamp_beyond (n i : Z) : 0 <= n <= i -> clamp n i = n.
Proof. intros H. unfold clamp. destruct (Z.ltb_spec i 0); lia. Qed.

Lemma clamp_range (n i : Z) : 0 <= n -> 0 <= clamp n i <= n.
Proof. intros H. unfold clamp. destruct (Z.ltb_spec i 0); lia. Qed.

Lemma len_slice {A : Type} (l : list A) (lo hi : Z) :
  0 <= lo -> 0 <= hi ->
  len (slice l lo hi) = Z.max 0 (Z.min hi (len l) - Z.min lo (len l)).
Proof.
  intros Hlo Hhi. unfold slice.
  pose proof (len_nonneg l) as Hl.
  assert (Hc : forall i, 0 <= i -> clamp (len l) i = Z.min i (len l)).
  { intros i Hi. unfold clamp. destruct (Z.ltb_spec i 0); lia. }
  rewrite !Hc by assumption. unfold len at 1.
  rewrite length_firstn, length_skipn. unfold len in *. lia.
Qed.

Lemma slice_prefix {A : Type} (l : list A) (m : Z) :
  0 <= m <= len l -> slice l 0 m = firstn (Z.to_nat m) l.
Proof.
  intros H. unfold slice. rewrite (clamp_inside _ 0), (clamp_inside _ m) by lia.
  simpl. f_equal. lia.
Qed.

Lemma slice_from {A : Type} (l : list A) (lo n : Z) :
  0 <= lo -> 0 <= n ->
  slice l lo (lo + n) = firstn (Z.to_nat n) (skipn (Z.to_nat lo) l).
Proof.
  intros Hlo Hn. unfold slice. pose proof (len_nonneg l) as Hl.
  unfold clamp. destruct (Z.ltb_spec lo 0); [lia|].
  destruct (Z.ltb_spec (lo + n) 0); [lia|].
  destruct (Z.le_gt_cases (lo + n) (len l)).
  - rewrite !Z.min_l by lia. f_equal. lia.
  - destruct (Z.le_gt_cases lo (len l)).
    + rewrite (Z.min_l lo), (Z.min_r (lo + n)) by lia.
      rewrite !firstn_all2; trivial; rewrite length_skipn; unfold len in *; lia.
    + rewrite !Z.min_r by lia.
      rewrite !skipn_all2 by (unfold len in *; lia). now rewrite !firstn_nil.
Qed.

Lemma length_slice_assign {A : Type} (b v : list A) (lo : Z) :
  0 <= lo -> lo + len v <= len b ->
  len (slice_assign b lo (lo + len v) v) = len b.
Proof.
  intros Hlo Hhi. unfold slice_assign. pose proof (len_nonneg v) as Hv.
  rewrite !clamp_inside by lia.
  rewrite Z.max_r by lia.
  rewrite !len_app. unfold len in *. rewrite length_firstn, length_skipn. lia.
Qed.

Lemma slice_slice_assign {A : Type} (b v : list A) (lo : Z) :
  0 <= lo -> lo + len v <= len b ->
  slice (slice_assign b lo (lo + len v) v) lo (lo + len v) = v.
Proof.
  intros Hlo Hhi. pose proof (len_nonneg v) as Hv.
  rewrite slice_from by lia.
  unfold slice_assign. rewrite !clamp_inside by lia.
  assert (Hl : length (firstn (Z.to_nat lo) b) = Z.to_nat lo).
  { rewrite length_firstn. unfold len in *. lia. }
  rewrite skipn_app, Hl, Nat.sub_diag. simpl.
  rewrite skipn_all2 by lia. simpl.
  rewrite firstn_app.
  replace (Z.to_nat (len v)) with (length v) by (unfold len; lia).
  rewrite firstn_all, Nat.sub_diag. simpl. apply app_nil_r.
Qed.

Lemma slice_assign_whole (b : list byte) :
  slice_assign b 0 (len b) (zeros (len b)) = zeros (len b).
Proof.
  unfold slice_assign. pose proof (len_nonneg b) as Hb.
  rewrite !clamp_inside by lia. rewrite Z.max_r by lia. simpl.
  rewrite skipn_all2 by (unfold len; lia). apply app_nil_r.
Qed.

(** ** Facts about dictionaries *)

Section Dict.
Context {V : Type}.
Implicit Types (d : dict V) (k : Z) (v : V).

Lemma get_set_same d k v : get (set d k v) k = Some v.
Proof.
  induction d as [|[k' v'] r IH]; simpl.
  - now rewrite Z.eqb_refl.
  - destruct (Z.eqb_spec k' k); simpl.
    + subst. now rewrite Z.eqb_refl.
    + destruct (Z.eqb_spec k' k); [contradiction | exact IH].
Qed.

Lemma get_set_other d k k' v : k <> k' -> get (set d k v) k' = get d k'.
Proof.
  intros Hne. induction d as [|[k0 v0] r IH]; simpl.
  - destruct (Z.eqb_spec k k'); [contradiction | reflexivity].
  - destruct (Z.eqb_spec k0 k); simpl.
    + subst. destruct (Z.eqb_spec k k'); [contradiction | reflexivity].
    + destruct (Z.eqb_spec k0 k'); [reflexivity | exact IH].
Qed.

Lemma get_none_iff d k : get d k = None <-> ~ In k (keys d).
Proof.
  induction d as [|[k' v'] r IH]; simpl.
  - tauto.
  - destruct (Z.eqb_spec k' k).
    + split; [discriminate | intros H; exfalso; apply H; now left].
    + rewrite IH. tauto.
Qed.

Lemma get_some_in_keys d k v : get d k = Some v -> In k (keys d).
Proof.
  intros H. destruct (in_dec Z.eq_dec k (keys d)) as [Hin|Hout]; [assumption|].
  apply get_none_iff in Hout. congruence.
Qed.

Lemma in_keys_get d k : In k (keys d) -> exists v, get d k = Some v.
Proof.
  intros H. destruct (get d k) as [v|] eqn:E; [now exists v|].
  apply get_none_iff in E. contradiction.
Qed.

Lemma keys_set_present d k v : In k (keys d) -> keys (set d k v) = keys d.
Proof.
  induction d as [|[k' v'] r IH]; simpl; [tauto|].
  intros H. destruct (Z.eqb_spec k' k); simpl; [reflexivity|].
  f_equal. apply IH. destruct H; [contradiction | assumption].
Qed.

Lemma set_absent d k v : ~ In k (keys d) -> set d k v = d ++ [(k, v)].
Proof.
  induction d as [|[k' v'] r IH]; simpl; [reflexivity|].
  intros H. destruct (Z.eqb_spec k' k); [exfalso; apply H; now left|].
  f_equal. apply IH. tauto.
Qed.

Lemma in_get d k v : NoDup (keys d) -> In (k, v) d -> get d k = Some v.
Proof.
  induction d as [|[k' v'] r IH]; simpl; [tauto|].
  intros Hnd [Heq|Hin].
  - inversion Heq; subst. now rewrite Z.eqb_refl.
  - inversion Hnd as [|? ? Hout Hnd']; subst.
    destruct (Z.eqb_spec k' k).
    + subst. exfalso. apply Hout. change (In (fst (k, v)) (map fst r)).
      now apply in_map.
    + now apply IH.
Qed.

Lemma get_in d k v : get d k = Some v -> In (k, v) d.
Proof.
  induction d as [|[k' v'] r IH]; simpl; [discriminate|].
  destruct (Z.eqb_spec k' k).
  - intros H; inversion H; subst. now left.
  - intros H. right. now apply IH.
Qed.

End Dict.

(** ** Facts about the running identifiers *)

Lemma ids_snoc (k : nat) : ids (S k) = ids k ++ [Z.of_nat (S k)].
Proof. unfold ids. rewrite seq_S, map_app. reflexivity. Qed.

Lemma in_ids (k : nat) (n : Z) : In n (ids k) <-> 1 <= n <= Z.of_nat k.
Proof.
  unfold ids. rewrite in_map_iff. split.
  - intros [i [Hi Hin]]. apply in_seq in Hin. lia.
  - intros H. exists (Z.to_nat n). split; [lia|]. apply in_seq. lia.
Qed.

Lemma NoDup_ids (k : nat) : NoDup (ids k).
Proof.
  induction k as [|k IH]; [constructor|].
  rewrite ids_snoc. apply NoDup_app; [assumption | repeat constructor; intros [] |].
  intros x Hx [<-|[]]. apply in_ids in Hx. lia.
Qed.

Lemma length_ids (k : nat) : length (ids k) = k.
Proof. unfold ids. now rewrite length_map, length_seq. Qed.

Lemma length_keys {V : Type} (d : dict V) : length (keys d) = length d.
Proof. unfold keys. apply length_map. Qed.

(** ** Facts about [chained] *)

Lemma chained_snoc (rs : dict (Z * Z)) (s0 s1 e n : Z) :
  chained s0 rs s1 -> chained s0 (rs ++ [(n, (s1, e))]) e.
Proof.
  revert s0. induction rs as [|[k [s e']] r IH]; simpl; intros s0 H.
  - subst. auto.
  - destruct H as [-> H]. split; [reflexivity | now apply IH].
Qed.

(** ** The invariant holds initially and is kept by every block *)

Ltac inv_fields H :=
  destruct H as [Hids Hnext Hchain Hdisc Hkb Hkf Hlen Hcount Hmax Hframes Hstarted Hfresh].

Lemma Inv_initial : Inv initial_state.
Proof.
  constructor; simpl; try discriminate; try reflexivity; auto.
  intros _. repeat split; auto; discriminate.
Qed.

Lemma Inv_with_packets_seen v st : Inv st -> Inv (with_packets_seen v st).
Proof. intros H. inv_fields H. constructor; simpl; assumption. Qed.

Lemma Inv_with_ticks v st : Inv st -> Inv (with_ticks v st).
Proof. intros H. inv_fields H. constructor; simpl; assumption. Qed.

Lemma Inv_with_exited v st : Inv st -> Inv (with_exited v st).
Proof. intros H. inv_fields H. constructor; simpl; assumption. Qed.

Lemma Inv_with_empty_frames v st : Inv st -> Inv (with_empty_frames v st).
Proof. intros H. inv_fields H. constructor; simpl; assumption. Qed.

Lemma Inv_nodup st : Inv st -> NoDup (keys (strings_ranges st)).
Proof. intros H. rewrite (inv_ids _ H). apply NoDup_ids. Qed.

Lemma next_assigned_fresh st : Inv st -> ~ In (next_assigned st) (keys (strings_ranges st)).
Proof.
  intros H Hin. rewrite (inv_ids _ H) in Hin. apply in_ids in Hin.
  rewrite (inv_next _ H) in Hin. unfold len in Hin. lia.
Qed.

(** What a push packet does to the learner while discovering. *)
Lemma learn_range_push h st :
  Inv st -> collecting st = false -> push_flag h = true ->
  strings_ranges (learn_range h st)
  = strings_ranges st ++ [(next_assigned st, (start st, offset h + pkt_length h))]
  /\ start (learn_range h st) = offset h + pkt_length h
  /\ next_assigned (learn_range h st) = next_assigned st + 1.
Proof.
  intros HI Hc Hp. unfold learn_range. rewrite Hc, Hp. simpl.
  rewrite set_absent by now apply next_assigned_fresh. auto.
Qed.

Lemma learn_range_idle h st :
  collecting st = true \/ push_flag h = false -> learn_range h st = st.
Proof.
  intros [H|H]; unfold learn_range; rewrite H; simpl; [reflexivity|].
  now rewrite andb_false_r.
Qed.

Lemma learn_range_collecting h st : collecting (learn_range h st) = collecting st.
Proof. unfold learn_range. destruct (negb (collecting st) && push_flag h); reflexivity. Qed.

Lemma Inv_learn_range h st : Inv st -> Inv (learn_range h st).
Proof.
  intros HI.
  destruct (collecting st) eqn:Hc; [now rewrite learn_range_idle by auto|].
  destruct (push_flag h) eqn:Hp; [|now rewrite learn_range_idle by auto].
  destruct (learn_range_push h st HI Hc Hp) as [Hr [Hs Hn]].
  pose proof (learn_range_collecting h st) as Hc'. rewrite Hc in Hc'.
  assert (Hsame : buffers (learn_range h st) = buffers st
                  /\ filled_count (learn_range h st) = filled_count st
                  /\ max_bytes (learn_range h st) = max_bytes st
                  /\ frames_written (learn_range h st) = frames_written st
                  /\ out_file (learn_range h st) = out_file st
                  /\ is_beginning (learn_range h st) = is_beginning st
                  /\ start_time (learn_range h st) = start_time st
                  /\ last_frame_time (learn_range h st) = last_frame_time st).
  { unfold learn_range. rewrite Hc, Hp. simpl. repeat split. }
  destruct Hsame as (Hb & Hf & Hm & Hw & Ho & Hbeg & Ht0 & Ht1).
  pose proof (inv_next _ HI) as Hnx.
  inv_fields HI.
  constructor; rewrite ?Hr, ?Hs, ?Hn, ?Hc', ?Hb, ?Hf, ?Hm, ?Hw, ?Ho, ?Hbeg, ?Ht0, ?Ht1;
    try assumption; try discriminate; try (intros _; now apply Hdisc).
  - unfold keys in *. rewrite map_app, length_app, Hids. simpl.
    rewrite Nat.add_1_r, ids_snoc. f_equal. f_equal. rewrite Hnx. unfold len. lia.
  - unfold len in *. rewrite length_app. simpl. lia.
  - now apply chained_snoc.
  - intros Hbg. destruct (Hfresh Hbg) as (? & ? & ? & ? & ?).
    repeat split; auto; discriminate.
Qed.

(** ** The end of the discovery *)

Lemma allocate_eq items : forall bufs filled,
  NoDup (keys items) ->
  (forall n, In n (keys items) -> ~ In n (keys bufs) /\ ~ In n (keys filled)) ->
  allocate items bufs filled
  = if forallb nonneg_range items
    then Ok (bufs ++ map fresh_buffer items, filled ++ map fresh_count items)
    else Raise ValueError.
Proof.
  induction items as [|[n [s e]] rest IH]; intros bufs filled Hnd Hfresh; simpl.
  - now rewrite !app_nil_r.
  - inversion Hnd as [|? ? Hout Hnd']; subst.
    unfold bytearray, nonneg_range at 1. simpl.
    destruct (Z.ltb_spec (e - s) 0) as [Hneg|Hpos]; simpl.
    + destruct (Z.leb_spec s e); [lia | reflexivity].
    + destruct (Z.leb_spec s e); [|lia]. simpl.
      destruct (Hfresh n (or_introl eq_refl)) as [Hb Hf].
      rewrite IH; trivial.
      * rewrite !set_absent by assumption. unfold fresh_buffer at 2, fresh_count at 2.
        simpl. now rewrite <- !app_assoc.
      * intros k Hk. rewrite !set_absent by assumption.
        unfold keys in *. rewrite !map_app, !in_app_iff. simpl.
        destruct (Hfresh k (or_intror Hk)) as [Hb' Hf'].
        assert (n <> k) by (intros ->; contradiction). tauto.
Qed.

Lemma max_of_ok (l : list Z) : l <> [] -> exists mx, max_of l = Ok mx.
Proof. destruct l; [congruence | intros _; eexists; reflexivity]. Qed.

Lemma fold_max_ge_init (l : list Z) : forall a, a <= fold_left Z.max l a.
Proof.
  induction l as [|y r IH]; simpl; intros a; [lia|].
  eapply Z.le_trans; [|apply IH]. lia.
Qed.

Lemma fold_max_ge (l : list Z) : forall a x, In x l -> x <= fold_left Z.max l a.
Proof.
  induction l as [|y r IH]; simpl; intros a x H; [contradiction|].
  destruct H as [->|H]; [|now apply IH].
  eapply Z.le_trans; [|apply fold_max_ge_init]. lia.
Qed.

Lemma fold_max_attained (l : list Z) :
  forall a, fold_left Z.max l a = a \/ In (fold_left Z.max l a) l.
Proof.
  induction l as [|y r IH]; simpl; intros a; [auto|].
  destruct (IH (Z.max a y)) as [H|H]; [|auto].
  rewrite H. destruct (Z.max_spec a y) as [[_ ->]|[_ ->]]; auto.
Qed.

(** [max_of] returns the greatest element. *)
Lemma max_of_spec (l : list Z) (mx : Z) :
  max_of l = Ok mx -> In mx l /\ forall x, In x l -> x <= mx.
Proof.
  destruct l as [|a r]; simpl; [discriminate|]. intros H; inversion H; subst. split.
  - destruct (fold_max_attained r a) as [->|Hin]; auto.
  - intros x [<-|Hx]; [apply fold_max_ge_init | now apply fold_max_ge].
Qed.

Lemma to_bytes_little_ok (x : Z) (n : nat) :
  0 <= x < 256 ^ Z.of_nat n -> to_bytes_little x n = Ok (le_bytes n x).
Proof.
  intros H. unfold to_bytes_little.
  destruct (Z.ltb_spec x 0); [lia|]. destruct (Z.leb_spec (256 ^ Z.of_nat n) x); [lia|].
  reflexivity.
Qed.

Lemma to_bytes_little_inv (x : Z) (n : nat) (bs : list byte) :
  to_bytes_little x n = Ok bs -> 0 <= x < 256 ^ Z.of_nat n /\ bs = le_bytes n x.
Proof.
  unfold to_bytes_little.
  destruct (Z.ltb_spec x 0); [discriminate|].
  destruct (Z.leb_spec (256 ^ Z.of_nat n) x); [discriminate|].
  simpl. intros E; inversion E. split; [lia | reflexivity].
Qed.

(** [finalize] does nothing once the session collects, or while ranges are
    missing. *)
Lemma finalize_idle env st :
  collecting st = true \/ len (strings_ranges st) < number_of_strings (args env) ->
  finalize env st = Ok st.
Proof.
  intros [H|H]; unfold finalize.
  - now rewrite H.
  - destruct (Z.leb_spec (number_of_strings (args env)) (len (strings_ranges st))); [lia|].
    now rewrite andb_false_r.
Qed.

(** The discovery in closed form: the three ways it can end. *)
Lemma finalize_eq env st :
  Inv st -> collecting st = false ->
  number_of_strings (args env) <= len (strings_ranges st) ->
  finalize env st
  = (mx <- max_of (range_lengths (strings_ranges st)) ;;
     _ <- to_bytes_little (mx / CHANNELS_PER_PIXEL) 2 ;;
     if forallb nonneg_range (strings_ranges st) then Ok (finalized mx st)
     else Raise ValueError).
Proof.
  intros HI Hc HS. unfold finalize. rewrite Hc.
  destruct (Z.leb_spec (number_of_strings (args env)) (len (strings_ranges st))); [|lia].
  simpl andb. cbv iota.
  destruct (max_of (range_lengths (strings_ranges st))) as [mx|e] eqn:Emax; simpl; [|reflexivity].
  destruct (to_bytes_little (mx / CHANNELS_PER_PIXEL) 2) as [hd|e] eqn:Ehd; simpl; [|reflexivity].
  apply to_bytes_little_inv in Ehd. destruct Ehd as [_ ->].
  destruct (inv_discovering _ HI Hc) as (Hb & Hf & _).
  rewrite Hb, Hf, allocate_eq.
  - destruct (forallb nonneg_range (strings_ranges st)); simpl; [|reflexivity].
    rewrite Emax. simpl. reflexivity.
  - now apply Inv_nodup.
  - simpl. tauto.
Qed.

Lemma get_map_values {V W : Type} (f : V -> W) (d : dict V) (k : Z) :
  get (map (fun it => (fst it, f (snd it))) d) k = option_map f (get d k).
Proof.
  induction d as [|[k' v] r IH]; simpl; [reflexivity|].
  destruct (Z.eqb_spec k' k); [reflexivity | exact IH].
Qed.

Lemma keys_map_values {V W : Type} (f : V -> W) (d : dict V) :
  keys (map (fun it => (fst it, f (snd it))) d) = keys d.
Proof. unfold keys. rewrite map_map. reflexivity. Qed.

Lemma zeros_len_zeros (n : Z) : zeros (len (zeros n)) = zeros n.
Proof. rewrite len_zeros. unfold zeros. f_equal. lia. Qed.

Lemma buffer_of_fresh (rs : dict (Z * Z)) (n : Z) :
  buffer_of (map fresh_buffer rs) n
  = match get rs n with
    | Some r => zeros (snd r - fst r)
    | None => []
    end.
Proof.
  unfold buffer_of.
  change (map fresh_buffer rs)
    with (map (fun it => (fst it, (fun r => zeros (snd r - fst r)) (snd it))) rs).
  rewrite get_map_values. now destruct (get rs n).
Qed.

Lemma get_count_fresh (rs : dict (Z * Z)) (n : Z) :
  get_count (map fresh_count rs) n = 0.
Proof.
  unfold get_count.
  change (map fresh_count rs) with (map (fun it => (fst it, (fun _ => 0) (snd it))) rs).
  rewrite get_map_values. now destruct (get rs n).
Qed.

Lemma Inv_finalized mx st :
  Inv st -> collecting st = false ->
  forallb nonneg_range (strings_ranges st) = true ->
  0 <= mx / CHANNELS_PER_PIXEL ->
  Inv (finalized mx st).
Proof.
  intros HI Hc Hnn Hmx. pose proof (Inv_nodup _ HI) as Hnd. inv_fields HI.
  constructor; simpl; try assumption; try discriminate.
  - intros _. apply (keys_map_values (fun r => zeros (snd r - fst r))).
  - intros _. apply (keys_map_values (fun _ : Z * Z => 0)).
  - intros _ n s e Hin. rewrite buffer_of_fresh, (in_get _ _ _ Hnd Hin). simpl.
    rewrite len_zeros. rewrite forallb_forall in Hnn. specialize (Hnn _ Hin).
    unfold nonneg_range in Hnn. simpl in Hnn. apply Z.leb_le in Hnn. lia.
  - intros n. rewrite get_count_fresh. lia.
  - intros _. exists (mx / CHANNELS_PER_PIXEL * CHANNELS_PER_PIXEL), [].
    split; [reflexivity|]. unfold CHANNELS_PER_PIXEL in *. split; [lia|].
    rewrite Z.div_mul by lia. reflexivity.
  - intros _. exists 0. split; [reflexivity | lia].
  - intros Hb. destruct (Hfresh Hb) as (Ht0 & Ht1 & _).
    split; [assumption|]. split; [assumption|].
    split; [apply get_count_fresh|].
    split.
    + intros n. rewrite buffer_of_fresh. destruct (get (strings_ranges st) n); [|reflexivity].
      now rewrite zeros_len_zeros.
    + intros _. split; [reflexivity|].
      exists (mx / CHANNELS_PER_PIXEL * CHANNELS_PER_PIXEL). split; [reflexivity|].
      unfold CHANNELS_PER_PIXEL. now rewrite Z.div_mul by lia.
Qed.

(** Whatever [finalize] returns is the state it was given, or the closed
    form of the discovery. *)
Lemma finalize_inv env st st' :
  Inv st -> finalize env st = Ok st' ->
  st' = st \/
  (collecting st = false /\
   number_of_strings (args env) <= len (strings_ranges st) /\
   exists mx, max_of (range_lengths (strings_ranges st)) = Ok mx /\
              0 <= mx / CHANNELS_PER_PIXEL < 65536 /\
              forallb nonneg_range (strings_ranges st) = true /\
              st' = finalized mx st).
Proof.
  intros HI H.
  destruct (collecting st) eqn:Hc.
  { rewrite finalize_idle in H by auto. inversion H; auto. }
  destruct (Z.lt_ge_cases (len (strings_ranges st)) (number_of_strings (args env))) as [Hlt|Hge].
  { rewrite finalize_idle in H by auto. inversion H; auto. }
  right. rewrite finalize_eq in H by (trivial; lia).
  destruct (max_of (range_lengths (strings_ranges st))) as [mx|e]; simpl in H; [|discriminate].
  destruct (to_bytes_little (mx / CHANNELS_PER_PIXEL) 2) as [hd|e] eqn:Ehd; simpl in H; [|discriminate].
  apply to_bytes_little_inv in Ehd. destruct Ehd as [Hr _].
  destruct (forallb nonneg_range (strings_ranges st)) eqn:Hnn; [|discriminate].
  inversion H; subst. repeat split; try lia. exists mx. repeat split; try lia; auto.
Qed.

Lemma Inv_finalize env st st' : Inv st -> finalize env st = Ok st' -> Inv st'.
Proof.
  intros HI H. destruct (finalize_inv env st st' HI H) as [->|(Hc & _ & mx & _ & Hr & Hnn & ->)].
  - assumption.
  - apply Inv_finalized; trivial; lia.
Qed.

(** ** The leading-empty skip *)

Lemma Inv_skip env payload st st' b :
  Inv st -> skip_leading_empty env payload st = (st', b) ->
  Inv st' /\ (b = false -> is_beginning st' = false) /\ collecting st' = collecting st.
Proof.
  intros HI. unfold skip_leading_empty.
  destruct (is_beginning st) eqn:Hb; simpl.
  - destruct (is_empty_bytearray payload); simpl; intros H; inversion H; subst; clear H.
    + split; [now apply Inv_with_empty_frames|]. split; [discriminate | reflexivity].
    + split; [|split; reflexivity]. inv_fields HI.
      constructor; simpl; try assumption; try discriminate.
      intros _. eauto.
  - intros H; inversion H; subst. auto.
Qed.

(** ** The write into a buffer *)

Lemma buffer_of_get bufs n : In n (keys bufs) -> get bufs n = Some (buffer_of bufs n).
Proof. intros H. unfold buffer_of. destruct (in_keys_get _ _ H) as [b ->]. reflexivity. Qed.

Lemma get_count_get filled n : In n (keys filled) -> get filled n = Some (get_count filled n).
Proof. intros H. unfold get_count. destruct (in_keys_get _ _ H) as [b ->]. reflexivity. Qed.

Lemma write_payload_eq items off length payload bufs filled :
  (forall it, In it items -> In (fst it) (keys bufs) /\ In (fst it) (keys filled)) ->
  write_payload items off length payload bufs filled
  = Ok (match find (fits off length) items with
        | None => None
        | Some it =>
            Some (set bufs (fst it)
                      (slice_assign (buffer_of bufs (fst it)) (off - fst (snd it))
                                    (off - fst (snd it) + length) payload),
                  set filled (fst it) (get_count filled (fst it) + length))
        end).
Proof.
  induction items as [|[n [s e]] rest IH]; intros Hk; simpl; [reflexivity|].
  unfold fits at 1. simpl.
  destruct ((s <=? off) && (off + length <=? e)).
  - destruct (Hk (n, (s, e)) (or_introl eq_refl)) as [Hb Hf]. simpl in Hb, Hf.
    unfold getitem. rewrite (buffer_of_get _ _ Hb), (get_count_get _ _ Hf). reflexivity.
  - apply IH. intros it Hit. apply Hk. now right.
Qed.

Lemma in_keys {V : Type} (d : dict V) (k : Z) (v : V) : In (k, v) d -> In k (keys d).
Proof. intros H. unfold keys. change k with (fst (k, v)). now apply in_map. Qed.

(** The assembler in closed form. *)
Lemma assemble_eq env h payload st :
  Inv st -> collecting st = true ->
  assemble env h payload st
  = match first_fit h st with
    | None => Ok st
    | Some it =>
        if all_full (buffers (accept it h payload st)) (filled_count (accept it h payload st))
        then complete_frame env (accept it h payload st)
        else Ok (accept it h payload st)
    end.
Proof.
  intros HI Hc. unfold assemble, first_fit.
  rewrite write_payload_eq.
  - simpl. destruct (find _ _) as [it|]; reflexivity.
  - intros [n r] Hin. simpl.
    rewrite (inv_keys_buffers _ HI Hc), (inv_keys_filled _ HI Hc).
    split; eapply in_keys; eassumption.
Qed.

Lemma first_fit_some h st it :
  first_fit h st = Some it ->
  In it (strings_ranges st) /\
  fst (snd it) <= offset h /\ offset h + pkt_length h <= snd (snd it).
Proof.
  unfold first_fit. intros H. apply find_some in H. destruct H as [Hin Hf].
  unfold fits in Hf. apply andb_prop in Hf. destruct Hf as [H1 H2].
  apply Z.leb_le in H1. apply Z.leb_le in H2. auto.
Qed.

Lemma buffer_of_set_same bufs n b : buffer_of (set bufs n b) n = b.
Proof. unfold buffer_of. now rewrite get_set_same. Qed.

Lemma buffer_of_set_other bufs n n' b : n <> n' -> buffer_of (set bufs n b) n' = buffer_of bufs n'.
Proof. intros H. unfold buffer_of. now rewrite get_set_other. Qed.

Lemma get_count_set_same filled n c : get_count (set filled n c) n = c.
Proof. unfold get_count. now rewrite get_set_same. Qed.

Lemma get_count_set_other filled n n' c : n <> n' -> get_count (set filled n c) n' = get_count filled n'.
Proof. intros H. unfold get_count. now rewrite get_set_other. Qed.

(** An accepted write keeps the length of every buffer. *)
Lemma accept_len h payload st it n :
  Inv st -> collecting st = true -> first_fit h st = Some it ->
  len payload = pkt_length h ->
  len (buffer_of (buffers (accept it h payload st)) n) = len (buffer_of (buffers st) n).
Proof.
  intros HI Hc Hfit Hp. destruct (first_fit_some _ _ _ Hfit) as (Hin & Hlo & Hhi).
  destruct it as [k [s e]]. simpl in *.
  destruct (Z.eq_dec k n) as [->|Hne].
  - rewrite buffer_of_set_same. rewrite <- Hp.
    apply length_slice_assign; [lia|].
    rewrite (inv_len _ HI Hc _ _ _ Hin). lia.
  - now rewrite buffer_of_set_other.
Qed.

Lemma Inv_accept h payload st it :
  Inv st -> collecting st = true -> is_beginning st = false ->
  first_fit h st = Some it -> len payload = pkt_length h ->
  Inv (accept it h payload st).
Proof.
  intros HI Hc Hb Hfit Hp.
  pose proof (accept_len h payload st it) as Hlen'.
  destruct (first_fit_some _ _ _ Hfit) as (Hin & Hlo & Hhi).
  pose proof (inv_keys_buffers _ HI Hc) as Hkb'.
  pose proof (inv_keys_filled _ HI Hc) as Hkf'.
  specialize (fun n => Hlen' n HI Hc Hfit Hp).
  inv_fields HI. destruct it as [k r]. apply in_keys in Hin.
  constructor; try assumption; try (simpl; congruence).
  - intros _. simpl. rewrite keys_set_present; congruence.
  - intros _. simpl. rewrite keys_set_present; congruence.
  - intros _ n s e Hn. rewrite Hlen'. now apply Hlen.
  - intros n. simpl. destruct (Z.eq_dec k n) as [->|Hne].
    + rewrite get_count_set_same. specialize (Hcount n).
      pose proof (len_nonneg payload). lia.
    + rewrite get_count_set_other by assumption. apply Hcount.
Qed.

(** ** The reset after a frame *)

Lemma reset_buffers_fold (ks : list Z) : forall bufs,
  (forall k, In k ks -> In k (keys bufs)) ->
  let bufs' := fold_left (fun d n => set d n (slice_assign (buffer_of d n) 0 (len (buffer_of d n))
                                                 (zeros (len (buffer_of d n))))) ks bufs in
  keys bufs' = keys bufs /\
  forall n, buffer_of bufs' n
            = if in_dec Z.eq_dec n ks then zeros (len (buffer_of bufs n)) else buffer_of bufs n.
Proof.
  induction ks as [|k ks IH]; intros bufs Hin; simpl.
  - auto.
  - rewrite slice_assign_whole.
    destruct (IH (set bufs k (zeros (len (buffer_of bufs k))))) as [Hk Hb].
    { intros j Hj. rewrite keys_set_present; apply Hin; simpl; auto. }
    split.
    + rewrite Hk. apply keys_set_present. apply Hin. simpl. auto.
    + intros n. rewrite Hb.
      destruct (Z.eq_dec k n) as [->|Hne].
      * rewrite buffer_of_set_same, zeros_len_zeros. now destruct (in_dec Z.eq_dec n ks).
      * rewrite buffer_of_set_other by assumption. now destruct (in_dec Z.eq_dec n ks).
Qed.

Lemma buffer_of_absent bufs n : ~ In n (keys bufs) -> buffer_of bufs n = [].
Proof. intros H. unfold buffer_of. apply get_none_iff in H. now rewrite H. Qed.

Lemma reset_buffers_spec bufs :
  keys (reset_buffers bufs) = keys bufs /\
  forall n, buffer_of (reset_buffers bufs) n = zeros (len (buffer_of bufs n)).
Proof.
  destruct (reset_buffers_fold (keys bufs) bufs (fun _ H => H)) as [Hk Hb].
  split; [exact Hk|]. intros n. unfold reset_buffers. rewrite Hb.
  destruct (in_dec Z.eq_dec n (keys bufs)) as [_|Hout]; [reflexivity|].
  now rewrite buffer_of_absent.
Qed.

Lemma reset_counts_fold (ks : list Z) : forall filled,
  (forall k, In k ks -> In k (keys filled)) ->
  let filled' := fold_left (fun d n => set d n 0) ks filled in
  keys filled' = keys filled /\
  forall n, get_count filled' n = if in_dec Z.eq_dec n ks then 0 else get_count filled n.
Proof.
  induction ks as [|k ks IH]; intros filled Hin; simpl.
  - auto.
  - destruct (IH (set filled k 0)) as [Hk Hc].
    { intros j Hj. rewrite keys_set_present; apply Hin; simpl; auto. }
    split.
    + rewrite Hk. apply keys_set_present. apply Hin. simpl. auto.
    + intros n. rewrite Hc.
      destruct (Z.eq_dec k n) as [->|Hne].
      * rewrite get_count_set_same. now destruct (in_dec Z.eq_dec n ks).
      * rewrite get_count_set_other by assumption. now destruct (in_dec Z.eq_dec n ks).
Qed.

Lemma get_count_absent filled n : ~ In n (keys filled) -> get_count filled n = 0.
Proof. intros H. unfold get_count. apply get_none_iff in H. now rewrite H. Qed.

Lemma reset_counts_spec bufs filled :
  keys filled = keys bufs ->
  keys (reset_counts bufs filled) = keys filled /\
  forall n, get_count (reset_counts bufs filled) n = 0.
Proof.
  intros Hk.
  destruct (reset_counts_fold (keys bufs) filled) as [Hk' Hc].
  { intros k. now rewrite Hk. }
  split; [exact Hk'|]. intros n. unfold reset_counts. rewrite Hc.
  destruct (in_dec Z.eq_dec n (keys bufs)) as [_|Hout]; [reflexivity|].
  rewrite <- Hk in Hout. now apply get_count_absent.
Qed.

Lemma len_buffer_reset bufs n :
  len (buffer_of (reset_buffers bufs) n) = len (buffer_of bufs n).
Proof.
  destruct (reset_buffers_spec bufs) as [_ H]. rewrite H, len_zeros.
  pose proof (len_nonneg (buffer_of bufs n)). lia.
Qed.

Lemma Inv_reset_frame st :
  Inv st -> collecting st = true -> is_beginning st = false -> Inv (reset_frame st).
Proof.
  intros HI Hc Hb.
  pose proof (inv_keys_buffers _ HI Hc) as Hkb'.
  pose proof (inv_keys_filled _ HI Hc) as Hkf'.
  destruct (reset_buffers_spec (buffers st)) as [Hk1 _].
  destruct (reset_counts_spec (buffers st) (filled_count st)) as [Hk2 Hz]; [congruence|].
  inv_fields HI.
  constructor; try assumption; try (simpl; congruence).
  - intros _ n s e Hn. simpl. rewrite len_buffer_reset. now apply Hlen.
  - intros n. simpl. rewrite Hz. lia.
Qed.

(** ** Frame completion *)

Lemma with_ticks_exited_id st : with_exited (exited st) (with_ticks (ticks st) st) = st.
Proof. destruct st; reflexivity. Qed.

(** The progress report and the duration check touch the clock and the exit
    flag only. *)
Lemma report_progress_inv env t0 fw st st' :
  report_progress env t0 fw st = Ok st' ->
  st' = with_ticks (ticks st') st /\ exited st' = exited st.
Proof.
  unfold report_progress. destruct (fw mod 40 =? 0); simpl.
  - unfold fps_check. destruct (_ =? 0); simpl; intros H; inversion H. auto.
  - intros H; inversion H; subst. split; [destruct st'|]; reflexivity.
Qed.

Lemma check_duration_inv env t0 st st' :
  check_duration env t0 st = Ok st' ->
  st' = with_exited (exited st') (with_ticks (ticks st') st) /\
  (exited st' = exited st \/ exited st' = Some DurationLimit).
Proof.
  unfold check_duration.
  destruct (seconds_to_capture (args env)) as [secs|].
  - destruct (secs =? 0).
    + intros H; inversion H; subst. split; [now rewrite with_ticks_exited_id | auto].
    + simpl. destruct (_ <=? _); simpl.
      * unfold fps_check. destruct (_ =? 0); simpl; intros H; inversion H. auto.
      * intros H; inversion H. simpl. split; [destruct st|]; auto.
  - intros H; inversion H; subst. split; [now rewrite with_ticks_exited_id | auto].
Qed.

Lemma complete_frame_eq env st t0 fw :
  start_time st = Some t0 -> frames_written st = Some fw ->
  0 <= total_ms env (clock env (ticks st) - t0) < 4294967296 ->
  complete_frame env st
  = (st6 <- report_progress env t0 (fw + 1) (emitted env t0 fw st) ;;
     st7 <- check_duration env t0 st6 ;;
     match exited st7 with
     | Some _ => Ok st7
     | None => Ok (reset_frame st7)
     end).
Proof.
  intros Ht0 Hfw Hms. unfold complete_frame. rewrite Ht0. simpl.
  rewrite to_bytes_little_ok by (change (256 ^ Z.of_nat 4) with 4294967296; lia).
  simpl. rewrite Hfw. simpl. reflexivity.
Qed.

Lemma complete_frame_timestamp env st st' :
  complete_frame env st = Ok st' ->
  exists t0 fw, start_time st = Some t0 /\ frames_written st = Some fw /\
                0 <= total_ms env (clock env (ticks st) - t0) < 4294967296.
Proof.
  unfold complete_frame. destruct (start_time st) as [t0|]; simpl; [|discriminate].
  destruct (to_bytes_little _ 4) as [hd|e] eqn:E; simpl; [|discriminate].
  destruct (frames_written st) as [fw|]; simpl; [|discriminate].
  intros _. exists t0, fw. apply to_bytes_little_inv in E.
  change (256 ^ Z.of_nat 4) with 4294967296 in E. intuition.
Qed.

Lemma Inv_emitted env t0 fw st :
  Inv st -> collecting st = true -> is_beginning st = false ->
  frames_written st = Some fw ->
  Inv (emitted env t0 fw st).
Proof.
  intros HI Hc Hb Hfw. inv_fields HI.
  constructor; try assumption; try (simpl; congruence).
  - intros _. destruct (Hmax Hc) as (m & rest & Hm & Hm0 & Hout).
    exists m, (rest ++ frame_record env t0 st). simpl. rewrite Hout. simpl.
    repeat split; trivial.
  - intros _. destruct (Hframes Hc) as (fw' & Hfw' & H0).
    exists (fw + 1). simpl. split; [reflexivity|]. rewrite Hfw in Hfw'. inversion Hfw'. lia.
  - intros _. destruct (Hstarted Hb) as (t0' & t1 & H0 & H1). simpl. eauto.
Qed.

(** A completed frame leaves a state of the invariant, still collecting. *)
Lemma complete_frame_closed env st st' :
  complete_frame env st = Ok st' ->
  exists t0 fw t x,
    start_time st = Some t0 /\ frames_written st = Some fw /\
    0 <= total_ms env (clock env (ticks st) - t0) < 4294967296 /\
    (x = None \/ x = Some DurationLimit \/ x = exited st) /\
    match x with
    | Some _ => st' = with_exited x (with_ticks t (emitted env t0 fw st))
    | None => exited st = None /\
              st' = reset_frame (with_exited None (with_ticks t (emitted env t0 fw st)))
    end.
Proof.
  intros H. destruct (complete_frame_timestamp _ _ _ H) as (t0 & fw & Ht0 & Hfw & Hms).
  rewrite (complete_frame_eq _ _ _ _ Ht0 Hfw Hms) in H.
  destruct (report_progress env t0 (fw + 1) (emitted env t0 fw st)) as [st6|e] eqn:E6;
    simpl in H; [|discriminate].
  destruct (check_duration env t0 st6) as [st7|e] eqn:E7; simpl in H; [|discriminate].
  apply report_progress_inv in E6. destruct E6 as [E6 X6].
  apply check_duration_inv in E7. destruct E7 as [E7 X7].
  exists t0, fw, (ticks st7), (exited st7).
  repeat split; trivial; try lia.
  - destruct X7 as [X7|X7]; rewrite X7; auto.
  - assert (E : st7 = with_exited (exited st7) (with_ticks (ticks st7) (emitted env t0 fw st))).
    { rewrite E7 at 1. rewrite E6. destruct st6; reflexivity. }
    destruct (exited st7) eqn:X.
    + inversion H; subst. exact E.
    + inversion H; subst. split; [|now rewrite E at 1].
      destruct X7 as [X7|X7]; [|discriminate]. rewrite X6 in X7. simpl in X7. congruence.
Qed.

Lemma Inv_complete_frame env st st' :
  Inv st -> collecting st = true -> is_beginning st = false ->
  complete_frame env st = Ok st' ->
  Inv st' /\ collecting st' = true /\ is_beginning st' = false.
Proof.
  intros HI Hc Hb H.
  destruct (complete_frame_closed _ _ _ H) as (t0 & fw & t & x & Ht0 & Hfw & _ & _ & Hx).
  pose proof (Inv_emitted env t0 fw st HI Hc Hb Hfw) as HE.
  destruct x as [r|].
  - subst st'. split; [|split; simpl; assumption].
    apply Inv_with_exited, Inv_with_ticks, HE.
  - destruct Hx as [_ ->]. split; [|split; simpl; assumption].
    apply Inv_reset_frame; [|simpl; assumption..].
    apply Inv_with_exited, Inv_with_ticks, HE.
Qed.

Lemma Inv_assemble env h payload st st' :
  Inv st -> collecting st = true -> is_beginning st = false ->
  len payload = pkt_length h ->
  assemble env h payload st = Ok st' ->
  Inv st' /\ collecting st' = true /\ is_beginning st' = false.
Proof.
  intros HI Hc Hb Hp H. rewrite assemble_eq in H by assumption.
  destruct (first_fit h st) as [it|] eqn:Hfit.
  - pose proof (Inv_accept h payload st it HI Hc Hb Hfit Hp) as HA.
    destruct (all_full _ _).
    + apply (Inv_complete_frame env _ _ HA); simpl; assumption.
    + inversion H; subst. auto.
  - inversion H; subst. auto.
Qed.

Lemma slice_payload_len data h payload :
  slice_payload data h = inr payload -> len payload = pkt_length h.
Proof.
  unfold slice_payload. destruct (Z.eqb_spec (len (slice data (pos h) (pos h + pkt_length h))) (pkt_length h));
    simpl; [|discriminate].
  intros H; inversion H; subst. assumption.
Qed.

Lemma Inv_on_datagram env data st st' :
  Inv st -> on_datagram env data st = Ok st' -> Inv st'.
Proof.
  intros HI. unfold on_datagram.
  destruct (parse_header data) as [e|h]; [intros H; inversion H; subst; assumption|].
  destruct (slice_payload data h) as [e|payload] eqn:Ep.
  { intros H; inversion H; subst. now apply Inv_with_packets_seen. }
  apply slice_payload_len in Ep.
  destruct (finalize env _) as [st3|e] eqn:E3; simpl; [|discriminate].
  apply Inv_finalize in E3; [|apply Inv_learn_range, Inv_with_packets_seen, HI].
  destruct (skip_leading_empty env payload st3) as [st4 skipped] eqn:E4.
  destruct (Inv_skip _ _ _ _ _ E3 E4) as (H4 & Hb4 & _).
  destruct skipped; [intros H; inversion H; subst; assumption|].
  destruct (collecting st4) eqn:Hc4; [|intros H; inversion H; subst; assumption].
  intros H. eapply Inv_assemble; eauto.
Qed.

Lemma Inv_on_timeout env st st' : Inv st -> on_timeout env st = Ok st' -> Inv st'.
Proof.
  intros HI. unfold on_timeout.
  destruct (collecting st && negb (is_beginning st)); [|intros H; inversion H; subst; assumption].
  destruct (last_frame_time st) as [lft|]; [|intros H; inversion H; subst; assumption].
  simpl. destruct (_ <=? _).
  - destruct (start_time st); simpl; [|discriminate].
    destruct (frames_written st) as [fw|]; simpl; [|discriminate].
    destruct (if 0 <? fw then _ else _); simpl; [|discriminate].
    intros H; inversion H. now apply Inv_with_exited, Inv_with_ticks.
  - intros H; inversion H. now apply Inv_with_ticks.
Qed.

Lemma Inv_step env ev st st' : Inv st -> step env ev st = Ok st' -> Inv st'.
Proof.
  intros HI. unfold step. destruct (exited st); [intros H; inversion H; subst; assumption|].
  destruct ev.
  - now apply Inv_on_datagram.
  - now apply Inv_on_timeout.
  - intros H; inversion H. now apply Inv_with_exited.
Qed.

Lemma Inv_run env evs : forall st st', Inv st -> run env evs st = Ok st' -> Inv st'.
Proof.
  induction evs as [|ev rest IH]; simpl; intros st st' HI H.
  - inversion H; subst; assumption.
  - destruct (step env ev st) as [st1|e] eqn:E; simpl in H; [|discriminate].
    eapply IH; [|exact H]. eapply Inv_step; eauto.
Qed.

(** Every state [main] reaches satisfies the invariant. *)
Lemma Inv_main env evs st : main env evs = Ok st -> Inv st.
Proof. apply Inv_run, Inv_initial. Qed.

Lemma run_app env evs1 : forall evs2 st,
  run env (evs1 ++ evs2) st = (st1 <- run env evs1 st ;; run env evs2 st1).
Proof.
  induction evs1 as [|ev rest IH]; simpl; intros evs2 st; [reflexivity|].
  destruct (step env ev st); simpl; [apply IH | reflexivity].
Qed.

(** ** The loop body in closed form *)

Lemma decode_inr data h payload :
  decode data = inr (h, payload) <->
  parse_header data = inr h /\ slice_payload data h = inr payload.
Proof.
  unfold decode. destruct (parse_header data) as [e|h'].
  - split; [discriminate | intros [H _]; discriminate].
  - destruct (slice_payload data h') as [e|p] eqn:E.
    + split; [discriminate | intros [H1 H2]; inversion H1; subst; congruence].
    + split.
      * intros H; inversion H; subst. auto.
      * intros [H1 H2]. inversion H1; subst. congruence.
Qed.

(** A datagram that does not decode leaves the session as it is, but for
    the packet counter when only the payload is short. *)
Lemma on_datagram_undecoded env data st e :
  decode data = inl e ->
  on_datagram env data st
  = Ok (match e with PayloadLengthMismatch => counted st | _ => st end).
Proof.
  unfold decode, on_datagram. destruct (parse_header data) as [e'|h] eqn:Eh.
  - intros H; inversion H; subst.
    assert (He : e <> PayloadLengthMismatch).
    { unfold parse_header in Eh. destruct (_ <? 10); [inversion Eh; discriminate|].
      destruct (negb _); [|discriminate]. destruct (14 <=? _); [discriminate|].
      inversion Eh; discriminate. }
    destruct e; congruence.
  - destruct (slice_payload data h) as [e'|p] eqn:Ep; [|discriminate].
    intros H; inversion H; subst.
    unfold slice_payload in Ep. destruct (negb _); inversion Ep. reflexivity.
Qed.

(** A decoded datagram in a session that collects. *)
Lemma on_datagram_collecting env data st h payload :
  collecting st = true -> decode data = inr (h, payload) ->
  on_datagram env data st
  = if is_beginning st then
      if is_empty_bytearray payload
      then Ok (with_empty_frames (empty_frames st + 1) (counted st))
      else assemble env h payload (started env (counted st))
    else assemble env h payload (counted st).
Proof.
  intros Hc Hd. apply decode_inr in Hd. destruct Hd as [Hh Hp].
  unfold on_datagram. rewrite Hh, Hp.
  rewrite learn_range_idle by (left; exact Hc).
  rewrite finalize_idle by (left; exact Hc). simpl.
  unfold skip_leading_empty. simpl.
  destruct (is_beginning st); simpl.
  - destruct (is_empty_bytearray payload); simpl; [reflexivity|].
    rewrite Hc. reflexivity.
  - rewrite Hc. reflexivity.
Qed.

Lemma decode_len data h payload :
  decode data = inr (h, payload) -> len payload = pkt_length h.
Proof. intros H. apply decode_inr in H. destruct H as [_ H]. now apply slice_payload_len in H. Qed.

(** What the assembler can return. *)
Lemma assemble_cases env h payload st st' :
  Inv st -> collecting st = true -> exited st = None ->
  assemble env h payload st = Ok st' ->
  (first_fit h st = None /\ st' = st) \/
  exists it, first_fit h st = Some it /\
    let st1 := accept it h payload st in
    (all_full (buffers st1) (filled_count st1) = false /\ st' = st1) \/
    (all_full (buffers st1) (filled_count st1) = true /\
     exists t0 fw t,
       start_time st = Some t0 /\ frames_written st = Some fw /\
       0 <= total_ms env (clock env (ticks st) - t0) < 4294967296 /\
       (st' = with_exited (Some DurationLimit) (with_ticks t (emitted env t0 fw st1)) \/
        st' = reset_frame (with_exited None (with_ticks t (emitted env t0 fw st1))))).
Proof.
  intros HI Hc Hx H. rewrite assemble_eq in H by assumption.
  destruct (first_fit h st) as [it|]; [|left; inversion H; auto].
  right. exists it. split; [reflexivity|]. cbv zeta.
  destruct (all_full _ _); [|left; inversion H; auto].
  right. split; [reflexivity|].
  destruct (complete_frame_closed _ _ _ H) as (t0 & fw & t & x & Ht0 & Hfw & Hms & Hxs & Hst).
  exists t0, fw, t. simpl in Ht0, Hfw, Hms. repeat split; try assumption; try lia.
  destruct x as [r|].
  - left. destruct Hxs as [Hxs|[Hxs|Hxs]]; try discriminate.
    + now rewrite Hxs in Hst.
    + simpl in Hxs. congruence.
  - right. tauto.
Qed.

(** ** Fill counts *)

Lemma Inv_counted st : Inv st -> Inv (counted st).
Proof. apply Inv_with_packets_seen. Qed.

Lemma Inv_started env st : Inv st -> Inv (started env st).
Proof.
  intros HI. inv_fields HI.
  constructor; simpl; try assumption; try discriminate. intros _. eauto.
Qed.

Lemma all_full_iff bufs filled :
  all_full bufs filled = true <->
  forall n, In n (keys bufs) -> get_count filled n = len (buffer_of bufs n).
Proof.
  unfold all_full. rewrite forallb_forall. split; intros H n Hn.
  - apply Z.eqb_eq. now apply H.
  - apply Z.eqb_eq. now apply H.
Qed.

(** Outside the keys both the buffer and the count are empty. *)
Lemma bound_outside st n :
  Inv st -> ~ In n (keys (buffers st)) ->
  get_count (filled_count st) n = 0 /\ len (buffer_of (buffers st) n) = 0.
Proof.
  intros HI Hout. destruct (collecting st) eqn:Hc.
  - rewrite buffer_of_absent by assumption. split; [|reflexivity].
    apply get_count_absent.
    now rewrite (inv_keys_filled _ HI Hc), <- (inv_keys_buffers _ HI Hc).
  - destruct (inv_discovering _ HI Hc) as (-> & -> & _). auto.
Qed.

Lemma all_full_bound st n :
  Inv st -> all_full (buffers st) (filled_count st) = true ->
  get_count (filled_count st) n = len (buffer_of (buffers st) n).
Proof.
  intros HI Hf. destruct (in_dec Z.eq_dec n (keys (buffers st))) as [Hin|Hout].
  - rewrite all_full_iff in Hf. now apply Hf.
  - destruct (bound_outside st n HI Hout) as [-> ->]. reflexivity.
Qed.

Lemma reset_frame_counts st n :
  Inv st -> collecting st = true ->
  get_count (filled_count (reset_frame st)) n = 0 /\
  buffer_of (buffers (reset_frame st)) n = zeros (len (buffer_of (buffers st) n)).
Proof.
  intros HI Hc. simpl.
  destruct (reset_buffers_spec (buffers st)) as [_ Hb].
  destruct (reset_counts_spec (buffers st) (filled_count st)) as [_ Hz].
  { rewrite (inv_keys_filled _ HI Hc). symmetry. apply (inv_keys_buffers _ HI Hc). }
  auto.
Qed.

Lemma accept_count h payload st it n :
  get_count (filled_count (accept it h payload st)) n
  = if Z.eq_dec (fst it) n then get_count (filled_count st) n + pkt_length h
    else get_count (filled_count st) n.
Proof.
  simpl. destruct (Z.eq_dec (fst it) n) as [<-|Hne].
  - apply get_count_set_same.
  - now apply get_count_set_other.
Qed.

(** The assembler keeps the bound of a buffer unless an accepted write
    overshoots it. *)
Lemma assemble_bound env h payload st st' n :
  Inv st -> collecting st = true -> is_beginning st = false -> exited st = None ->
  len payload = pkt_length h ->
  assemble env h payload st = Ok st' ->
  get_count (filled_count st) n <= len (buffer_of (buffers st) n) ->
  get_count (filled_count st') n <= len (buffer_of (buffers st') n) \/
  exists it, first_fit h st = Some it /\ fst it = n /\
             len (buffer_of (buffers st) n) < get_count (filled_count st) n + pkt_length h.
Proof.
  intros HI Hc Hb Hx Hp H Hn.
  destruct (assemble_cases _ _ _ _ _ HI Hc Hx H) as [[_ ->]|(it & Hfit & Hcases)]; [auto|].
  cbv zeta in Hcases.
  pose proof (Inv_accept h payload st it HI Hc Hb Hfit Hp) as HA.
  pose proof (accept_len h payload st it n HI Hc Hfit Hp) as HL.
  destruct Hcases as [[_ ->]|(Hfull & t0 & fw & t & _ & Hfw & _ & Hst)].
  - rewrite accept_count, HL. destruct (Z.eq_dec (fst it) n) as [E|E]; [|auto].
    destruct (Z.le_gt_cases (get_count (filled_count st) n + pkt_length h)
                            (len (buffer_of (buffers st) n))); [auto|].
    right. exists it. repeat split; trivial.
  - left. destruct Hst as [->| ->].
    + simpl. pose proof (all_full_bound _ n HA Hfull) as E. simpl in E. lia.
    + pose proof (Inv_emitted env t0 fw _ HA Hc Hb Hfw) as HE.
      destruct (reset_frame_counts
                  (with_exited None (with_ticks t (emitted env t0 fw (accept it h payload st)))) n)
        as [-> ->].
      * now apply Inv_with_exited, Inv_with_ticks.
      * assumption.
      * rewrite len_zeros. lia.
Qed.

Lemma on_timeout_closed env st st' :
  on_timeout env st = Ok st' ->
  st' = with_exited (exited st') (with_ticks (ticks st') st) /\
  (exited st' = exited st \/ exited st' = Some IdleTimeout).
Proof.
  unfold on_timeout.
  destruct (collecting st && negb (is_beginning st));
    [|intros H; inversion H; subst; now rewrite with_ticks_exited_id; auto].
  destruct (last_frame_time st) as [lft|];
    [|intros H; inversion H; subst; now rewrite with_ticks_exited_id; auto].
  simpl. destruct (_ <=? _).
  - destruct (start_time st); simpl; [|discriminate].
    destruct (frames_written st) as [fw|]; simpl; [|discriminate].
    destruct (if 0 <? fw then _ else _); simpl; [|discriminate].
    intros H; inversion H. simpl. auto.
  - intros H; inversion H. simpl. split; [destruct st; reflexivity | auto].
Qed.

(** The ways a datagram goes through the loop body. *)
Lemma on_datagram_cases env data st st' :
  Inv st -> on_datagram env data st = Ok st' ->
  (exists e, decode data = inl e /\
             st' = match e with PayloadLengthMismatch => counted st | _ => st end) \/
  exists h payload st3,
    decode data = inr (h, payload) /\
    finalize env (learn_range h (counted st)) = Ok st3 /\ Inv st3 /\
    ((is_beginning st3 = true /\ is_empty_bytearray payload = true /\
      st' = with_empty_frames (empty_frames st3 + 1) st3) \/
     exists st4,
       ((is_beginning st3 = true /\ is_empty_bytearray payload = false /\ st4 = started env st3) \/
        (is_beginning st3 = false /\ st4 = st3)) /\
       ((collecting st4 = false /\ st' = st4) \/
        (collecting st4 = true /\ assemble env h payload st4 = Ok st'))).
Proof.
  intros HI H. destruct (decode data) as [e|[h payload]] eqn:Hd.
  - left. exists e. rewrite (on_datagram_undecoded _ _ _ _ Hd) in H. inversion H. auto.
  - right. exists h, payload. pose proof Hd as Hd'. apply decode_inr in Hd'.
    destruct Hd' as [Hh Hp]. unfold on_datagram in H. rewrite Hh, Hp in H.
    fold (counted st) in H.
    destruct (finalize env (learn_range h (counted st))) as [st3|e] eqn:E3; simpl in H; [|discriminate].
    exists st3. split; [reflexivity|]. split; [reflexivity|].
    assert (HI3 : Inv st3).
    { eapply Inv_finalize; [|exact E3]. apply Inv_learn_range, Inv_counted, HI. }
    split; [exact HI3|].
    unfold skip_leading_empty in H.
    destruct (is_beginning st3) eqn:Hb; simpl in H.
    + destruct (is_empty_bytearray payload) eqn:He; simpl in H.
      * left. inversion H. auto.
      * right. exists (started env st3). split; [left; auto|].
        fold (started env st3) in H.
        change (collecting (started env st3)) with (collecting st3) in *.
        destruct (collecting st3); [right | left]; split; trivial. now inversion H.
    + right. exists st3. split; [right; auto|].
      destruct (collecting st3); [right | left]; split; trivial. now inversion H.
Qed.

Lemma bounded_fresh st :
  (forall n, get_count (filled_count st) n = 0) -> bounded st.
Proof. intros H n. rewrite H. apply len_nonneg. Qed.

Lemma finalize_counts env st st3 :
  Inv st -> collecting st = false -> finalize env st = Ok st3 ->
  forall n, get_count (filled_count st3) n = 0.
Proof.
  intros HI Hc H n.
  destruct (finalize_inv _ _ _ HI H) as [->|(_ & _ & mx & _ & _ & _ & ->)].
  - destruct (inv_discovering _ HI Hc) as (_ & -> & _). reflexivity.
  - simpl. apply get_count_fresh.
Qed.

Lemma first_fit_room h st it :
  Inv st -> collecting st = true -> first_fit h st = Some it ->
  pkt_length h <= len (buffer_of (buffers st) (fst it)).
Proof.
  intros HI Hc Hfit. destruct (first_fit_some _ _ _ Hfit) as (Hin & Hlo & Hhi).
  destruct it as [k [s e]]. simpl in *. rewrite (inv_len _ HI Hc _ _ _ Hin). lia.
Qed.

Lemma learn_range_exited h st : exited (learn_range h st) = exited st.
Proof. unfold learn_range. destruct (negb (collecting st) && push_flag h); reflexivity. Qed.

Lemma finalize_exited env st st' :
  Inv st -> finalize env st = Ok st' -> exited st' = exited st.
Proof.
  intros HI H.
  destruct (finalize_inv _ _ _ HI H) as [->|(_ & _ & mx & _ & _ & _ & ->)]; reflexivity.
Qed.

Lemma bounded_discovering st st' :
  Inv st -> collecting st = false -> filled_count st' = filled_count st -> bounded st'.
Proof.
  intros HI Hc E. apply bounded_fresh. intros n. rewrite E.
  destruct (inv_discovering _ HI Hc) as (_ & -> & _). reflexivity.
Qed.

(** ** The decoder *)

Lemma byte_val_range (b : byte) : 0 <= byte_val b < 256.
Proof.
  unfold byte_val. pose proof (Byte.to_N_bounded b) as H.
  apply N2Z.inj_le in H. simpl in H. lia.
Qed.

Lemma timecode_bit (b : byte) :
  negb (Z.land (byte_val b) 16 =? 0) = Z.testbit (byte_val b) 4.
Proof. destruct b; reflexivity. Qed.

(** A datagram of at least ten bytes, cut at its header fields. *)
Lemma header_bytes (data : list byte) :
  10 <= len data ->
  exists b0 b1 b2 b3 b4 b5 b6 b7 b8 b9 rest,
    data = b0 :: b1 :: b2 :: b3 :: b4 :: b5 :: b6 :: b7 :: b8 :: b9 :: rest.
Proof.
  unfold len. intros H.
  do 10 (destruct data as [|? data]; [simpl in H; lia|]).
  repeat eexists.
Qed.

Lemma header_fields (data : list byte) :
  10 <= len data ->
  unpack_be (slice data 4 8) = spec_offset data /\
  unpack_be (slice data 8 10) = spec_length data.
Proof.
  intros H. destruct (header_bytes data H) as (b0 & b1 & b2 & b3 & b4 & b5 & b6 & b7 & b8 & b9 & rest & ->).
  unfold slice. rewrite !clamp_inside by lia.
  unfold spec_offset, spec_length, byte_at, unpack_be. simpl. lia.
Qed.

Lemma spec_length_range (data : list byte) : 0 <= spec_length data < 65536.
Proof.
  unfold spec_length, byte_at.
  pose proof (byte_val_range (nth 8 data x00)). pose proof (byte_val_range (nth 9 data x00)). lia.
Qed.

Lemma spec_offset_range (data : list byte) : 0 <= spec_offset data < 2 ^ 32.
Proof.
  unfold spec_offset, byte_at.
  pose proof (byte_val_range (nth 4 data x00)). pose proof (byte_val_range (nth 5 data x00)).
  pose proof (byte_val_range (nth 6 data x00)). pose proof (byte_val_range (nth 7 data x00)). lia.
Qed.

(** The header parser in the words of the spec. *)
Lemma parse_header_spec (data : list byte) :
  match parse_header data with
  | inl TooShort => len data < 10
  | inl TruncatedTimecode => 10 <= len data < 14 /\ spec_has_timecode data = true
  | inl PayloadLengthMismatch => False
  | inr h =>
      10 <= len data /\ (spec_has_timecode data = true -> 14 <= len data) /\
      offset h = spec_offset data /\ pkt_length h = spec_length data /\
      pos h = spec_payload_start data /\ has_timecode h = spec_has_timecode data /\
      flags1 h = byte_at data 0
  end.
Proof.
  unfold parse_header. destruct (Z.ltb_spec (len data) 10) as [Hs|Hl]; [exact Hs|].
  destruct (header_fields data Hl) as [Eo El].
  unfold byte_at at 1. rewrite timecode_bit. fold (byte_at data 0). fold (spec_has_timecode data).
  unfold spec_payload_start.
  destruct (spec_has_timecode data) eqn:Et.
  - destruct (Z.leb_spec 14 (len data)); simpl; [|split; [lia | reflexivity]].
    repeat split; trivial.
  - simpl. repeat split; trivial. discriminate.
Qed.

Lemma slice_payload_spec (data : list byte) (h : Header) :
  0 <= pos h <= len data -> 0 <= pkt_length h ->
  match slice_payload data h with
  | inl e => e = PayloadLengthMismatch /\ len data - pos h < pkt_length h
  | inr payload =>
      pkt_length h <= len data - pos h /\ len payload = pkt_length h /\
      payload = firstn (Z.to_nat (pkt_length h)) (skipn (Z.to_nat (pos h)) data)
  end.
Proof.
  intros Hpos Hlen. unfold slice_payload.
  rewrite len_slice by lia.
  destruct (Z.eqb_spec (Z.max 0 (Z.min (pos h + pkt_length h) (len data) - Z.min (pos h) (len data)))
                       (pkt_length h)) as [E|E]; simpl.
  - split; [lia|]. split; [rewrite len_slice by lia; exact E|].
    apply slice_from; lia.
  - split; [reflexivity | lia].
Qed.

(** ** After the discovery *)

(** What the assembler leaves alone, and what it appends to the file. *)
Lemma assemble_file env h payload st st' c :
  Inv st -> collecting st = true -> exited st = None -> out_file st = Some c ->
  assemble env h payload st = Ok st' ->
  collecting st' = true /\ max_bytes st' = max_bytes st /\
  strings_ranges st' = strings_ranges st /\
  exists rest, out_file st' = Some (c ++ rest).
Proof.
  intros HI Hc Hx Ho H.
  destruct (assemble_cases _ _ _ _ _ HI Hc Hx H) as [[_ ->]|(it & _ & Hcases)].
  { repeat split; trivial. exists []. now rewrite app_nil_r. }
  cbv zeta in Hcases.
  destruct Hcases as [[_ ->]|(_ & t0 & fw & t & _ & _ & _ & [->| ->])]; simpl;
    rewrite ?Ho; simpl; repeat split; trivial; eexists; try reflexivity.
  now rewrite app_nil_r.
Qed.

Lemma step_after_discovery env ev st st' c :
  Inv st -> collecting st = true -> out_file st = Some c ->
  step env ev st = Ok st' ->
  collecting st' = true /\ max_bytes st' = max_bytes st /\
  strings_ranges st' = strings_ranges st /\
  exists rest, out_file st' = Some (c ++ rest).
Proof.
  intros HI Hc Ho Hs.
  assert (Hsame : forall s, collecting s = true -> max_bytes s = max_bytes st ->
                            strings_ranges s = strings_ranges st -> out_file s = Some c ->
                            collecting s = true /\ max_bytes s = max_bytes st /\
                            strings_ranges s = strings_ranges st /\
                            exists rest, out_file s = Some (c ++ rest)).
  { intros s H1 H2 H3 H4. repeat split; trivial. exists []. now rewrite app_nil_r. }
  unfold step in Hs. destruct (exited st) eqn:Hx; [inversion Hs; subst; now apply Hsame|].
  destruct ev as [data| |].
  - destruct (decode data) as [e|[h payload]] eqn:Hd.
    + rewrite (on_datagram_undecoded _ _ _ _ Hd) in Hs. inversion Hs.
      destruct e; now apply Hsame.
    + rewrite (on_datagram_collecting _ _ _ _ _ Hc Hd) in Hs.
      destruct (is_beginning st).
      * destruct (is_empty_bytearray payload); [inversion Hs; now apply Hsame|].
        apply (assemble_file env h payload (started env (counted st)) st' c); trivial.
        now apply Inv_started, Inv_counted.
      * apply (assemble_file env h payload (counted st) st' c); trivial.
        now apply Inv_counted.
  - apply on_timeout_closed in Hs. destruct Hs as [-> _]. now apply Hsame.
  - inversion Hs. now apply Hsame.
Qed.

Lemma run_after_discovery env evs : forall st st' c,
  Inv st -> collecting st = true -> out_file st = Some c ->
  run env evs st = Ok st' ->
  collecting st' = true /\ max_bytes st' = max_bytes st /\
  strings_ranges st' = strings_ranges st /\
  exists rest, out_file st' = Some (c ++ rest).
Proof.
  induction evs as [|ev more IH]; simpl; intros st st' c HI Hc Ho H.
  - inversion H; subst. repeat split; trivial. exists []. now rewrite app_nil_r.
  - destruct (step env ev st) as [st1|e] eqn:E; simpl in H; [|discriminate].
    destruct (step_after_discovery _ _ _ _ _ HI Hc Ho E) as (Hc1 & Hm1 & Hr1 & rest1 & Ho1).
    destruct (IH st1 st' _ (Inv_step _ _ _ _ HI E) Hc1 Ho1 H) as (Hc' & Hm' & Hr' & rest & Ho').
    repeat split; try congruence. exists (rest1 ++ rest). now rewrite app_assoc.
Qed.

(** ** The iteration up to the buffer write *)

Lemma skip_leading_empty_eq env payload s :
  skip_leading_empty env payload s
  = if is_beginning s then
      if is_empty_bytearray payload
      then (with_empty_frames (empty_frames s + 1) s, true)
      else (started env s, false)
    else (s, false).
Proof.
  unfold skip_leading_empty. destruct (is_beginning s); simpl; [|reflexivity].
  destruct (is_empty_bytearray payload); reflexivity.
Qed.

(** A decoded packet runs [before_write], then the buffer write if it is
    handed on. *)
Lemma on_datagram_before_write env data st h payload :
  decode data = inr (h, payload) ->
  on_datagram env data st
  = (r <- before_write env h payload st ;;
     if snd r then assemble env h payload (fst r) else Ok (fst r)).
Proof.
  intros Hd. apply decode_inr in Hd. destruct Hd as [Hh Hp].
  unfold on_datagram, before_write. rewrite Hh, Hp. fold (counted st).
  destruct (finalize env (learn_range h (counted st))) as [st3|e]; simpl; [|reflexivity].
  destruct (skip_leading_empty env payload st3) as [st4 skipped].
  destruct skipped; simpl; [reflexivity|]. destruct (collecting st4); reflexivity.
Qed.

Lemma before_write_handed env h payload st st4 :
  Inv st -> before_write env h payload st = Ok (st4, true) ->
  Inv st4 /\ collecting st4 = true /\ is_beginning st4 = false /\ exited st4 = exited st.
Proof.
  intros HI H. unfold before_write in H.
  assert (HIc : Inv (learn_range h (counted st))) by apply Inv_learn_range, Inv_counted, HI.
  destruct (finalize env (learn_range h (counted st))) as [st3|e] eqn:E3; simpl in H;
    [|discriminate].
  pose proof (Inv_finalize _ _ _ HIc E3) as HI3.
  assert (Hx3 : exited st3 = exited st).
  { rewrite (finalize_exited _ _ _ HIc E3), learn_range_exited. reflexivity. }
  rewrite skip_leading_empty_eq in H.
  destruct (is_beginning st3) eqn:Hb.
  - destruct (is_empty_bytearray payload); [discriminate H|].
    injection H as E1 E2. subst st4.
    change (collecting (started env st3)) with (collecting st3) in E2.
    split; [now apply Inv_started|]. split; [exact E2|]. split; [reflexivity | exact Hx3].
  - injection H as E1 E2. subst st4. simpl in E2. auto.
Qed.

Lemma before_write_capturing env h payload st :
  collecting st = true -> is_beginning st = false ->
  before_write env h payload st = Ok (counted st, true).
Proof.
  intros Hc Hb. unfold before_write.
  rewrite (learn_range_idle h (counted st)) by (left; exact Hc).
  rewrite finalize_idle by (left; exact Hc). simpl bind.
  rewrite skip_leading_empty_eq.
  change (is_beginning (counted st)) with (is_beginning st). rewrite Hb.
  change (collecting (counted st)) with (collecting st). rewrite Hc. reflexivity.
Qed.

(** A packet that is handed on is processed by the buffer write from the
    state [before_write] returns. *)
Lemma step_handed env data st h payload st4 :
  exited st = None -> decode data = inr (h, payload) ->
  before_write env h payload st = Ok (st4, true) ->
  step env (Datagram data) st = assemble env h payload st4.
Proof.
  intros Hx Hd Hw. unfold step. rewrite Hx, (on_datagram_before_write _ _ _ _ _ Hd), Hw.
  reflexivity.
Qed.

(** In a session that already collects, the iteration changes neither a
    buffer nor a count before the buffer write. *)
Lemma before_write_collecting env h payload st st4 b :
  collecting st = true -> before_write env h payload st = Ok (st4, b) ->
  strings_ranges st4 = strings_ranges st /\ buffers st4 = buffers st /\
  filled_count st4 = filled_count st.
Proof.
  intros Hc H. unfold before_write in H.
  rewrite (learn_range_idle h (counted st)) in H by (left; exact Hc).
  rewrite finalize_idle in H by (left; exact Hc). simpl bind in H.
  rewrite skip_leading_empty_eq in H.
  destruct (is_beginning (counted st)).
  - destruct (is_empty_bytearray payload); injection H as E _; subst st4; repeat split.
  - injection H as E _. subst st4. repeat split.
Qed.

(** * The claims *)

(** C1.  The claim: no sequence of datagrams makes the recorder raise; in
    particular the discovery succeeds for every order of push packets.  The
    code breaks it: when the push packets of two strings arrive with
    decreasing ends, the second range has a negative length and
    [bytearray] raises [ValueError] out of [main]; and a range of 65536
    pixels or more makes [to_bytes(2)] raise [OverflowError]. *)
Theorem reordered_push_raises :
  main (example_env 2 None) reordered_session = Raise ValueError /\
  main (example_env 1 None) oversized_session = Raise OverflowError.
Proof. split; vm_compute; reflexivity. Qed.

(** C2, as stated, fails: after the two packets of [overlapping_session]
    the only buffer has 4 bytes and a count of 5. *)
Lemma filled_bytes_exceed_length :
  exists st, main (example_env 1 None) overlapping_session = Ok st /\
             len (buffer_of (buffers st) 1) = 4 /\
             get_count (filled_count st) 1 = 5 /\
             ~ bounded st.
Proof.
  eexists. split; [vm_compute; reflexivity|]. split; [reflexivity|]. split; [reflexivity|].
  intros H. specialize (H 1). vm_compute in H. apply H. reflexivity.
Qed.

(** C2, amended.  After every processed event every count is non-negative,
    and the counts being equal to the lengths of their buffers is exactly
    what [all_full] tests.  The upper bound holds after every event of the
    discovery, and an event of a collecting session keeps it for a buffer
    unless it is a packet accepted by that buffer's range whose length,
    added to the count, exceeds the length of the buffer. *)
Theorem filled_bytes_bounds env evs st ev st' :
  main env evs = Ok st -> step env ev st = Ok st' ->
  (forall n, 0 <= get_count (filled_count st') n) /\
  (all_full (buffers st') (filled_count st') = true <-> completion_condition st') /\
  (collecting st = false -> bounded st') /\
  (collecting st = true ->
   forall n,
     get_count (filled_count st) n <= len (buffer_of (buffers st) n) ->
     get_count (filled_count st') n <= len (buffer_of (buffers st') n) \/
     exists data h payload it,
       ev = Datagram data /\ decode data = inr (h, payload) /\
       first_fit h st = Some it /\ fst it = n /\
       len (buffer_of (buffers st) n) < get_count (filled_count st) n + pkt_length h).
Proof.
  intros Hm Hs. pose proof (Inv_main _ _ _ Hm) as HI.
  pose proof (Inv_step _ _ _ _ HI Hs) as HI'.
  split; [apply (inv_count _ HI')|]. split; [apply all_full_iff|].
  unfold step in Hs. destruct (exited st) eqn:Hx.
  { inversion Hs; subst. split; [intros Hc; now apply (bounded_discovering st') | auto]. }
  destruct ev as [data| |].
  - destruct (on_datagram_cases _ _ _ _ HI Hs)
      as [(e & Hd & ->)|(h & payload & st3 & Hd & H3 & HI3 & Hcases)].
    + split.
      * intros Hc. apply (bounded_discovering st); trivial. now destruct e.
      * intros _ n Hn. left. destruct e; exact Hn.
    + pose proof (decode_len _ _ _ Hd) as Hp. split.
      * intros Hc.
        assert (Hz : forall n, get_count (filled_count st3) n = 0).
        { apply (finalize_counts env (learn_range h (counted st)) st3);
            [apply Inv_learn_range, Inv_counted, HI
            |rewrite learn_range_collecting; exact Hc
            |exact H3]. }
        destruct Hcases as [(_ & _ & ->)|(st4 & H4 & Hout)].
        { apply bounded_fresh. exact Hz. }
        assert (E4 : Inv st4 /\ is_beginning st4 = false /\ exited st4 = None
                     /\ buffers st4 = buffers st3 /\ filled_count st4 = filled_count st3
                     /\ collecting st4 = collecting st3).
        { assert (Hx3 : exited st3 = None).
          { rewrite (finalize_exited _ _ _ (Inv_learn_range h _ (Inv_counted _ HI)) H3).
            rewrite learn_range_exited. exact Hx. }
          destruct H4 as [(_ & _ & ->)|(Hb & ->)].
          - split; [now apply Inv_started|]. simpl. repeat split; auto.
          - split; [exact HI3|]. repeat split; auto. }
        destruct E4 as (HI4 & Hb4 & Hx4 & Eb & Ef & Ec).
        destruct Hout as [[_ ->]|[Hc4 Ha]].
        { apply bounded_fresh. rewrite Ef. exact Hz. }
        intros n.
        destruct (assemble_bound env h payload st4 st' n HI4 Hc4 Hb4 Hx4 Hp Ha) as [Hl|(it & Hfit & <- & Hgt)].
        { rewrite Ef, Hz. apply len_nonneg. }
        { exact Hl. }
        pose proof (first_fit_room _ _ _ HI4 Hc4 Hfit) as Hroom.
        rewrite Ef, Hz in Hgt. lia.
      * intros Hc n Hn.
        rewrite (learn_range_idle h (counted st)) in H3 by (left; exact Hc).
        rewrite finalize_idle in H3 by (left; exact Hc). inversion H3; subst st3.
        destruct Hcases as [(_ & _ & ->)|(st4 & H4 & Hout)]; [left; exact Hn|].
        assert (E4 : Inv st4 /\ is_beginning st4 = false /\ exited st4 = None
                     /\ buffers st4 = buffers st /\ filled_count st4 = filled_count st
                     /\ strings_ranges st4 = strings_ranges st /\ collecting st4 = true).
        { destruct H4 as [(_ & _ & ->)|(Hb & ->)].
          - split; [apply Inv_started, Inv_counted, HI|]. simpl. repeat split; auto.
          - split; [apply Inv_counted, HI|]. simpl in *. repeat split; auto. }
        destruct E4 as (HI4 & Hb4 & Hx4 & Eb & Ef & Er & Hc4).
        destruct Hout as [[Hcf _]|[_ Ha]]; [congruence|].
        destruct (assemble_bound env h payload st4 st' n HI4 Hc4 Hb4 Hx4 Hp Ha) as [Hl|(it & Hfit & Hit & Hgt)].
        { now rewrite Eb, Ef. }
        { left. exact Hl. }
        right. exists data, h, payload, it. rewrite Eb, Ef in Hgt.
        unfold first_fit in *. rewrite Er in Hfit. auto.
  - apply on_timeout_closed in Hs. destruct Hs as [-> _]. split.
    + intros Hc. now apply (bounded_discovering st).
    + simpl. auto.
  - inversion Hs; subst. split.
    + intros Hc. now apply (bounded_discovering st).
    + simpl. auto.
Qed.

(** The bounds at work on [overlapping_session]: its second packet is the
    write that overshoots. *)
Lemma filled_bytes_bounds_witness :
  main (example_env 1 None) [Datagram (ddp_packet PUSH 2 2 [x01; x01])] = Ok overlapping_first /\
  step (example_env 1 None) (Datagram (ddp_packet NOPUSH 0 3 [x01; x01; x01])) overlapping_first
  = Ok overlapping_last /\
  (forall n, 0 <= get_count (filled_count overlapping_last) n) /\
  (all_full (buffers overlapping_last) (filled_count overlapping_last) = true
   <-> completion_condition overlapping_last).
Proof.
  assert (Hm : main (example_env 1 None) [Datagram (ddp_packet PUSH 2 2 [x01; x01])]
               = Ok overlapping_first) by (vm_compute; reflexivity).
  assert (Hs : step (example_env 1 None) (Datagram (ddp_packet NOPUSH 0 3 [x01; x01; x01]))
                    overlapping_first = Ok overlapping_last) by (vm_compute; reflexivity).
  split; [exact Hm|]. split; [exact Hs|].
  pose proof (filled_bytes_bounds _ _ _ _ _ Hm Hs) as H.
  split; [apply H | apply H].
Defined.

(** ** Learned ranges *)

Lemma Inv_learn_all hs : forall st, Inv st -> Inv (learn_all hs st).
Proof.
  induction hs as [|h rest IH]; simpl; intros st HI; [assumption|].
  apply IH, Inv_learn_range, HI.
Qed.

(** Chained ranges of non-negative length tile the interval between the
    first start and the last end. *)
Lemma chained_tiles (rs : dict (Z * Z)) : forall s0 s1,
  chained s0 rs s1 -> forallb nonneg_range rs = true ->
  s0 <= s1 /\
  forall x,
    ((exists n r, In (n, r) rs /\ covers r x) <-> s0 <= x < s1) /\
    (forall n r n' r', In (n, r) rs -> In (n', r') rs ->
                       covers r x -> covers r' x -> n = n' /\ r = r').
Proof.
  induction rs as [|[k [s e]] rest IH]; simpl; intros s0 s1 Hch Hnn.
  - subst. split; [lia|]. intros x. split.
    + split; [intros (n & r & [] & _) | lia].
    + intros n r n' r' [].
  - destruct Hch as [-> Hch]. apply andb_prop in Hnn. destruct Hnn as [Hse Hnn].
    unfold nonneg_range in Hse. simpl in Hse. apply Z.leb_le in Hse.
    destruct (IH e s1 Hch Hnn) as [Hle IHx]. split; [lia|].
    intros x. destruct (IHx x) as [Hcov Huniq].
    assert (Hrest : forall n r, In (n, r) rest -> covers r x -> e <= x < s1).
    { intros n r Hin Hc. apply Hcov. eauto. }
    split.
    + split.
      * intros (n & r & [Heq|Hin] & Hc).
        -- inversion Heq; subst. unfold covers in Hc. simpl in Hc. lia.
        -- specialize (Hrest _ _ Hin Hc). lia.
      * intros Hx. destruct (Z.lt_ge_cases x e) as [Hlt|Hge].
        -- exists k, (s0, e). split; [now left|]. unfold covers. simpl. lia.
        -- destruct Hcov as [_ Hcov]. destruct Hcov as (n & r & Hin & Hc); [lia|].
           exists n, r. auto.
    + intros n r n' r' [H1|H1] [H2|H2] Hc Hc'.
      * inversion H1; inversion H2; subst. auto.
      * inversion H1; subst. specialize (Hrest _ _ H2 Hc').
        unfold covers in Hc. simpl in Hc. lia.
      * inversion H2; subst. specialize (Hrest _ _ H1 Hc).
        unfold covers in Hc'. simpl in Hc'. lia.
      * eapply Huniq; eauto.
Qed.

(** In a session that collects, every range has a buffer, hence a
    non-negative length. *)
Lemma collecting_nonneg st :
  Inv st -> collecting st = true -> forallb nonneg_range (strings_ranges st) = true.
Proof.
  intros HI Hc. apply forallb_forall. intros [n [s e]] Hin.
  unfold nonneg_range. simpl. apply Z.leb_le.
  pose proof (inv_len _ HI Hc _ _ _ Hin) as E.
  pose proof (len_nonneg (buffer_of (buffers st) n)). lia.
Qed.

(** C3, as stated, fails: fed two push packets that end at 30 and at 10,
    the learner holds the ranges (0, 30) and (30, 10); offset 20 lies in the
    first of them and not below the total length, 10. *)
Lemma reordered_ranges_do_not_partition :
  map push_flag reordered_headers = [true; true] /\
  strings_ranges reordered_learned = [(1, (0, 30)); (2, (30, 10))] /\
  start reordered_learned = 10 /\
  ~ partitions (strings_ranges reordered_learned) (start reordered_learned).
Proof.
  split; [reflexivity|]. split; [reflexivity|]. split; [reflexivity|].
  intros H. destruct (H 20) as [[Hcov _] _].
  assert (Hin : exists n r, In (n, r) (strings_ranges reordered_learned) /\ covers r 20).
  { exists 1, (0, 30). split; [left; reflexivity | unfold covers; simpl; lia]. }
  apply Hcov in Hin. change (start reordered_learned) with 10 in Hin. lia.
Qed.

(** C3, amended.  In every state [main] reaches, and after the learner has
    been fed any further headers, the identifiers are 1, 2, ... in order, the
    first range starts at 0, every other range starts where the one before
    it ends, and the cursor is the last end; a push packet received while
    discovering appends the range from the cursor to its own end.  The
    ranges partition the interval from 0 to the cursor when none of them has
    a negative length, that is, when the ends of the push packets never
    decrease; this is the case in every session that collects. *)
Theorem learned_ranges_chain env evs st0 hs :
  main env evs = Ok st0 ->
  let st := learn_all hs st0 in
  keys (strings_ranges st) = ids (length (strings_ranges st)) /\
  chained 0 (strings_ranges st) (start st) /\
  (forall h, collecting st = false -> push_flag h = true ->
             strings_ranges (learn_range h st)
             = strings_ranges st ++ [(next_assigned st, (start st, offset h + pkt_length h))]
             /\ start (learn_range h st) = offset h + pkt_length h) /\
  (forallb nonneg_range (strings_ranges st) = true ->
   partitions (strings_ranges st) (start st)) /\
  (collecting st = true -> partitions (strings_ranges st) (start st)).
Proof.
  intros Hm st. assert (HI : Inv st) by (apply Inv_learn_all, (Inv_main _ _ _ Hm)).
  assert (Hpart : forallb nonneg_range (strings_ranges st) = true ->
                  partitions (strings_ranges st) (start st)).
  { intros Hnn. destruct (chained_tiles _ _ _ (inv_chain _ HI) Hnn) as [_ H]. exact H. }
  split; [apply (inv_ids _ HI)|]. split; [apply (inv_chain _ HI)|].
  split; [|split; [exact Hpart|]].
  - intros h Hc Hp. destruct (learn_range_push h st HI Hc Hp) as (H1 & H2 & _). auto.
  - intros Hc. apply Hpart. now apply collecting_nonneg.
Qed.

(** Push packets that end at 15 and at 45 give the ranges of scenario B,
    which partition the first 45 offsets. *)
Lemma learned_ranges_chain_witness :
  main (example_env 2 None) [] = Ok initial_state /\
  strings_ranges (learn_all ordered_headers initial_state) = [(1, (0, 15)); (2, (15, 45))] /\
  partitions (strings_ranges (learn_all ordered_headers initial_state))
             (start (learn_all ordered_headers initial_state)).
Proof.
  assert (Hm : main (example_env 2 None) [] = Ok initial_state) by reflexivity.
  split; [exact Hm|]. split; [reflexivity|].
  pose proof (learned_ranges_chain _ _ _ ordered_headers Hm) as (_ & _ & _ & H & _).
  apply H. reflexivity.
Defined.

(** ** The frame record *)

Lemma sorted_increasing (k : nat) : forall a, sorted (map Z.of_nat (seq a k)) = map Z.of_nat (seq a k).
Proof.
  induction k as [|k IH]; intros a; [reflexivity|].
  change (sorted (map Z.of_nat (seq a (S k))))
    with (insert_sorted (Z.of_nat a) (sorted (map Z.of_nat (seq (S a) k)))).
  rewrite IH. change (seq a (S k)) with (a :: seq (S a) k).
  destruct k as [|k]; [reflexivity|].
  change (seq (S a) (S k)) with (S a :: seq (S (S a)) k).
  cbn [map insert_sorted].
  destruct (Z.leb_spec (Z.of_nat a) (Z.of_nat (S a))); [reflexivity | lia].
Qed.

Lemma sorted_ids (k : nat) : sorted (ids k) = ids k.
Proof. apply sorted_increasing. Qed.

(** Every part of a frame has the padding width. *)
Lemma render_part_spec (m : Z) (b : list byte) :
  0 <= m ->
  len (render_part (Some m) b) = m /\
  (len b = m -> render_part (Some m) b = b) /\
  (len b < m -> render_part (Some m) b = b ++ zeros (m - len b)) /\
  (m < len b -> render_part (Some m) b = firstn (Z.to_nat m) b).
Proof.
  intros Hm. unfold render_part. pose proof (len_nonneg b) as Hb.
  destruct (Z.ltb_spec (len b) m) as [Hlt|Hge].
  - split; [rewrite len_app, len_zeros; lia|]. split; [lia|]. split; [reflexivity | lia].
  - rewrite slice_prefix by lia.
    split; [unfold len in *; rewrite length_firstn; lia|].
    split; [|split; [lia | reflexivity]].
    intros E. apply firstn_all2. unfold len in *. lia.
Qed.

Lemma report_progress_ok env t0 fw s :
  (fw mod 40 = 0 -> clock env (ticks s) <> t0) ->
  report_progress env t0 fw s
  = Ok (if fw mod 40 =? 0 then with_ticks (S (ticks s)) s else s).
Proof.
  intros H. unfold report_progress. destruct (Z.eqb_spec (fw mod 40) 0) as [E|E]; [|reflexivity].
  simpl. unfold fps_check. destruct (Z.eqb_spec (clock env (ticks s) - t0) 0) as [Z0|_]; [|reflexivity].
  specialize (H E). lia.
Qed.

Lemma check_duration_ok env t0 s :
  (forall secs, seconds_to_capture (args env) = Some secs -> check_positive_int secs = Ok secs) ->
  exists t,
    check_duration env t0 s
    = Ok (if limit_reached env t0 (ticks s)
          then with_exited (Some DurationLimit) (with_ticks t s)
          else with_exited (exited s) (with_ticks t s)).
Proof.
  intros Hpos. unfold check_duration, limit_reached.
  destruct (seconds_to_capture (args env)) as [secs|].
  - specialize (Hpos secs eq_refl). unfold check_positive_int in Hpos.
    destruct (Z.leb_spec secs 0); [discriminate|].
    destruct (Z.eqb_spec secs 0); [lia|]. simpl.
    exists (S (ticks s)).
    destruct (Z.leb_spec (secs * 1000000) (clock env (ticks s) - t0)).
    + unfold fps_check. destruct (Z.eqb_spec (clock env (ticks s) - t0) 0); [lia|]. reflexivity.
    + destruct s; reflexivity.
  - exists (ticks s). now rewrite with_ticks_exited_id.
Qed.

Lemma frame_parts_accept h payload st it m :
  Inv st -> collecting st = true -> first_fit h st = Some it -> max_bytes st = Some m ->
  frame_parts (accept it h payload st)
  = map (fun n => render_part (Some m) (buffer_of (buffers (accept it h payload st)) n))
        (ids (length (strings_ranges st))).
Proof.
  intros HI Hc Hfit Hm. unfold frame_parts.
  assert (Hk : keys (buffers (accept it h payload st)) = ids (length (strings_ranges st))).
  { destruct (first_fit_some _ _ _ Hfit) as (Hin & _). destruct it as [k r].
    apply in_keys in Hin. simpl. rewrite keys_set_present.
    - rewrite (inv_keys_buffers _ HI Hc). apply (inv_ids _ HI).
    - now rewrite (inv_keys_buffers _ HI Hc). }
  rewrite Hk, sorted_ids. simpl max_bytes. now rewrite Hm.
Qed.

Lemma length_le_bytes (n : nat) : forall x, length (le_bytes n x) = n.
Proof. induction n as [|n IH]; intros x; simpl; [reflexivity | now rewrite IH]. Qed.

(** C4.  The claim: whenever an accepted write leaves every buffer filled
    to its length, one frame record is emitted and the buffers and counts
    are reset.  The code breaks it in two ways.  The frame time is the
    difference of two readings of the wall clock, written with
    [to_bytes(4)]: when the clock has been set back between the first
    packet with a non-zero byte and the completion of a frame, the time is
    negative and [main] dies with [OverflowError] at line 215, no record
    being written although every buffer is full.  And the progress report
    of every fortieth frame divides by the time elapsed since the start:
    with a clock that has not moved, 39 frames are recorded and the
    fortieth raises [ZeroDivisionError] at line 228, after its record is
    written and before the reset. *)
Theorem frame_completion_raises :
  (before_write backward_env limit_header (ones 3) initial_state = Ok (backward_handed, true) /\
   first_fit limit_header backward_handed = Some (1, (0, 3)) /\
   let st1 := accept (1, (0, 3)) limit_header (ones 3) backward_handed in
   all_full (buffers st1) (filled_count st1) = true /\
   start_time st1 = Some 10000000 /\ clock backward_env (ticks st1) = 9000000 /\
   complete_frame backward_env st1 = Raise OverflowError /\
   main backward_env [Datagram limit_packet] = Raise OverflowError) /\
  ((exists st, main still_env (frames 39) = Ok st /\
               frames_written st = Some 39 /\ exited st = None) /\
   main still_env (frames 40) = Raise ZeroDivisionError).
Proof.
  split.
  - repeat split; vm_compute; reflexivity.
  - split; [|vm_compute; reflexivity].
    eexists. split; [vm_compute; reflexivity|]. split; reflexivity.
Qed.

(** ** Acceptance of a packet *)

Lemma fits_iff off length it :
  fits off length it = true <-> fst (snd it) <= off /\ off + length <= snd (snd it).
Proof. unfold fits. rewrite andb_true_iff, !Z.leb_le. tauto. Qed.

Lemma find_first {A : Type} (f : A -> bool) (l : list A) (x : A) :
  find f l = Some x ->
  exists before after, l = before ++ x :: after /\ f x = true /\
                       forall y, In y before -> f y = false.
Proof.
  induction l as [|a r IH]; simpl; [discriminate|].
  destruct (f a) eqn:Ea.
  - intros H; inversion H; subst. exists [], r. repeat split; trivial. intros y [].
  - intros H. destruct (IH H) as (b & c & -> & Hx & Hb).
    exists (a :: b), c. repeat split; trivial.
    intros y [<-|Hy]; auto.
Qed.

Lemma slice_assign_outside {A : Type} (b v : list A) (lo : Z) :
  0 <= lo -> lo + len v <= len b ->
  firstn (Z.to_nat lo) (slice_assign b lo (lo + len v) v) = firstn (Z.to_nat lo) b /\
  skipn (Z.to_nat (lo + len v)) (slice_assign b lo (lo + len v) v)
  = skipn (Z.to_nat (lo + len v)) b.
Proof.
  intros Hlo Hhi. pose proof (len_nonneg v) as Hv.
  unfold slice_assign. rewrite !clamp_inside by lia. rewrite Z.max_r by lia.
  assert (Hl : length (firstn (Z.to_nat lo) b) = Z.to_nat lo).
  { rewrite length_firstn. unfold len in *. lia. }
  split.
  - rewrite firstn_app, Hl, Nat.sub_diag. simpl. rewrite app_nil_r.
    rewrite firstn_all2; [reflexivity | lia].
  - rewrite skipn_app, Hl.
    rewrite (skipn_all2 (firstn _ b)) by lia. simpl.
    replace (Z.to_nat (lo + len v) - Z.to_nat lo)%nat with (length v) by (unfold len in *; lia).
    rewrite skipn_app, skipn_all, Nat.sub_diag. reflexivity.
Qed.

(** C5.  A decoded packet reaches the buffer write in the state [st4] that
    the learner, the end of the discovery and the leading-empty skip of the
    same iteration leave, whenever that state collects and the packet is not
    skipped; this covers the packet that ends the discovery and the first
    packet with a non-zero byte, and [st4] is the state before the packet
    with its packet counter moved when the session already captures; in a
    session that already collects, ranges, buffers and counts reach the
    write as the packet found them.  The
    packet then goes to the first range, in assignment order, with
    start <= offset and offset + length <= end.  The payload is copied into
    that range's buffer at the offset relative to the start of the range,
    the bytes around it and the other buffers stay, and the count of that
    buffer grows by the length of the packet, before the completion test
    runs.  A packet that no range holds entirely leaves every buffer and
    every count as it was. *)
Theorem packet_acceptance env evs st data h payload st4 :
  main env evs = Ok st -> exited st = None ->
  decode data = inr (h, payload) ->
  before_write env h payload st = Ok (st4, true) ->
  (collecting st = true -> is_beginning st = false -> st4 = counted st) /\
  (collecting st = true ->
   strings_ranges st4 = strings_ranges st /\ buffers st4 = buffers st /\
   filled_count st4 = filled_count st) /\
  collecting st4 = true /\
  keys (strings_ranges st4) = ids (length (strings_ranges st4)) /\
  match first_fit h st4 with
  | None =>
      (forall it, In it (strings_ranges st4) ->
                  ~ (fst (snd it) <= offset h /\ offset h + pkt_length h <= snd (snd it))) /\
      step env (Datagram data) st = Ok st4
  | Some it =>
      let n := fst it in
      let rel_off := offset h - fst (snd it) in
      let st1 := accept it h payload st4 in
      (exists before after,
          strings_ranges st4 = before ++ it :: after /\
          forall it', In it' before ->
                      ~ (fst (snd it') <= offset h /\ offset h + pkt_length h <= snd (snd it'))) /\
      (fst (snd it) <= offset h /\ offset h + pkt_length h <= snd (snd it)) /\
      write_payload (strings_ranges st4) (offset h) (pkt_length h) payload
                    (buffers st4) (filled_count st4)
      = Ok (Some (buffers st1, filled_count st1)) /\
      slice (buffer_of (buffers st1) n) rel_off (rel_off + pkt_length h) = payload /\
      firstn (Z.to_nat rel_off) (buffer_of (buffers st1) n)
      = firstn (Z.to_nat rel_off) (buffer_of (buffers st4) n) /\
      skipn (Z.to_nat (rel_off + pkt_length h)) (buffer_of (buffers st1) n)
      = skipn (Z.to_nat (rel_off + pkt_length h)) (buffer_of (buffers st4) n) /\
      get_count (filled_count st1) n = get_count (filled_count st4) n + pkt_length h /\
      (forall k, k <> n ->
                 buffer_of (buffers st1) k = buffer_of (buffers st4) k /\
                 get_count (filled_count st1) k = get_count (filled_count st4) k) /\
      step env (Datagram data) st
      = if all_full (buffers st1) (filled_count st1) then complete_frame env st1 else Ok st1
  end.
Proof.
  intros Hm Hx Hd Hw. pose proof (Inv_main _ _ _ Hm) as HI0.
  destruct (before_write_handed _ _ _ _ _ HI0 Hw) as (HI & Hc & Hb & _).
  split.
  { intros Hc0 Hb0. rewrite (before_write_capturing env h payload st Hc0 Hb0) in Hw.
    now inversion Hw. }
  split; [intros Hc0; apply (before_write_collecting _ _ _ _ _ _ Hc0 Hw)|].
  split; [exact Hc|].
  split; [apply (inv_ids _ HI)|].
  pose proof (decode_len _ _ _ Hd) as Hp.
  rewrite (step_handed _ _ _ _ _ _ Hx Hd Hw), (assemble_eq env h payload st4 HI Hc).
  destruct (first_fit h st4) as [it|] eqn:Hfit.
  - cbv zeta. unfold first_fit in Hfit. pose proof Hfit as Hfirst.
    apply find_first in Hfirst. destruct Hfirst as (before & after & Hr & Hf & Hbefore).
    apply fits_iff in Hf. destruct it as [n [s e]]. simpl in Hf.
    assert (Hin : In (n, (s, e)) (strings_ranges st4)).
    { rewrite Hr. apply in_or_app. right. now left. }
    pose proof (inv_len _ HI Hc _ _ _ Hin) as Hlen.
    split.
    { exists before, after. split; [exact Hr|]. intros it' Hit' Hfits.
      apply fits_iff in Hfits. rewrite (Hbefore _ Hit') in Hfits. discriminate. }
    split; [exact Hf|].
    split.
    { rewrite write_payload_eq.
      - rewrite Hfit. reflexivity.
      - intros [k r] Hk. simpl.
        rewrite (inv_keys_buffers _ HI Hc), (inv_keys_filled _ HI Hc).
        split; eapply in_keys; eassumption. }
    simpl fst. simpl snd. simpl buffers. simpl filled_count.
    rewrite buffer_of_set_same, get_count_set_same. rewrite <- Hp.
    destruct (slice_assign_outside (buffer_of (buffers st4) n) payload (offset h - s)) as [H1 H2];
      [lia | lia |].
    split; [apply slice_slice_assign; lia|].
    split; [exact H1|]. split; [exact H2|]. split; [reflexivity|].
    split; [|reflexivity].
    intros k Hk. rewrite buffer_of_set_other, get_count_set_other by congruence. auto.
  - split; [|reflexivity]. intros it Hit Hfits. apply fits_iff in Hfits.
    unfold first_fit in Hfit. rewrite (find_none _ _ Hfit _ Hit) in Hfits. discriminate.
Qed.

(** Scenario B.  The second push packet ends the discovery and is itself
    written: its thirty bytes become the buffer of string 2, whose count is
    then 30, while string 1 waits.  With the ranges (0, 15) and (15, 45)
    learned, ten bytes at offset 10 fit no range and the packet is
    dropped. *)
Lemma packet_acceptance_witness :
  (collecting scenario_b_first = false /\
   first_fit scenario_b_second_header scenario_b_handed = Some (2, (15, 45)) /\
   let st1 := accept (2, (15, 45)) scenario_b_second_header (ones 30) scenario_b_handed in
   slice (buffer_of (buffers st1) 2) 0 30 = ones 30 /\
   get_count (filled_count st1) 2 = 30 /\
   get_count (filled_count st1) 1 = 0 /\
   step (example_env 2 None) (Datagram scenario_b_second) scenario_b_first = Ok st1) /\
  (strings_ranges scenario_b_state = [(1, (0, 15)); (2, (15, 45))] /\
   offset spanning_header = 10 /\ pkt_length spanning_header = 10 /\
   step (example_env 2 None) (Datagram spanning_packet) scenario_b_state
   = Ok (counted scenario_b_state)).
Proof.
  split.
  - assert (Hm : main (example_env 2 None) [Datagram (ddp_packet PUSH 0 15 (ones 15))]
                 = Ok scenario_b_first) by (vm_compute; reflexivity).
    assert (Hd : decode scenario_b_second = inr (scenario_b_second_header, ones 30))
      by (vm_compute; reflexivity).
    assert (Hw : before_write (example_env 2 None) scenario_b_second_header (ones 30)
                              scenario_b_first = Ok (scenario_b_handed, true))
      by (vm_compute; reflexivity).
    pose proof (packet_acceptance _ _ _ _ _ _ _ Hm eq_refl Hd Hw) as (_ & _ & _ & _ & H).
    change (first_fit scenario_b_second_header scenario_b_handed)
      with (Some (2, (15, 45))) in H.
    cbv zeta in H. destruct H as (_ & _ & _ & Hs & _ & _ & Hcnt & Hother & Hstep).
    split; [reflexivity|]. split; [reflexivity|]. cbv zeta.
    split; [exact Hs|]. split; [exact Hcnt|].
    split; [apply (proj2 (Hother 1 ltac:(discriminate)))|]. exact Hstep.
  - assert (Hm : main (example_env 2 None) scenario_b = Ok scenario_b_state)
      by (vm_compute; reflexivity).
    assert (Hd : decode spanning_packet = inr (spanning_header, ones 10))
      by (vm_compute; reflexivity).
    assert (Hw : before_write (example_env 2 None) spanning_header (ones 10) scenario_b_state
                 = Ok (counted scenario_b_state, true))
      by (vm_compute; reflexivity).
    pose proof (packet_acceptance _ _ _ _ _ _ _ Hm eq_refl Hd Hw) as (_ & _ & _ & _ & H).
    change (first_fit spanning_header (counted scenario_b_state))
      with (@None (Z * (Z * Z))) in H.
    split; [reflexivity|]. split; [reflexivity|]. split; [reflexivity|]. apply H.
Defined.

Lemma same_session_refl st : same_session st st.
Proof. unfold same_session. repeat split. Qed.

(** The decoder in the words of the spec. *)
Lemma decode_spec (data : list byte) :
  match decode data with
  | inl TooShort => len data < 10
  | inl TruncatedTimecode => 10 <= len data < 14 /\ spec_has_timecode data = true
  | inl PayloadLengthMismatch =>
      10 <= len data /\ (spec_has_timecode data = true -> 14 <= len data) /\
      len data - spec_payload_start data < spec_length data
  | inr (h, payload) =>
      10 <= len data /\ (spec_has_timecode data = true -> 14 <= len data) /\
      spec_length data <= len data - spec_payload_start data /\
      offset h = spec_offset data /\ pkt_length h = spec_length data /\
      len payload = spec_length data /\
      payload = firstn (Z.to_nat (spec_length data))
                       (skipn (Z.to_nat (spec_payload_start data)) data)
  end.
Proof.
  unfold decode. pose proof (parse_header_spec data) as Hh.
  destruct (parse_header data) as [e|h]; [destruct e; tauto|].
  destruct Hh as (H10 & H14 & Ho & Hl & Hp & _).
  pose proof (spec_length_range data) as Hr.
  assert (Hpos : 0 <= pos h <= len data).
  { rewrite Hp. unfold spec_payload_start in *. destruct (spec_has_timecode data); [|lia].
    specialize (H14 eq_refl). lia. }
  pose proof (slice_payload_spec data h Hpos) as Hs. rewrite Hl in Hs. specialize (Hs (proj1 Hr)).
  destruct (slice_payload data h) as [e|payload].
  - destruct Hs as [-> Hs]. rewrite Hp in Hs. auto.
  - destruct Hs as (H1 & H2 & H3). rewrite Hp in H1, H3. rewrite Hl. auto 10.
Qed.

(** The diagnostic packet counter is no part of the session the discards
    are to leave alone: a datagram that announces 20 bytes of payload and
    carries 15 is discarded for its payload length, after the counter has
    moved from 0 to 1. *)
Lemma mismatch_moves_packet_counter :
  decode short_payload_packet = inl PayloadLengthMismatch /\
  step (example_env 1 None) (Datagram short_payload_packet) initial_state
  = Ok (counted initial_state) /\
  packets_seen initial_state = 0 /\
  packets_seen (counted initial_state) = 1 /\
  counted initial_state <> initial_state.
Proof.
  split; [vm_compute; reflexivity|]. split; [vm_compute; reflexivity|].
  split; [reflexivity|]. split; [reflexivity|].
  intros H. apply (f_equal packets_seen) in H. discriminate.
Qed.

(** C6.  The three checks run in sequence.  Decoding fails with [TooShort]
    exactly below 10 bytes, with [TruncatedTimecode] exactly when bit 4 of
    byte 0 is set and the datagram, having passed the first check, has
    fewer than 14 bytes, and with [PayloadLengthMismatch] exactly when the
    header is whole and fewer bytes than the announced length follow the
    payload start (byte 14 with a timecode, byte 10 without); otherwise it
    yields the offset of bytes 4-7, the length of bytes 8-9, both
    big-endian, and the payload of exactly that length.  A datagram that
    fails to decode is discarded and leaves the session as it was: ranges,
    cursor, buffers, counts, times, frame count, phase flags and file
    ([same_session]).  The whole state is unchanged for [TooShort] and
    [TruncatedTimecode]; for [PayloadLengthMismatch] the diagnostic packet
    counter alone has grown by one. *)
Theorem decode_outcomes env st data :
  (decode data = inl TooShort <-> len data < 10) /\
  (decode data = inl TruncatedTimecode <->
   10 <= len data < 14 /\ spec_has_timecode data = true) /\
  (decode data = inl PayloadLengthMismatch <->
   10 <= len data /\ (spec_has_timecode data = true -> 14 <= len data) /\
   len data - spec_payload_start data < spec_length data) /\
  ((exists h payload, decode data = inr (h, payload)) <->
   10 <= len data /\ (spec_has_timecode data = true -> 14 <= len data) /\
   spec_length data <= len data - spec_payload_start data) /\
  (forall h payload,
      decode data = inr (h, payload) ->
      offset h = spec_offset data /\ pkt_length h = spec_length data /\
      len payload = spec_length data /\
      payload = firstn (Z.to_nat (spec_length data))
                       (skipn (Z.to_nat (spec_payload_start data)) data)) /\
  (forall e,
      decode data = inl e ->
      exists st',
        on_datagram env data st = Ok st' /\
        (exited st = None -> step env (Datagram data) st = Ok st') /\
        same_session st st' /\
        (e <> PayloadLengthMismatch -> st' = st) /\
        (e = PayloadLengthMismatch -> st' = counted st)).
Proof.
  pose proof (decode_spec data) as H.
  pose proof (spec_length_range data) as Hr.
  split; [|split; [|split; [|split; [|split]]]].
  - split.
    + intros E. now rewrite E in H.
    + intros Hs. destruct (decode data) as [[]|[h p]]; trivial; lia.
  - split.
    + intros E. now rewrite E in H.
    + intros [H1 H2]. destruct (decode data) as [[]|[h p]]; trivial; try lia.
      * destruct H as (_ & H14 & _). specialize (H14 H2). lia.
      * destruct H as (_ & H14 & _). specialize (H14 H2). lia.
  - split.
    + intros E. now rewrite E in H.
    + intros (H10 & H14 & Hs). destruct (decode data) as [[]|[h p]]; trivial; try lia.
      destruct H as [H1 H2]. specialize (H14 H2). lia.
  - split.
    + intros (h & p & E). rewrite E in H. tauto.
    + intros (H10 & H14 & Hs). destruct (decode data) as [[]|[h p]]; try lia; eauto.
      destruct H as [H1 H2]. specialize (H14 H2). lia.
  - intros h p E. rewrite E in H. tauto.
  - intros e E. exists (match e with PayloadLengthMismatch => counted st | _ => st end).
    split; [now apply on_datagram_undecoded|].
    split; [intros Hx; unfold step; rewrite Hx; now apply on_datagram_undecoded|].
    split; [destruct e; try apply same_session_refl; unfold same_session; simpl; tauto|].
    split; [destruct e; congruence | intros ->; reflexivity].
Qed.

(** Scenario E: a datagram that announces 20 bytes and carries 15 is
    discarded, and the session of the spec is as before. *)
Lemma decode_outcomes_witness :
  decode short_payload_packet = inl PayloadLengthMismatch /\
  spec_length short_payload_packet = 20 /\
  len short_payload_packet - spec_payload_start short_payload_packet = 15 /\
  exists st',
    on_datagram (example_env 1 None) short_payload_packet initial_state = Ok st' /\
    same_session initial_state st'.
Proof.
  assert (Hd : decode short_payload_packet = inl PayloadLengthMismatch)
    by (vm_compute; reflexivity).
  split; [exact Hd|]. split; [reflexivity|]. split; [reflexivity|].
  destruct (decode_outcomes (example_env 1 None) initial_state short_payload_packet)
    as (_ & _ & _ & _ & _ & H).
  destruct (H _ Hd) as (st' & H1 & _ & H3 & _). exists st'. split; assumption.
Defined.

(** ** How [main] returns *)






Lemma skip_keeps env payload st st' b :
  skip_leading_empty env payload st = (st', b) ->
  out_file st' = out_file st /\ exited st' = exited st /\ max_bytes st' = max_bytes st /\
  strings_ranges st' = strings_ranges st.
Proof.
  unfold skip_leading_empty. destruct (is_beginning st); simpl.
  - destruct (is_empty_bytearray payload); simpl; intros H; inversion H; subst; simpl; auto.
  - intros H; inversion H; subst. auto.
Qed.

Lemma range_lengths_in (rs : dict (Z * Z)) (x : Z) :
  In x (range_lengths rs) <-> exists n s e, In (n, (s, e)) rs /\ x = e - s.
Proof.
  unfold range_lengths, values. rewrite map_map, in_map_iff. split.
  - intros ([n [s e]] & <- & Hin). exists n, s, e. auto.
  - intros (n & s & e & Hin & ->). exists (n, (s, e)). auto.
Qed.

(** C8, as stated, fails: one push packet at offset 196608 gives the single
    range (0, 196608), the target of one string is reached, and the
    finalisation raises [OverflowError] on the two-byte header instead of
    emitting it. *)
Lemma oversized_range_not_finalized :
  decode (ddp_packet PUSH 196608 0 []) = inr (oversized_header, []) /\
  strings_ranges (learn_range oversized_header (counted initial_state)) = [(1, (0, 196608))] /\
  finalize (example_env 1 None) (learn_range oversized_header (counted initial_state))
  = Raise OverflowError /\
  step (example_env 1 None) (Datagram (ddp_packet PUSH 196608 0 [])) initial_state
  = Raise OverflowError.
Proof. repeat split; vm_compute; reflexivity. Qed.

(** C8, amended.  When a decoded packet brings the number of learned ranges
    to the target, no range has a negative length, and the longest range has
    fewer than 65536 pixels, the discovery is finalised in that iteration:
    the padding width is (mx div 3) * 3 for the greatest range length mx, the
    file is created with the two little-endian bytes of mx div 3, and every
    range gets a buffer of zero bytes of its own length with a count of 0;
    the same packet then goes on to the leading-empty skip and the
    assembler.  From then on the session collects, neither the learner nor
    the finalisation does anything, and the file keeps the header as its
    first two bytes. *)
Theorem discovery_finalizes env evs st data h payload :
  main env evs = Ok st -> exited st = None -> collecting st = false ->
  decode data = inr (h, payload) ->
  0 < number_of_strings (args env) <= len (strings_ranges (learn_range h (counted st))) ->
  forallb nonneg_range (strings_ranges (learn_range h (counted st))) = true ->
  (forall x, In x (range_lengths (strings_ranges (learn_range h (counted st)))) ->
             x / 3 < 65536) ->
  exists mx,
    let st2 := learn_range h (counted st) in
    let fin := finalized mx st2 in
    In mx (range_lengths (strings_ranges st2)) /\
    (forall x, In x (range_lengths (strings_ranges st2)) -> x <= mx) /\
    finalize env st2 = Ok fin /\
    collecting fin = true /\
    max_bytes fin = Some (mx / 3 * 3) /\
    out_file st2 = None /\
    to_bytes_little (mx / 3) 2 = Ok (le_bytes 2 (mx / 3)) /\
    out_file fin = Some (le_bytes 2 (mx / 3)) /\
    keys (buffers fin) = keys (strings_ranges st2) /\
    (forall n s e, In (n, (s, e)) (strings_ranges st2) ->
                   buffer_of (buffers fin) n = zeros (e - s) /\
                   len (buffer_of (buffers fin) n) = e - s /\
                   get_count (filled_count fin) n = 0) /\
    step env (Datagram data) st
    = (let (st4, skipped) := skip_leading_empty env payload fin in
       if skipped then Ok st4
       else assemble env h payload st4) /\
    (forall st1 evs' st',
        step env (Datagram data) st = Ok st1 -> run env evs' st1 = Ok st' ->
        collecting st' = true /\ max_bytes st' = Some (mx / 3 * 3) /\
        (forall h', finalize env (learn_range h' st') = Ok st') /\
        exists rest, out_file st' = Some (le_bytes 2 (mx / 3) ++ rest)).
Proof.
  intros Hm Hx Hc Hd HS Hnn Hfit.
  pose proof (Inv_main _ _ _ Hm) as HI.
  set (st2 := learn_range h (counted st)) in *.
  assert (HI2 : Inv st2) by apply Inv_learn_range, Inv_counted, HI.
  assert (Hc2 : collecting st2 = false).
  { unfold st2. rewrite learn_range_collecting. exact Hc. }
  destruct (max_of_ok (range_lengths (strings_ranges st2))) as [mx Hmx].
  { unfold range_lengths, values. destruct (strings_ranges st2); [unfold len in HS; simpl in HS; lia|].
    discriminate. }
  destruct (max_of_spec _ _ Hmx) as [Hin Hmax].
  assert (Hpix : 0 <= mx / 3 < 65536).
  { split; [|now apply Hfit]. apply range_lengths_in in Hin.
    destruct Hin as (n & s & e & Hn & ->). rewrite forallb_forall in Hnn.
    specialize (Hnn _ Hn). unfold nonneg_range in Hnn. simpl in Hnn. apply Z.leb_le in Hnn.
    apply Z.div_pos; lia. }
  assert (Hfin : finalize env st2 = Ok (finalized mx st2)).
  { rewrite finalize_eq by (trivial; lia). rewrite Hmx. simpl.
    unfold CHANNELS_PER_PIXEL. rewrite to_bytes_little_ok by (simpl; lia). simpl.
    now rewrite Hnn. }
  assert (HIf : Inv (finalized mx st2)).
  { apply Inv_finalized; trivial. unfold CHANNELS_PER_PIXEL. lia. }
  assert (Hstep : step env (Datagram data) st
                  = (let (st4, skipped) := skip_leading_empty env payload (finalized mx st2) in
                     if skipped then Ok st4 else assemble env h payload st4)).
  { pose proof Hd as Hd'. apply decode_inr in Hd'. destruct Hd' as [Hh Hp].
    unfold step. rewrite Hx. unfold on_datagram. rewrite Hh, Hp.
    fold (counted st). fold st2. rewrite Hfin. simpl.
    destruct (skip_leading_empty env payload (finalized mx st2)) as [st4 skipped] eqn:E4.
    destruct skipped; [reflexivity|].
    destruct (Inv_skip _ _ _ _ _ HIf E4) as (_ & _ & Hc4). rewrite Hc4. reflexivity. }
  exists mx. cbv zeta. fold st2.
  split; [exact Hin|]. split; [exact Hmax|]. split; [exact Hfin|].
  split; [reflexivity|]. split; [reflexivity|].
  split; [apply (inv_discovering _ HI2 Hc2)|].
  split; [apply to_bytes_little_ok; simpl; lia|].
  split; [reflexivity|].
  split; [apply (inv_keys_buffers _ HIf eq_refl)|].
  split.
  { intros n s e Hn. pose proof (Inv_nodup _ HI2) as Hnd.
    assert (Hb : buffer_of (buffers (finalized mx st2)) n = zeros (e - s)).
    { simpl. rewrite buffer_of_fresh, (in_get _ _ _ Hnd Hn). reflexivity. }
    split; [exact Hb|]. split; [apply (inv_len _ HIf eq_refl _ _ _ Hn)|].
    simpl. apply get_count_fresh. }
  split; [exact Hstep|].
  intros st1 evs' st' H1 Hr. rewrite Hstep in H1.
  assert (Hone : collecting st1 = true /\ max_bytes st1 = Some (mx / 3 * 3) /\ Inv st1 /\
                 exists rest, out_file st1 = Some (le_bytes 2 (mx / 3) ++ rest)).
  { destruct (skip_leading_empty env payload (finalized mx st2)) as [st4 skipped] eqn:E4.
    destruct (Inv_skip _ _ _ _ _ HIf E4) as (HI4 & Hb4 & Hc4).
    destruct (skip_keeps _ _ _ _ _ E4) as (Ho4 & Hx4 & Hm4 & _).
    assert (Hx2 : exited st2 = None) by (unfold st2; rewrite learn_range_exited; exact Hx).
    destruct skipped.
    - inversion H1; subst st1. split; [exact Hc4|]. split; [exact Hm4|]. split; [exact HI4|].
      exists []. rewrite Ho4. reflexivity.
    - destruct (assemble_file env h payload st4 st1 (le_bytes 2 (mx / 3))) as (Ha & Hb & _ & Hrest);
        trivial.
      + rewrite Hx4. exact Hx2.
      + split; [exact Ha|]. split; [now rewrite Hb, Hm4|]. split; [|exact Hrest].
        apply (Inv_assemble env h payload st4 st1); trivial.
        * now apply Hb4.
        * now apply decode_len in Hd. }
  destruct Hone as (Hc1 & Hm1 & HI1 & rest1 & Ho1).
  destruct (run_after_discovery env evs' st1 st' _ HI1 Hc1 Ho1 Hr) as (Hc' & Hm' & _ & rest & Ho').
  split; [exact Hc'|]. split; [congruence|]. split.
  - intros h'. rewrite learn_range_idle by (left; exact Hc').
    apply finalize_idle. left; exact Hc'.
  - exists (rest1 ++ rest). rewrite Ho'. now rewrite app_assoc.
Qed.

(** Scenario A: a single string of range (0, 30) has 10 pixels, and the
    header is 0a 00. *)
Lemma discovery_finalizes_witness :
  main (example_env 1 None) [] = Ok initial_state /\
  decode scenario_a_packet = inr (scenario_a_header, ones 30) /\
  strings_ranges (learn_range scenario_a_header (counted initial_state)) = [(1, (0, 30))] /\
  exists mx,
    mx / 3 = 10 /\
    finalize (example_env 1 None) (learn_range scenario_a_header (counted initial_state))
    = Ok (finalized mx (learn_range scenario_a_header (counted initial_state))) /\
    out_file (finalized mx (learn_range scenario_a_header (counted initial_state)))
    = Some [x0a; x00].
Proof.
  assert (Hm : main (example_env 1 None) [] = Ok initial_state) by reflexivity.
  assert (Hd : decode scenario_a_packet = inr (scenario_a_header, ones 30))
    by (vm_compute; reflexivity).
  split; [exact Hm|]. split; [exact Hd|]. split; [reflexivity|].
  destruct (discovery_finalizes (example_env 1 None) [] initial_state scenario_a_packet
              scenario_a_header (ones 30) Hm eq_refl eq_refl Hd)
    as (mx & Hin & _ & Hfin & _ & _ & _ & _ & Hout & _).
  - split; [reflexivity | discriminate].
  - reflexivity.
  - intros x [<-|[]]. reflexivity.
  - exists mx. destruct Hin as [<-|[]]. split; [reflexivity|]. split; [exact Hfin | exact Hout].
Defined.

(** ** The leading-empty skip *)

Lemma length_filter_le {A : Type} (f : A -> bool) (l : list A) :
  (length (filter f l) <= length l)%nat.
Proof.
  induction l as [|a r IH]; simpl; [lia|]. destruct (f a); simpl; lia.
Qed.

(** [is_empty_bytearray] holds of the payloads whose bytes are all zero. *)
Lemma is_empty_bytearray_iff (payload : list byte) :
  is_empty_bytearray payload = true <-> forall b, In b payload -> b = x00.
Proof.
  unfold is_empty_bytearray, count_zero, len. rewrite Z.eqb_eq, Nat2Z.inj_iff.
  induction payload as [|a r IH]; simpl.
  - split; [intros _ b [] | reflexivity].
  - pose proof (length_filter_le (fun b => Byte.eqb b x00) r) as Hle.
    destruct (Byte.eqb a x00) eqn:Ea; simpl.
    + apply Byte.byte_dec_bl in Ea. subst a. split.
      * intros H b [<-|Hb]; [reflexivity|]. apply IH; [lia | exact Hb].
      * intros H. f_equal. apply IH. intros b Hb. apply H. now right.
    + split; [lia|]. intros H. specialize (H a (or_introl eq_refl)). subst a. discriminate.
Qed.

(** C9.  The claim: after the discovery, packets whose payload is all zero
    are discarded until the first packet with a non-zero byte, which is the
    first one handed to the assembler.  The code breaks it: the skip tests
    the flag [is_beginning] only, and a packet with a non-zero byte that
    arrives during the discovery clears the flag before any range is
    learned.  In [dark_session] such a packet comes first; the all-zero push
    packet that ends the discovery is then written to its buffer and
    completes a frame, so that the first record of the file is all zero,
    and the all-zero packet after it is recorded as the second frame.  No
    packet is counted as skipped, against the message of line 165 and the
    comments of lines 169 and 174. *)
Theorem zero_payload_recorded_after_discovery :
  main (example_env 1 None) dark_session = Ok dark_state /\
  collecting dark_state = true /\ is_beginning dark_state = false /\
  empty_frames dark_state = 0 /\ frames_written dark_state = Some 1 /\
  out_file dark_state = Some (le_bytes 2 2 ++ le_bytes 4 2000 ++ zeros 6) /\
  start_time dark_state = Some (clock (example_env 1 None) 0) /\
  decode dark_packet = inr (dark_header, zeros 6) /\
  is_empty_bytearray (zeros 6) = true /\
  step (example_env 1 None) (Datagram dark_packet) dark_state = Ok dark_last /\
  empty_frames dark_last = 0 /\ frames_written dark_last = Some 2 /\
  out_file dark_last
  = Some (le_bytes 2 2 ++ (le_bytes 4 2000 ++ zeros 6) ++ le_bytes 4 4000 ++ zeros 6).
Proof. repeat split; vm_compute; reflexivity. Qed.

(** ** A buffer that has counted too much *)

Lemma overfull_capturing st :
  Inv st -> overfull st -> collecting st = true /\ is_beginning st = false.
Proof.
  intros HI (n & Hin & Hlt). split.
  - destruct (collecting st) eqn:Hc; [reflexivity|].
    destruct (inv_discovering _ HI Hc) as (E & _). rewrite E in Hin. destruct Hin.
  - destruct (is_beginning st) eqn:Hb; [|reflexivity].
    destruct (inv_fresh _ HI Hb) as (_ & _ & Hz & _). rewrite Hz in Hlt.
    pose proof (len_nonneg (buffer_of (buffers st) n)). lia.
Qed.

Lemma overfull_not_full st :
  overfull st -> all_full (buffers st) (filled_count st) = false.
Proof.
  intros (n & Hin & Hlt). destruct (all_full _ _) eqn:E; [|reflexivity].
  rewrite all_full_iff in E. specialize (E n Hin). lia.
Qed.

Lemma overfull_accept h payload st it :
  Inv st -> collecting st = true -> first_fit h st = Some it ->
  len payload = pkt_length h ->
  overfull st -> overfull (accept it h payload st).
Proof.
  intros HI Hc Hfit Hp (n & Hin & Hlt). exists n.
  destruct (first_fit_some _ _ _ Hfit) as (Hit & _). destruct it as [k r].
  apply in_keys in Hit. rewrite <- (inv_keys_buffers _ HI Hc) in Hit.
  split.
  - simpl. now rewrite keys_set_present.
  - rewrite (accept_len h payload st (k, r) n HI Hc Hfit Hp), accept_count.
    pose proof (len_nonneg payload).
    destruct (Z.eq_dec (fst (k, r)) n); lia.
Qed.

(** One iteration from an overfull state: no record, no reset. *)
Lemma overfull_step env ev st st' :
  Inv st -> overfull st -> step env ev st = Ok st' ->
  overfull st' /\ out_file st' = out_file st /\ frames_written st' = frames_written st.
Proof.
  intros HI Ho Hs. destruct (overfull_capturing _ HI Ho) as [Hc Hb].
  unfold step in Hs. destruct (exited st) eqn:Hx; [inversion Hs; subst; auto|].
  destruct ev as [data| |].
  - destruct (decode data) as [e|[h payload]] eqn:Hd.
    + rewrite (on_datagram_undecoded _ _ _ _ Hd) in Hs. inversion Hs. destruct e; auto.
    + rewrite (on_datagram_collecting _ _ _ _ _ Hc Hd), Hb in Hs.
      pose proof (decode_len _ _ _ Hd) as Hp.
      pose proof (Inv_counted _ HI) as HIc.
      destruct (assemble_cases _ _ _ _ _ HIc Hc Hx Hs) as [[_ ->]|(it & Hfit & Hcases)]; [auto|].
      cbv zeta in Hcases.
      pose proof (overfull_accept h payload (counted st) it HIc Hc Hfit Hp Ho) as Ho'.
      destruct Hcases as [[_ ->]|(Hfull & _)]; [auto|].
      rewrite (overfull_not_full _ Ho') in Hfull. discriminate.
  - apply on_timeout_closed in Hs. destruct Hs as [-> _]. auto.
  - inversion Hs. auto.
Qed.

Lemma overfull_run env evs : forall st st',
  Inv st -> overfull st -> run env evs st = Ok st' ->
  overfull st' /\ out_file st' = out_file st /\ frames_written st' = frames_written st.
Proof.
  induction evs as [|ev rest IH]; simpl; intros st st' HI Ho H.
  - inversion H; subst. auto.
  - destruct (step env ev st) as [st1|e] eqn:E; simpl in H; [|discriminate].
    destruct (overfull_step _ _ _ _ HI Ho E) as (Ho1 & Hf1 & Hw1).
    destruct (IH st1 st' (Inv_step _ _ _ _ HI E) Ho1 H) as (Ho' & Hf' & Hw').
    repeat split; trivial; congruence.
Qed.

(** C10.  Once a buffer has counted more bytes than it holds, whatever is
    received afterwards, the session stays in that condition: the test that
    every count equals the length of its buffer fails in every later state,
    so the output file receives no further record and the frame counter no
    longer moves. *)
Theorem overfull_never_completes env evs st evs' st' :
  main env evs = Ok st -> overfull st -> run env evs' st = Ok st' ->
  overfull st' /\
  all_full (buffers st') (filled_count st') = false /\
  out_file st' = out_file st /\
  frames_written st' = frames_written st.
Proof.
  intros Hm Ho Hr.
  destruct (overfull_run env evs' st st' (Inv_main _ _ _ Hm) Ho Hr) as (Ho' & Hf & Hw).
  repeat split; trivial. now apply overfull_not_full.
Qed.

(** After [overlapping_session] a packet that would fill the buffer and a
    quiet second leave the file and the frame counter as they were. *)
Lemma overfull_never_completes_witness :
  main (example_env 1 None) overlapping_session = Ok overlapping_last /\
  overfull overlapping_last /\
  run (example_env 1 None) after_overlap overlapping_last = Ok stuck_last /\
  out_file stuck_last = out_file overlapping_last /\
  frames_written stuck_last = Some 0.
Proof.
  assert (Hm : main (example_env 1 None) overlapping_session = Ok overlapping_last)
    by (vm_compute; reflexivity).
  assert (Ho : overfull overlapping_last).
  { exists 1. split; [left; reflexivity | vm_compute; reflexivity]. }
  assert (Hr : run (example_env 1 None) after_overlap overlapping_last = Ok stuck_last)
    by (vm_compute; reflexivity).
  pose proof (overfull_never_completes _ _ _ _ _ Hm Ho Hr) as (_ & _ & Hf & Hw).
  repeat split; trivial.
Defined.

(** * Further properties of the code *)

(** ** Big-endian fields *)

Lemma byte_val_of (z : Z) : byte_val (byte_of z) = z mod 256.
Proof.
  unfold byte_val, byte_of.
  assert (Hr : 0 <= z mod 256 < 256) by (apply Z.mod_pos_bound; lia).
  destruct (Byte.of_N (Z.to_N (z mod 256))) as [b|] eqn:E.
  - apply Byte.to_of_N in E. rewrite E. lia.
  - apply Byte.of_N_None_iff in E. lia.
Qed.

Lemma unpack_be_snoc (bs : list byte) (b : byte) :
  unpack_be (bs ++ [b]) = unpack_be bs * 256 + byte_val b.
Proof. unfold unpack_be. rewrite fold_left_app. reflexivity. Qed.

(** Reading back the bytes of a number that fits gives the number. *)
Lemma unpack_be_bytes (n : nat) : forall x,
  0 <= x < 256 ^ Z.of_nat n -> unpack_be (be_bytes n x) = x.
Proof.
  induction n as [|n IH]; intros x Hx.
  - simpl in *. unfold be_bytes, unpack_be. simpl. lia.
  - unfold be_bytes in *. cbn [le_bytes rev]. rewrite unpack_be_snoc, byte_val_of.
    rewrite IH.
    + pose proof (Z.div_mod x 256). lia.
    + rewrite Nat2Z.inj_succ, Z.pow_succ_r in Hx by lia.
      split; [apply Z.div_pos; lia | apply Z.div_lt_upper_bound; lia].
Qed.

Lemma length_be_bytes (n : nat) (x : Z) : length (be_bytes n x) = n.
Proof.
  unfold be_bytes. rewrite length_rev.
  revert x. induction n as [|n IH]; intros x; simpl; [reflexivity | now rewrite IH].
Qed.

(** ** Slices and prefixes *)

Lemma slice_app_l {A : Type} (l extra : list A) (lo hi : Z) :
  0 <= lo -> 0 <= hi <= len l -> slice (l ++ extra) lo hi = slice l lo hi.
Proof.
  intros Hlo Hhi. unfold slice. rewrite len_app.
  pose proof (len_nonneg l) as Hl. pose proof (len_nonneg extra) as He.
  assert (Hc : forall i, 0 <= i -> i <= len l ->
                         clamp (len l + len extra) i = i /\ clamp (len l) i = i).
  { intros i H0 H1. split; apply clamp_inside; lia. }
  destruct (Hc hi) as [-> ->]; try lia.
  destruct (Z.le_gt_cases lo (len l)) as [Hle|Hgt].
  - destruct (Hc lo) as [-> ->]; try lia.
    rewrite skipn_app, firstn_app.
    replace (Z.to_nat (hi - lo) - length (skipn (Z.to_nat lo) l))%nat with O
      by (rewrite length_skipn; unfold len in *; lia).
    simpl. now rewrite app_nil_r.
  - assert (E1 : Z.to_nat (hi - clamp (len l + len extra) lo) = O).
    { unfold clamp. destruct (Z.ltb_spec lo 0); lia. }
    assert (E2 : Z.to_nat (hi - clamp (len l) lo) = O).
    { unfold clamp. destruct (Z.ltb_spec lo 0); lia. }
    now rewrite E1, E2.
Qed.

Lemma slice_same_tail {A : Type} (pre pre' rest : list A) (lo hi : Z) :
  length pre = length pre' -> len pre <= lo ->
  slice (pre ++ rest) lo hi = slice (pre' ++ rest) lo hi.
Proof.
  intros Hlen Hlo. unfold slice. rewrite !len_app.
  assert (Hp : len pre' = len pre) by (unfold len; now rewrite Hlen).
  rewrite Hp. set (n := len pre + len rest).
  pose proof (len_nonneg pre) as H0. pose proof (len_nonneg rest) as H1.
  assert (Hc : len pre <= clamp n lo).
  { unfold clamp, n. destruct (Z.ltb_spec lo 0); lia. }
  f_equal. rewrite !skipn_app.
  rewrite (skipn_all2 pre) by (unfold len in *; lia).
  rewrite (skipn_all2 pre') by (unfold len in *; lia).
  now rewrite Hlen.
Qed.

(** ** What the decoder reads of a datagram *)

Lemma byte_at_app (data extra : list byte) (i : nat) :
  Z.of_nat i < len data -> byte_at (data ++ extra) i = byte_at data i.
Proof. intros H. unfold byte_at. rewrite app_nth1; [reflexivity | unfold len in H; lia]. Qed.

Lemma parse_header_app (data extra : list byte) (h : Header) :
  parse_header data = inr h -> parse_header (data ++ extra) = inr h.
Proof.
  unfold parse_header. pose proof (len_nonneg extra) as He.
  destruct (Z.ltb_spec (len data) 10) as [|H10]; [discriminate|].
  rewrite len_app. destruct (Z.ltb_spec (len data + len extra) 10); [lia|].
  rewrite !byte_at_app by (simpl; lia).
  rewrite !slice_app_l by lia.
  destruct (negb (Z.land (byte_at data 0) 16 =? 0)); [|auto].
  destruct (Z.leb_spec 14 (len data)) as [H14|]; [|discriminate].
  destruct (Z.leb_spec 14 (len data + len extra)); [|lia].
  rewrite !slice_app_l by lia. auto.
Qed.

Lemma parse_header_pos (data : list byte) (h : Header) :
  parse_header data = inr h ->
  0 <= pos h <= len data /\ 0 <= pkt_length h /\ 0 <= offset h.
Proof.
  intros H. pose proof (parse_header_spec data) as S. rewrite H in S.
  destruct S as (H10 & H14 & Ho & Hl & Hp & _).
  pose proof (spec_length_range data). pose proof (spec_offset_range data).
  rewrite Ho, Hl, Hp. unfold spec_payload_start.
  destruct (spec_has_timecode data); [specialize (H14 eq_refl)|]; lia.
Qed.

Lemma slice_payload_app (data extra : list byte) (h : Header) (payload : list byte) :
  parse_header data = inr h -> slice_payload data h = inr payload ->
  slice_payload (data ++ extra) h = inr payload.
Proof.
  intros Hh Hp. destruct (parse_header_pos _ _ Hh) as (Hpos & Hlen & _).
  pose proof (slice_payload_spec data h Hpos Hlen) as S. rewrite Hp in S.
  destruct S as (Hroom & _ & _).
  unfold slice_payload in *. rewrite slice_app_l by lia. exact Hp.
Qed.

(** The loop body reads a header through four of its fields only. *)
Lemma on_datagram_relevant env data data' st h h' :
  parse_header data = inr h -> parse_header data' = inr h' ->
  relevant h = relevant h' ->
  slice_payload data h = slice_payload data' h' ->
  on_datagram env data st = on_datagram env data' st.
Proof.
  intros H H' Hr Hs. unfold relevant in Hr. inversion Hr as [[Hpush Hoff Hlen Hpos]].
  unfold on_datagram. rewrite H, H', Hs.
  destruct (slice_payload data' h') as [e|payload]; [reflexivity|].
  assert (Hl : forall s, learn_range h s = learn_range h' s).
  { intros s. unfold learn_range. now rewrite Hpush, Hoff, Hlen. }
  rewrite Hl.
  destruct (finalize env _) as [st3|e]; simpl; [|reflexivity].
  destruct (skip_leading_empty env payload st3) as [st4 skipped].
  destruct skipped; [reflexivity|]. destruct (collecting st4); [|reflexivity].
  unfold assemble. now rewrite Hoff, Hlen.
Qed.

(** X1.  A datagram that decodes still decodes, to the same header and the
    same payload, when further bytes follow the announced payload: the bytes
    after [pos + length] are never read, and the loop body does with the
    longer datagram what it does with the shorter one. *)
Theorem trailing_bytes_ignored env st data extra h payload :
  decode data = inr (h, payload) ->
  decode (data ++ extra) = inr (h, payload) /\
  on_datagram env (data ++ extra) st = on_datagram env data st.
Proof.
  intros Hd. apply decode_inr in Hd. destruct Hd as [Hh Hp].
  pose proof (parse_header_app data extra h Hh) as Hh'.
  pose proof (slice_payload_app data extra h payload Hh Hp) as Hp'.
  split.
  - apply decode_inr. auto.
  - apply (on_datagram_relevant env _ _ st h h); trivial. congruence.
Qed.

(** Scenario B's spanning packet, followed by three stray bytes. *)
Lemma trailing_bytes_ignored_witness :
  decode spanning_packet = inr (spanning_header, ones 10) /\
  decode (spanning_packet ++ [x07; x08; x09]) = inr (spanning_header, ones 10).
Proof.
  assert (Hd : decode spanning_packet = inr (spanning_header, ones 10))
    by (vm_compute; reflexivity).
  split; [exact Hd|].
  apply (trailing_bytes_ignored (example_env 2 None) initial_state _ _ _ _ Hd).
Defined.

Lemma push_bit (b : byte) : negb (Z.land (byte_val b) 1 =? 0) = Z.testbit (byte_val b) 0.
Proof. destruct b; reflexivity. Qed.

(** The header of a datagram given by its first four bytes and the rest. *)
Lemma parse_header_cons (b0 b1 b2 b3 : byte) (rest : list byte) :
  parse_header (b0 :: b1 :: b2 :: b3 :: rest)
  = if len rest <? 6 then inl TooShort
    else
      let off := unpack_be (slice (x00 :: x00 :: x00 :: x00 :: rest) 4 8) in
      let length := unpack_be (slice (x00 :: x00 :: x00 :: x00 :: rest) 8 10) in
      if Z.testbit (byte_val b0) 4 then
        if 10 <=? len rest then
          inr {| flags1 := byte_val b0; flags2 := byte_val b1; data_type := byte_val b2;
                 string_id := byte_val b3; offset := off; pkt_length := length;
                 has_timecode := true;
                 timecode := Some (unpack_be (slice (x00 :: x00 :: x00 :: x00 :: rest) 10 14));
                 pos := 14 |}
        else inl TruncatedTimecode
      else
        inr {| flags1 := byte_val b0; flags2 := byte_val b1; data_type := byte_val b2;
               string_id := byte_val b3; offset := off; pkt_length := length;
               has_timecode := false; timecode := None; pos := 10 |}.
Proof.
  unfold parse_header.
  assert (Hlen : len (b0 :: b1 :: b2 :: b3 :: rest) = len rest + 4).
  { unfold len. simpl length. lia. }
  rewrite Hlen.
  assert (Hs : forall lo hi, 4 <= lo ->
             slice (b0 :: b1 :: b2 :: b3 :: rest) lo hi
             = slice (x00 :: x00 :: x00 :: x00 :: rest) lo hi).
  { intros lo hi Hlo.
    apply (slice_same_tail [b0; b1; b2; b3] [x00; x00; x00; x00] rest lo hi); [reflexivity|].
    unfold len. simpl. lia. }
  rewrite !Hs by lia.
  change (byte_at (b0 :: b1 :: b2 :: b3 :: rest) 0) with (byte_val b0).
  change (byte_at (b0 :: b1 :: b2 :: b3 :: rest) 1) with (byte_val b1).
  change (byte_at (b0 :: b1 :: b2 :: b3 :: rest) 2) with (byte_val b2).
  change (byte_at (b0 :: b1 :: b2 :: b3 :: rest) 3) with (byte_val b3).
  rewrite timecode_bit.
  destruct (Z.ltb_spec (len rest + 4) 10); destruct (Z.ltb_spec (len rest) 6); try lia;
    [reflexivity|].
  cbv zeta. destruct (Z.testbit (byte_val b0) 4); [|reflexivity].
  destruct (Z.leb_spec 14 (len rest + 4)); destruct (Z.leb_spec 10 (len rest)); try lia;
    reflexivity.
Qed.

(** X2.  Of the first four bytes of a datagram the loop body uses two bits:
    bit 0 of byte 0, the push flag, and bit 4, the timecode flag.  Two
    datagrams that agree on these bits and on everything from byte 4 on are
    processed alike, whatever their protocol version, their store, reply and
    query flags, their sequence number, their data type and the string
    identifier they report. *)
Theorem unused_header_fields env st b0 b1 b2 b3 c0 c1 c2 c3 rest :
  Z.testbit (byte_val b0) 0 = Z.testbit (byte_val c0) 0 ->
  Z.testbit (byte_val b0) 4 = Z.testbit (byte_val c0) 4 ->
  on_datagram env (b0 :: b1 :: b2 :: b3 :: rest) st
  = on_datagram env (c0 :: c1 :: c2 :: c3 :: rest) st /\
  step env (Datagram (b0 :: b1 :: b2 :: b3 :: rest)) st
  = step env (Datagram (c0 :: c1 :: c2 :: c3 :: rest)) st.
Proof.
  intros Hpush Htc.
  assert (H : on_datagram env (b0 :: b1 :: b2 :: b3 :: rest) st
              = on_datagram env (c0 :: c1 :: c2 :: c3 :: rest) st).
  { destruct (parse_header (b0 :: b1 :: b2 :: b3 :: rest)) as [e|h] eqn:Eh;
      destruct (parse_header (c0 :: c1 :: c2 :: c3 :: rest)) as [e'|h'] eqn:Eh'.
    - unfold on_datagram. now rewrite Eh, Eh'.
    - exfalso. rewrite parse_header_cons in Eh, Eh'. rewrite Htc in Eh.
      destruct (len rest <? 6); [discriminate|]. cbv zeta in *.
      destruct (Z.testbit (byte_val c0) 4); [|discriminate].
      destruct (10 <=? len rest); discriminate.
    - exfalso. rewrite parse_header_cons in Eh, Eh'. rewrite Htc in Eh.
      destruct (len rest <? 6); [discriminate|]. cbv zeta in *.
      destruct (Z.testbit (byte_val c0) 4); [|discriminate].
      destruct (10 <=? len rest); discriminate.
    - assert (Hrel : relevant h = relevant h' /\ pos h = pos h' /\ 10 <= pos h).
      { rewrite parse_header_cons in Eh, Eh'. rewrite Htc in Eh.
        destruct (len rest <? 6); [discriminate|]. cbv zeta in *.
        destruct (Z.testbit (byte_val c0) 4).
        - destruct (10 <=? len rest); [|discriminate].
          inversion Eh; inversion Eh'; subst. unfold relevant, push_flag. simpl.
          rewrite !push_bit, Hpush. repeat split. lia.
        - inversion Eh; inversion Eh'; subst. unfold relevant, push_flag. simpl.
          rewrite !push_bit, Hpush. repeat split. lia. }
      destruct Hrel as (Hrel & Hpos & Hp10).
      apply (on_datagram_relevant env _ _ st h h' Eh Eh' Hrel).
      unfold relevant in Hrel. inversion Hrel as [[Hq1 Hq2 Hlen Hq4]].
      unfold slice_payload. rewrite <- Hpos, <- Hlen.
      rewrite (slice_same_tail [b0; b1; b2; b3] [c0; c1; c2; c3] rest); trivial.
      unfold len. simpl. lia. }
  split; [exact H|]. unfold step. now rewrite H.
Qed.

(** The spanning packet of scenario B under another version, sequence
    number, type and identifier. *)
Lemma unused_header_fields_witness :
  on_datagram (example_env 2 None) (x40 :: x00 :: x01 :: x01 :: skipn 4 spanning_packet)
              scenario_b_state
  = on_datagram (example_env 2 None) (x8e :: xff :: x00 :: x2a :: skipn 4 spanning_packet)
                scenario_b_state.
Proof.
  apply (unused_header_fields (example_env 2 None) scenario_b_state
           x40 x00 x01 x01 x8e xff x00 x2a (skipn 4 spanning_packet)); reflexivity.
Defined.

Lemma slice_middle {A : Type} (pre mid post : list A) :
  slice (pre ++ mid ++ post) (len pre) (len pre + len mid) = mid.
Proof.
  pose proof (len_nonneg pre). pose proof (len_nonneg mid).
  rewrite slice_from by lia.
  replace (Z.to_nat (len pre)) with (length pre) by (unfold len; lia).
  replace (Z.to_nat (len mid)) with (length mid) by (unfold len; lia).
  rewrite skipn_app, skipn_all, Nat.sub_diag. simpl.
  rewrite firstn_app, firstn_all, Nat.sub_diag. simpl. apply app_nil_r.
Qed.

(** X3.  Decoding is the inverse of the wire format: a datagram made of four
    leading bytes, an offset below 2^32, the length of its payload (below
    65536), a timecode exactly when bit 4 of byte 0 is set, and the payload,
    decodes to that offset, that length, that timecode and that payload, the
    four leading bytes being reported as they are. *)
Theorem decode_wire_datagram b0 b1 b2 b3 off tc payload :
  0 <= off < 2 ^ 32 -> len payload < 65536 ->
  match tc with
  | Some t => Z.testbit (byte_val b0) 4 = true /\ 0 <= t < 2 ^ 32
  | None => Z.testbit (byte_val b0) 4 = false
  end ->
  exists h,
    decode (wire_datagram b0 b1 b2 b3 off tc payload) = inr (h, payload) /\
    offset h = off /\ pkt_length h = len payload /\ timecode h = tc /\
    pos h = (match tc with Some _ => 14 | None => 10 end) /\
    flags1 h = byte_val b0 /\ flags2 h = byte_val b1 /\
    data_type h = byte_val b2 /\ string_id h = byte_val b3 /\
    push_flag h = Z.testbit (byte_val b0) 0.
Proof.
  intros Hoff Hlen Htc. pose proof (len_nonneg payload) as Hp0.
  set (tcb := match tc with Some t => be_bytes 4 t | None => [] end).
  set (rest := be_bytes 4 off ++ be_bytes 2 (len payload) ++ tcb ++ payload).
  assert (Hw : wire_datagram b0 b1 b2 b3 off tc payload = b0 :: b1 :: b2 :: b3 :: rest)
    by reflexivity.
  assert (L4 : len (be_bytes 4 off) = 4) by (unfold len; now rewrite length_be_bytes).
  assert (L2 : len (be_bytes 2 (len payload)) = 2) by (unfold len; now rewrite length_be_bytes).
  assert (Ltc : len tcb = match tc with Some _ => 4 | None => 0 end).
  { unfold tcb. destruct tc; [unfold len; now rewrite length_be_bytes | reflexivity]. }
  assert (Lrest : len rest = 6 + len tcb + len payload).
  { unfold rest. rewrite !len_app. lia. }
  assert (S1 : slice (x00 :: x00 :: x00 :: x00 :: rest) 4 8 = be_bytes 4 off).
  { change (x00 :: x00 :: x00 :: x00 :: rest)
      with ([x00; x00; x00; x00] ++ be_bytes 4 off ++ (be_bytes 2 (len payload) ++ tcb ++ payload)).
    change 4 with (len [x00; x00; x00; x00]) at 1.
    replace 8 with (len [x00; x00; x00; x00] + len (be_bytes 4 off)) by (rewrite L4; reflexivity).
    apply slice_middle. }
  assert (S2 : slice (x00 :: x00 :: x00 :: x00 :: rest) 8 10 = be_bytes 2 (len payload)).
  { replace (x00 :: x00 :: x00 :: x00 :: rest)
      with (([x00; x00; x00; x00] ++ be_bytes 4 off) ++ be_bytes 2 (len payload) ++ (tcb ++ payload))
      by (unfold rest; now rewrite <- !app_assoc).
    replace 8 with (len ([x00; x00; x00; x00] ++ be_bytes 4 off))
      by (rewrite len_app, L4; reflexivity).
    replace 10 with (len ([x00; x00; x00; x00] ++ be_bytes 4 off) + len (be_bytes 2 (len payload)))
      by (rewrite len_app, L4, L2; reflexivity).
    apply slice_middle. }
  assert (Hdata : forall hd, len hd = 4 ->
            hd ++ rest = (hd ++ be_bytes 4 off ++ be_bytes 2 (len payload) ++ tcb) ++ payload ++ []).
  { intros hd _. unfold rest. now rewrite app_nil_r, <- !app_assoc. }
  assert (Lhead : forall hd, len hd = 4 ->
            len (hd ++ be_bytes 4 off ++ be_bytes 2 (len payload) ++ tcb) = 10 + len tcb).
  { intros hd Hhd. rewrite !len_app. lia. }
  assert (Spay : slice (b0 :: b1 :: b2 :: b3 :: rest) (10 + len tcb) (10 + len tcb + len payload)
                 = payload).
  { change (b0 :: b1 :: b2 :: b3 :: rest) with ([b0; b1; b2; b3] ++ rest).
    rewrite (Hdata [b0; b1; b2; b3] eq_refl).
    rewrite <- (Lhead [b0; b1; b2; b3] eq_refl). apply slice_middle. }
  assert (Uoff : unpack_be (be_bytes 4 off) = off) by (apply unpack_be_bytes; simpl; lia).
  assert (Ulen : unpack_be (be_bytes 2 (len payload)) = len payload)
    by (apply unpack_be_bytes; simpl; lia).
  rewrite Hw. unfold decode. rewrite parse_header_cons, S1, S2, Uoff, Ulen.
  pose proof (len_nonneg tcb) as Htcb.
  destruct (Z.ltb_spec (len rest) 6); [lia|]. cbv zeta.
  destruct tc as [t|].
  - destruct Htc as [Hbit Ht]. rewrite Hbit. cbv iota in Ltc.
    destruct (Z.leb_spec 10 (len rest)); [|lia].
    assert (S3 : slice (x00 :: x00 :: x00 :: x00 :: rest) 10 14 = be_bytes 4 t).
    { replace (x00 :: x00 :: x00 :: x00 :: rest)
        with (([x00; x00; x00; x00] ++ be_bytes 4 off ++ be_bytes 2 (len payload))
                ++ be_bytes 4 t ++ payload)
        by (unfold rest, tcb; now rewrite <- !app_assoc).
      replace 10 with (len ([x00; x00; x00; x00] ++ be_bytes 4 off ++ be_bytes 2 (len payload)))
        by (rewrite !len_app, L4, L2; reflexivity).
      replace 14 with (len ([x00; x00; x00; x00] ++ be_bytes 4 off ++ be_bytes 2 (len payload))
                       + len (be_bytes 4 t))
        by (rewrite !len_app, L4, L2; unfold len; rewrite length_be_bytes; reflexivity).
      apply slice_middle. }
    rewrite S3, unpack_be_bytes by (simpl; lia).
    unfold slice_payload. cbn [pos pkt_length].
    rewrite Ltc in Spay. change (10 + 4) with 14 in Spay.
    rewrite Spay, Z.eqb_refl. simpl negb. cbv iota.
    eexists. split; [reflexivity|]. unfold push_flag. cbn. rewrite push_bit. repeat split.
  - rewrite Htc. cbv iota in Ltc.
    unfold slice_payload. cbn [pos pkt_length].
    rewrite Ltc in Spay. change (10 + 0) with 10 in Spay.
    rewrite Spay, Z.eqb_refl. simpl negb.
    cbv iota.
    eexists. split; [reflexivity|]. unfold push_flag. cbn. rewrite push_bit. repeat split.
Qed.

(** A push packet of three bytes at offset 70000 with the timecode 5. *)
Lemma decode_wire_datagram_witness :
  exists h,
    decode (wire_datagram x51 x03 x01 x09 70000 (Some 5) (ones 3)) = inr (h, ones 3) /\
    offset h = 70000 /\ pkt_length h = 3 /\ timecode h = Some 5.
Proof.
  destruct (decode_wire_datagram x51 x03 x01 x09 70000 (Some 5) (ones 3))
    as (h & Hd & Ho & Hl & Ht & _).
  - lia.
  - reflexivity.
  - split; [reflexivity | lia].
  - exists h. auto.
Defined.

(** ** Strings, padding width and file size *)

Lemma Layout_same env st st' :
  collecting st' = collecting st -> strings_ranges st' = strings_ranges st ->
  max_bytes st' = max_bytes st -> out_file st' = out_file st ->
  frames_written st' = frames_written st ->
  Layout env st -> Layout env st'.
Proof.
  intros Hc Hr Hm Ho Hf [Hd Hcol]. constructor; rewrite Hc, Hr, ?Hm, ?Ho, ?Hf; assumption.
Qed.

Lemma Layout_initial env :
  0 < number_of_strings (args env) -> Layout env initial_state.
Proof. intros H. constructor; simpl; [intros _; exact H | discriminate]. Qed.

Lemma len_learn_range h st :
  Inv st ->
  len (strings_ranges st) <= len (strings_ranges (learn_range h st))
                          <= len (strings_ranges st) + 1.
Proof.
  intros HI. destruct (collecting st) eqn:Hc; [rewrite learn_range_idle by auto; lia|].
  destruct (push_flag h) eqn:Hp; [|rewrite learn_range_idle by auto; lia].
  destruct (learn_range_push h st HI Hc Hp) as (-> & _). rewrite len_app.
  unfold len. simpl. lia.
Qed.

(** How the discovery can leave a session that does not collect yet. *)
Lemma finalize_discovering env st st' :
  Inv st -> collecting st = false -> finalize env st = Ok st' ->
  (st' = st /\ len (strings_ranges st) < number_of_strings (args env)) \/
  (number_of_strings (args env) <= len (strings_ranges st) /\
   exists mx, max_of (range_lengths (strings_ranges st)) = Ok mx /\
              0 <= mx / 3 < 65536 /\ st' = finalized mx st).
Proof.
  intros HI Hc H.
  destruct (Z.lt_ge_cases (len (strings_ranges st)) (number_of_strings (args env))) as [Hlt|Hge].
  - left. rewrite finalize_idle in H by auto. inversion H; subst; auto.
  - right. split; [lia|].
    destruct (finalize_inv _ _ _ HI H) as [->|(_ & _ & mx & Hmx & Hr & _ & ->)].
    + exfalso. rewrite finalize_eq in H by (trivial; lia).
      destruct (max_of _) as [mx|]; simpl in H; [|discriminate].
      destruct (to_bytes_little _ 2); simpl in H; [|discriminate].
      destruct (forallb _ _); [|discriminate].
      inversion H as [E]. apply (f_equal collecting) in E. simpl in E. congruence.
    + exists mx. auto.
Qed.

Lemma len_concat_parts {A : Type} (f : A -> list byte) (m : Z) (l : list A) :
  (forall x, len (f x) = m) -> len (concat (map f l)) = Z.of_nat (length l) * m.
Proof.
  intros H. induction l as [|a r IH]; [reflexivity|].
  cbn [map concat length]. rewrite len_app, H, IH, Nat2Z.inj_succ. lia.
Qed.

(** The size of the record of a completed frame. *)
Lemma len_frame_record env t0 h payload st it m :
  Inv st -> collecting st = true -> first_fit h st = Some it ->
  max_bytes st = Some m -> 0 <= m ->
  len (frame_record env t0 (accept it h payload st)) = 4 + len (strings_ranges st) * m.
Proof.
  intros HI Hc Hfit Hm Hm0. unfold frame_record.
  rewrite len_app, (frame_parts_accept h payload st it m HI Hc Hfit Hm).
  rewrite (len_concat_parts _ m).
  - rewrite length_ids. unfold len at 1. rewrite length_le_bytes. reflexivity.
  - intros n. now apply render_part_spec.
Qed.

Lemma Layout_assemble env h payload st st' :
  Inv st -> Layout env st -> collecting st = true -> exited st = None ->
  assemble env h payload st = Ok st' -> Layout env st'.
Proof.
  intros HI HL Hc Hx H.
  destruct (assemble_cases _ _ _ _ _ HI Hc Hx H) as [[_ ->]|(it & Hfit & Hcases)]; [exact HL|].
  cbv zeta in Hcases.
  destruct Hcases as [[_ ->]|(_ & t0 & fw & t & _ & Hfw & _ & Hst)].
  { revert HL. apply Layout_same; reflexivity. }
  destruct (lay_collecting _ _ HL Hc) as (HS & mx & written & fw' & Hmx & Hpix & Hm & Ho & Hfw' & Hlen).
  assert (fw' = fw) by congruence. subst fw'.
  assert (Hrec : len (frame_record env t0 (accept it h payload st))
                 = 4 + number_of_strings (args env) * (mx / 3 * 3)).
  { rewrite (len_frame_record env t0 h payload st it (mx / 3 * 3)); trivial; [|lia].
    now rewrite HS. }
  assert (HL' : Layout env (emitted env t0 fw (accept it h payload st))).
  { assert (Ho' : out_file (emitted env t0 fw (accept it h payload st))
                  = Some (written ++ frame_record env t0 (accept it h payload st))).
    { change (out_file (emitted env t0 fw (accept it h payload st)))
        with (append_file (out_file st) (frame_record env t0 (accept it h payload st))).
      now rewrite Ho. }
    constructor.
    - change (collecting (emitted env t0 fw (accept it h payload st))) with (collecting st).
      congruence.
    - intros _. split; [exact HS|].
      exists mx, (written ++ frame_record env t0 (accept it h payload st)), (fw + 1).
      split; [exact Hmx|]. split; [exact Hpix|]. split; [exact Hm|].
      split; [exact Ho'|]. split; [reflexivity|].
      rewrite len_app, Hrec, Hlen. lia. }
  destruct Hst as [->| ->]; revert HL'; apply Layout_same; reflexivity.
Qed.

Lemma Layout_step env ev st st' :
  0 < number_of_strings (args env) ->
  Inv st -> Layout env st -> step env ev st = Ok st' -> Layout env st'.
Proof.
  intros HS HI HL Hs. unfold step in Hs.
  destruct (exited st) eqn:Hx; [inversion Hs; subst; exact HL|].
  destruct ev as [data| |].
  - destruct (on_datagram_cases _ _ _ _ HI Hs)
      as [(e & _ & ->)|(h & payload & st3 & Hd & H3 & HI3 & Hcases)].
    { destruct e; trivial; revert HL; apply Layout_same; reflexivity. }
    assert (HIc : Inv (learn_range h (counted st))) by apply Inv_learn_range, Inv_counted, HI.
    assert (Hx3 : exited st3 = None).
    { rewrite (finalize_exited _ _ _ HIc H3), learn_range_exited. exact Hx. }
    assert (HL3 : Layout env st3).
    { destruct (collecting st) eqn:Hc.
      - rewrite (learn_range_idle h (counted st)) in H3 by (left; exact Hc).
        rewrite finalize_idle in H3 by (left; exact Hc). inversion H3; subst st3.
        revert HL. apply Layout_same; reflexivity.
      - assert (Hc2 : collecting (learn_range h (counted st)) = false)
          by (rewrite learn_range_collecting; exact Hc).
        pose proof (lay_discovering _ _ HL Hc) as Hlt.
        pose proof (len_learn_range h (counted st) (Inv_counted _ HI)) as Hgrow.
        change (strings_ranges (counted st)) with (strings_ranges st) in Hgrow.
        destruct (finalize_discovering _ _ _ HIc Hc2 H3)
          as [[-> Hlt2]|(Hge & mx & Hmx & Hpix & ->)].
        + constructor; [intros _; exact Hlt2 | congruence].
        + constructor; simpl; [discriminate|]. intros _. split; [lia|].
          exists mx, (le_bytes 2 (mx / 3)), 0.
          unfold CHANNELS_PER_PIXEL. repeat split; trivial; lia. }
    destruct Hcases as [(_ & _ & ->)|(st4 & H4 & Hout)].
    { revert HL3. apply Layout_same; reflexivity. }
    assert (E4 : Inv st4 /\ Layout env st4 /\ exited st4 = None).
    { destruct H4 as [(_ & _ & ->)|(_ & ->)].
      - split; [now apply Inv_started|]. split; [|exact Hx3].
        revert HL3. apply Layout_same; reflexivity.
      - auto. }
    destruct E4 as (HI4 & HL4 & Hx4).
    destruct Hout as [[_ ->]|[Hc4 Ha]]; [exact HL4|].
    eapply Layout_assemble; eauto.
  - apply on_timeout_closed in Hs. destruct Hs as [-> _].
    revert HL. apply Layout_same; reflexivity.
  - inversion Hs. revert HL. apply Layout_same; reflexivity.
Qed.

Lemma Layout_run env evs : forall st st',
  0 < number_of_strings (args env) ->
  Inv st -> Layout env st -> run env evs st = Ok st' -> Layout env st'.
Proof.
  induction evs as [|ev rest IH]; simpl; intros st st' HS HI HL H.
  - inversion H; subst; exact HL.
  - destruct (step env ev st) as [st1|e] eqn:E; simpl in H; [|discriminate].
    apply (IH st1 st' HS (Inv_step _ _ _ _ HI E) (Layout_step _ _ _ _ HS HI HL E) H).
Qed.

Lemma Layout_main env evs st :
  0 < number_of_strings (args env) -> main env evs = Ok st -> Layout env st.
Proof.
  intros HS H. apply (Layout_run env evs initial_state st HS Inv_initial); trivial.
  now apply Layout_initial.
Qed.

(** X4.  The recorder records exactly the number of strings it was asked
    for.  While the discovery runs, fewer than [number_of_strings] ranges
    are known; from the packet that brings the count to that number on, the
    session collects, the ranges are those of the strings 1 to
    [number_of_strings], each with a buffer and a count of its own, and push
    packets never add a string (lines 127-139, 155-164). *)
Theorem string_count_exact env evs st :
  0 < number_of_strings (args env) ->
  main env evs = Ok st ->
  (collecting st = false -> len (strings_ranges st) < number_of_strings (args env)) /\
  (collecting st = true ->
   len (strings_ranges st) = number_of_strings (args env) /\
   keys (strings_ranges st) = ids (Z.to_nat (number_of_strings (args env))) /\
   keys (buffers st) = ids (Z.to_nat (number_of_strings (args env))) /\
   keys (filled_count st) = ids (Z.to_nat (number_of_strings (args env))) /\
   forall data st', step env (Datagram data) st = Ok st' ->
                    strings_ranges st' = strings_ranges st).
Proof.
  intros HS Hm. pose proof (Inv_main _ _ _ Hm) as HI.
  pose proof (Layout_main _ _ _ HS Hm) as HL.
  split; [apply (lay_discovering _ _ HL)|]. intros Hc.
  destruct (lay_collecting _ _ HL Hc) as (Hlen & mx & written & fw & _ & _ & _ & Ho & _).
  assert (Hk : keys (strings_ranges st) = ids (Z.to_nat (number_of_strings (args env)))).
  { rewrite (inv_ids _ HI). f_equal. unfold len in Hlen. lia. }
  split; [exact Hlen|]. split; [exact Hk|].
  split; [rewrite (inv_keys_buffers _ HI Hc); exact Hk|].
  split; [rewrite (inv_keys_filled _ HI Hc); exact Hk|].
  intros data st' Hs.
  destruct (step_after_discovery _ _ _ _ _ HI Hc Ho Hs) as (_ & _ & Hr & _). exact Hr.
Qed.

Lemma string_count_exact_witness :
  len (strings_ranges uneven_state) = 2 /\
  keys (buffers uneven_state) = [1; 2].
Proof.
  assert (HS : 0 < number_of_strings (args (example_env 2 None))) by (vm_compute; reflexivity).
  assert (Hm : main (example_env 2 None) uneven_session = Ok uneven_state)
    by (vm_compute; reflexivity).
  destruct (string_count_exact _ _ _ HS Hm) as [_ H].
  destruct (H eq_refl) as (Hl & _ & Hb & _). split; [exact Hl | exact Hb].
Defined.

(** X5.  The size of the output file of a collecting session is fixed by
    the number of strings and the longest range: two bytes of header, then
    for every frame written so far four bytes of time and
    [number_of_strings] parts of [max_bytes] bytes each, where [max_bytes]
    is the longest range length rounded down to a multiple of three
    (lines 146-163, 198-225). *)
Theorem file_size env evs st :
  0 < number_of_strings (args env) ->
  main env evs = Ok st ->
  collecting st = true ->
  exists mx m written fw,
    max_of (range_lengths (strings_ranges st)) = Ok mx /\
    max_bytes st = Some m /\ m = mx / 3 * 3 /\
    out_file st = Some written /\
    frames_written st = Some fw /\ 0 <= fw /\
    len written = 2 + fw * (4 + number_of_strings (args env) * m).
Proof.
  intros HS Hm Hc. pose proof (Inv_main _ _ _ Hm) as HI.
  pose proof (Layout_main _ _ _ HS Hm) as HL.
  destruct (lay_collecting _ _ HL Hc) as (_ & mx & written & fw & Hmx & _ & Hmb & Ho & Hfw & Hlen).
  exists mx, (mx / 3 * 3), written, fw.
  destruct (inv_frames _ HI Hc) as (fw' & Hfw' & Hpos).
  assert (fw' = fw) by congruence. subst fw'.
  repeat split; trivial.
Qed.

Lemma file_size_witness :
  exists written, out_file uneven_state = Some written /\ len written = 12.
Proof.
  assert (HS : 0 < number_of_strings (args (example_env 2 None))) by (vm_compute; reflexivity).
  assert (Hm : main (example_env 2 None) uneven_session = Ok uneven_state)
    by (vm_compute; reflexivity).
  assert (Hc : collecting uneven_state = true) by reflexivity.
  destruct (file_size _ _ _ HS Hm Hc) as (mx & m & written & fw & Hmx & Hmb & _ & Ho & Hfw & _ & Hl).
  exists written. split; [exact Ho|].
  assert (Em : m = 3) by (vm_compute in Hmb; congruence).
  assert (Ef : fw = 1) by (vm_compute in Hfw; congruence).
  rewrite Hl, Em, Ef. reflexivity.
Defined.

(** X6.  Rendering a frame loses at most two bytes of a string.  In a
    collecting session [max_bytes] is a multiple of three that is at most
    two bytes short of the longest range, so the part written for a string
    has [max_bytes] bytes and starts with the buffer of the string, all of
    it or all but its last one or two bytes (lines 161-163, 200-209). *)
Theorem truncation_bound env evs st n s e :
  0 < number_of_strings (args env) ->
  main env evs = Ok st ->
  collecting st = true ->
  In (n, (s, e)) (strings_ranges st) ->
  exists m,
    max_bytes st = Some m /\ m mod 3 = 0 /\
    let b := buffer_of (buffers st) n in
    let part := render_part (max_bytes st) b in
    len b = e - s /\ len b - 2 <= m /\ len part = m /\
    (len b <= m -> part = b ++ zeros (m - len b)) /\
    (m < len b -> part = firstn (Z.to_nat m) b).
Proof.
  intros HS Hm Hc Hin. pose proof (Inv_main _ _ _ Hm) as HI.
  pose proof (Layout_main _ _ _ HS Hm) as HL.
  destruct (lay_collecting _ _ HL Hc) as (_ & mx & written & fw & Hmx & Hpix & Hmb & _).
  exists (mx / 3 * 3). split; [exact Hmb|]. split; [apply Z.mod_mul; lia|].
  cbv zeta. rewrite Hmb.
  pose proof (inv_len _ HI Hc _ _ _ Hin) as Hlen.
  destruct (max_of_spec _ _ Hmx) as [_ Hle].
  assert (Hx : e - s <= mx).
  { apply Hle. apply range_lengths_in. exists n, s, e. auto. }
  pose proof (Z.div_mod mx 3 ltac:(lia)) as Hdm.
  pose proof (Z.mod_pos_bound mx 3 ltac:(lia)) as Hmod.
  destruct (render_part_spec (mx / 3 * 3) (buffer_of (buffers st) n) ltac:(lia))
    as (Hl & Heq & Hlt & Hgt).
  split; [exact Hlen|]. split; [lia|]. split; [exact Hl|]. split; [|exact Hgt].
  intros Hb. destruct (Z.eq_dec (len (buffer_of (buffers st) n)) (mx / 3 * 3)) as [E|E].
  - rewrite (Heq E), E, Z.sub_diag. simpl. now rewrite app_nil_r.
  - apply Hlt. lia.
Qed.

Lemma truncation_bound_witness :
  render_part (max_bytes uneven_state) (buffer_of (buffers uneven_state) 2)
  = firstn 3 (buffer_of (buffers uneven_state) 2).
Proof.
  assert (HS : 0 < number_of_strings (args (example_env 2 None))) by (vm_compute; reflexivity).
  assert (Hm : main (example_env 2 None) uneven_session = Ok uneven_state)
    by (vm_compute; reflexivity).
  assert (Hc : collecting uneven_state = true) by reflexivity.
  assert (Hin : In (2, (4, 9)) (strings_ranges uneven_state)) by (right; left; reflexivity).
  destruct (truncation_bound _ _ _ 2 4 9 HS Hm Hc Hin) as (m & Hmb & _ & H).
  cbv zeta in H. destruct H as (_ & _ & _ & _ & Hgt).
  assert (Em : m = 3) by (vm_compute in Hmb; congruence). subst m.
  apply Hgt. vm_compute. reflexivity.
Defined.

(** ** The exceptions of the bookkeeping *)

Lemma allocate_raises items : forall bufs filled e,
  allocate items bufs filled = Raise e -> e = ValueError.
Proof.
  induction items as [|[n [s e0]] rest IH]; intros bufs filled e H; simpl in H; [discriminate|].
  unfold bytearray in H. destruct (e0 - s <? 0); simpl in H; [congruence|].
  eapply IH; exact H.
Qed.

Lemma finalize_raises env st e :
  finalize env st = Raise e ->
  collecting st = false /\ (e = ValueError \/ e = OverflowError).
Proof.
  unfold finalize. destruct (collecting st); simpl; [discriminate|].
  destruct (_ <=? _); [|discriminate]. intros H. split; [reflexivity|].
  destruct (max_of (range_lengths (strings_ranges st))) as [mx|e1] eqn:Emax; simpl in H.
  2:{ unfold max_of in Emax. destruct (range_lengths _); [|discriminate].
      left. congruence. }
  unfold to_bytes_little in H at 1.
  destruct ((mx / CHANNELS_PER_PIXEL <? 0) || _); simpl in H; [right; congruence|].
  destruct (allocate _ _ _) as [alloc|e1] eqn:Ea; simpl in H.
  - discriminate.
  - left. apply allocate_raises in Ea. congruence.
Qed.

Lemma fps_check_raises d e : fps_check d = Raise e -> e = ZeroDivisionError.
Proof. unfold fps_check. destruct (d =? 0); congruence. Qed.

Lemma report_progress_raises env t0 fw st e :
  report_progress env t0 fw st = Raise e -> e = ZeroDivisionError.
Proof.
  unfold report_progress. destruct (fw mod 40 =? 0); [|discriminate].
  unfold now. destruct (fps_check _) eqn:E; simpl; [discriminate|].
  intros H. apply fps_check_raises in E. congruence.
Qed.

Lemma check_duration_raises env t0 st e :
  check_duration env t0 st = Raise e -> e = ZeroDivisionError.
Proof.
  unfold check_duration. destruct (seconds_to_capture (args env)) as [secs|]; [|discriminate].
  destruct (secs =? 0); [discriminate|]. unfold now.
  destruct (_ <=? _); [|discriminate].
  destruct (fps_check _) eqn:E; simpl; [discriminate|].
  intros H. apply fps_check_raises in E. congruence.
Qed.

Lemma complete_frame_raises env st t0 fw e :
  start_time st = Some t0 -> frames_written st = Some fw ->
  complete_frame env st = Raise e -> e = OverflowError \/ e = ZeroDivisionError.
Proof.
  intros Ht Hf. unfold complete_frame. rewrite Ht. simpl.
  unfold to_bytes_little.
  destruct (_ || _); simpl; [intros H; left; congruence|].
  rewrite Hf. simpl.
  destruct (report_progress _ _ _ _) as [st6|e1] eqn:E6; simpl.
  2:{ intros H. right. apply report_progress_raises in E6. congruence. }
  destruct (check_duration _ _ _) as [st7|e1] eqn:E7; simpl.
  2:{ intros H. right. apply check_duration_raises in E7. congruence. }
  destruct (exited st7); discriminate.
Qed.

Lemma assemble_raises env h payload st e :
  Inv st -> collecting st = true -> is_beginning st = false ->
  assemble env h payload st = Raise e -> e = OverflowError \/ e = ZeroDivisionError.
Proof.
  intros HI Hc Hb. rewrite assemble_eq by assumption.
  destruct (first_fit h st) as [it|]; [|discriminate].
  destruct (all_full _ _); [|discriminate].
  destruct (inv_started _ HI Hb) as (t0 & t1 & Ht0 & _).
  destruct (inv_frames _ HI Hc) as (fw & Hfw & _).
  apply (complete_frame_raises env (accept it h payload st) t0 fw); assumption.
Qed.

Lemma on_timeout_raises env st e :
  Inv st -> on_timeout env st = Raise e -> e = ZeroDivisionError.
Proof.
  intros HI. unfold on_timeout.
  destruct (collecting st) eqn:Hc; simpl; [|discriminate].
  destruct (is_beginning st) eqn:Hb; simpl; [discriminate|].
  destruct (last_frame_time st) as [lft|]; [|discriminate].
  unfold now. destruct (_ <=? _); [|discriminate].
  destruct (inv_started _ HI Hb) as (t0 & t1 & Ht0 & _).
  destruct (inv_frames _ HI Hc) as (fw & Hfw & _).
  simpl. rewrite Ht0, Hfw. simpl.
  destruct (0 <? fw); simpl; [|discriminate].
  destruct (fps_check _) eqn:E; simpl; [discriminate|].
  intros H. apply fps_check_raises in E. congruence.
Qed.

Lemma on_datagram_raises env data st e :
  Inv st -> on_datagram env data st = Raise e ->
  (collecting st = false /\ (e = ValueError \/ e = OverflowError)) \/
  (e = OverflowError \/ e = ZeroDivisionError).
Proof.
  intros HI. unfold on_datagram.
  destruct (parse_header data) as [?|h]; [discriminate|].
  destruct (slice_payload data h) as [?|payload]; [discriminate|].
  fold (counted st).
  assert (HIc : Inv (learn_range h (counted st))) by apply Inv_learn_range, Inv_counted, HI.
  destruct (finalize env (learn_range h (counted st))) as [st3|e1] eqn:E3; simpl.
  2:{ intros H. left. apply finalize_raises in E3. destruct E3 as [Hc He].
      rewrite learn_range_collecting in Hc. split; [exact Hc|]. congruence. }
  pose proof (Inv_finalize _ _ _ HIc E3) as HI3.
  assert (Hk : skip_leading_empty env payload st3
               = if is_beginning st3 && is_empty_bytearray payload
                 then (with_empty_frames (empty_frames st3 + 1) st3, true)
                 else if is_beginning st3 then (started env st3, false) else (st3, false))
    by reflexivity.
  rewrite Hk. clear Hk. intros H. right.
  destruct (is_beginning st3) eqn:Hb; cbv beta iota delta [andb] in H.
  - destruct (is_empty_bytearray payload); [discriminate|].
    change (collecting (started env st3)) with (collecting st3) in H.
    destruct (collecting st3) eqn:Hc3; [|discriminate].
    revert H. apply assemble_raises; trivial. now apply Inv_started.
  - destruct (collecting st3) eqn:Hc3; [|discriminate].
    revert H. now apply assemble_raises.
Qed.

Lemma step_raises env ev st e :
  Inv st -> step env ev st = Raise e ->
  (collecting st = false /\ (e = ValueError \/ e = OverflowError)) \/
  (e = OverflowError \/ e = ZeroDivisionError).
Proof.
  intros HI. unfold step. destruct (exited st); [discriminate|].
  destruct ev as [data| |]; [now apply on_datagram_raises| |discriminate].
  intros H. right. right. revert H. now apply on_timeout_raises.
Qed.

Lemma step_keeps_collecting env ev st st' :
  Inv st -> collecting st = true -> step env ev st = Ok st' -> collecting st' = true.
Proof.
  intros HI Hc Hs. destruct (inv_max _ HI Hc) as (m & rest & _ & _ & Ho).
  destruct (step_after_discovery _ _ _ _ _ HI Hc Ho Hs) as (H & _). exact H.
Qed.

Lemma run_raises env evs : forall st e,
  Inv st -> run env evs st = Raise e ->
  (collecting st = false /\ (e = ValueError \/ e = OverflowError)) \/
  (e = OverflowError \/ e = ZeroDivisionError).
Proof.
  induction evs as [|ev rest IH]; intros st e HI H; simpl in H; [discriminate|].
  destruct (step env ev st) as [st1|e1] eqn:E; simpl in H.
  - destruct (IH st1 e (Inv_step _ _ _ _ HI E) H) as [[Hc He]|He]; [|right; exact He].
    destruct (collecting st) eqn:Hcs; [|left; auto].
    rewrite (step_keeps_collecting _ _ _ _ HI Hcs E) in Hc. discriminate.
  - inversion H; subst e1. now apply step_raises in E.
Qed.

(** X7.  The bookkeeping of [main] never fails.  The locals [start_time]
    and [frames_written] are bound on some paths only (lines 166 and 177)
    and read on others (lines 67-68, 213, 225-231); [buffers] and
    [filled_count] are indexed by the keys of [strings_ranges] (lines
    188-189).  Whatever the events, no read finds a local unbound and no
    lookup misses its key: [main] raises neither [UnboundLocalError] nor
    [KeyError].  The socket and the file are not modelled as fallible, and
    their errors are no part of this statement. *)
Theorem locals_bound_keys_present env evs :
  main env evs <> Raise UnboundLocalError /\ main env evs <> Raise KeyError.
Proof.
  split; intros H;
    destruct (run_raises env evs initial_state _ Inv_initial H) as [[_ [He|He]]|[He|He]];
    discriminate He.
Qed.

(** ** A frame sent string by string *)

Lemma chained_start_le (before : dict (Z * Z)) : forall s0 s1 it after,
  chained s0 (before ++ it :: after) s1 ->
  (forall it', In it' before -> fst (snd it') <= snd (snd it')) ->
  s0 <= fst (snd it).
Proof.
  induction before as [|[n' [s' e']] b IH]; intros s0 s1 [n [s e]] after H Hpos; simpl in H.
  - destruct H as [-> _]. simpl. lia.
  - destruct H as [-> H].
    pose proof (Hpos (n', (s0, e')) (or_introl eq_refl)) as Hle. simpl in Hle.
    pose proof (IH e' s1 (n, (s, e)) after H (fun it' Hin => Hpos it' (or_intror Hin))).
    lia.
Qed.

Lemma chained_before (before : dict (Z * Z)) : forall s0 s1 it after,
  chained s0 (before ++ it :: after) s1 ->
  (forall it', In it' before -> fst (snd it') <= snd (snd it')) ->
  forall it', In it' before -> snd (snd it') <= fst (snd it).
Proof.
  induction before as [|[n' [s' e']] b IH]; intros s0 s1 it after H Hpos it' Hin;
    [contradiction|].
  simpl in H. destruct H as [-> H].
  destruct Hin as [<-|Hin].
  - simpl. apply (chained_start_le b e' s1 it after H).
    intros x Hx. apply Hpos. now right.
  - apply (IH e' s1 it after H); trivial. intros x Hx. apply Hpos. now right.
Qed.

Lemma find_at {A : Type} (f : A -> bool) (before : list A) (x : A) (after : list A) :
  f x = true -> (forall y, In y before -> f y = false) ->
  find f (before ++ x :: after) = Some x.
Proof.
  intros Hx. induction before as [|a b IH]; intros Hb; simpl.
  - now rewrite Hx.
  - rewrite (Hb a (or_introl eq_refl)). apply IH. intros y Hy. apply Hb. now right.
Qed.

(** A packet that spans a whole non-empty range goes to that range. *)
Lemma first_fit_own h st it :
  Inv st ->
  (forall n s e, In (n, (s, e)) (strings_ranges st) -> s < e) ->
  In it (strings_ranges st) ->
  offset h = fst (snd it) -> pkt_length h = snd (snd it) - fst (snd it) ->
  first_fit h st = Some it.
Proof.
  intros HI Hpos Hin Ho Hl. unfold first_fit.
  destruct (in_split _ _ Hin) as (before & after & Hsplit). rewrite Hsplit.
  apply find_at.
  - apply fits_iff. lia.
  - intros y Hy. destruct (fits (offset h) (pkt_length h) y) eqn:E; [|reflexivity].
    apply fits_iff in E. exfalso.
    pose proof (inv_chain _ HI) as Hch. rewrite Hsplit in Hch.
    assert (Hnn : forall it', In it' before -> fst (snd it') <= snd (snd it')).
    { intros [n' [s' e']] H'. simpl.
      assert (s' < e'); [|lia].
      apply (Hpos n'). rewrite Hsplit. apply in_or_app. now left. }
    pose proof (chained_before before 0 (start st) it after Hch Hnn y Hy) as Hle.
    destruct it as [n [s e]]. simpl in *.
    assert (s < e) by (apply (Hpos n); rewrite Hsplit; apply in_or_app; right; now left).
    lia.
Qed.

Lemma slice_assign_full {A : Type} (b v : list A) (lo hi : Z) :
  lo = 0 -> hi = len b -> slice_assign b lo hi v = v.
Proof.
  intros -> ->. unfold slice_assign. pose proof (len_nonneg b) as Hb.
  assert (E0 : clamp (len b) 0 = 0) by (unfold clamp; simpl; lia).
  assert (E1 : clamp (len b) (len b) = len b).
  { unfold clamp. destruct (Z.ltb_spec (len b) 0); lia. }
  rewrite E0, E1, Z.max_r by lia. simpl firstn.
  rewrite skipn_all2 by (unfold len; lia). now rewrite app_nil_r.
Qed.

Lemma same_frame_refl st : same_frame st st.
Proof. unfold same_frame. repeat split. Qed.

Lemma same_frame_trans a b c : same_frame a b -> same_frame b c -> same_frame a c.
Proof.
  unfold same_frame.
  intros (H1 & H2 & H3 & H4 & H5 & H6 & H7 & H8 & H9 & H10)
         (G1 & G2 & G3 & G4 & G5 & G6 & G7 & G8 & G9 & G10).
  repeat split; congruence.
Qed.

(** The datagram of one string, received while another string is not yet
    full: the payload becomes the buffer of the string. *)
Lemma fill_one env st it pe z :
  Inv st -> collecting st = true -> is_beginning st = false -> exited st = None ->
  (forall n s e, In (n, (s, e)) (strings_ranges st) -> s < e) ->
  In it (strings_ranges st) -> carries it pe ->
  exists data h,
    snd pe = Datagram data /\ decode data = inr (h, fst pe) /\
    first_fit h (counted st) = Some it /\
    let st1 := accept it h (fst pe) (counted st) in
    Inv st1 /\ same_frame st st1 /\
    buffer_of (buffers st1) (fst it) = fst pe /\
    get_count (filled_count st1) (fst it)
    = get_count (filled_count st) (fst it) + len (fst pe) /\
    len (fst pe) = len (buffer_of (buffers st) (fst it)) /\
    (forall n, n <> fst it ->
               buffer_of (buffers st1) n = buffer_of (buffers st) n /\
               get_count (filled_count st1) n = get_count (filled_count st) n) /\
    (In z (keys (buffers st)) -> z <> fst it ->
     get_count (filled_count st) z <> len (buffer_of (buffers st) z) ->
     step env (snd pe) st = Ok st1).
Proof.
  intros HI Hc Hb Hx Hpos Hin (data & h & Hev & Hd & Ho & Hl).
  exists data, h. split; [exact Hev|]. split; [exact Hd|].
  pose proof (Inv_counted _ HI) as HIc.
  pose proof (decode_len _ _ _ Hd) as Hp.
  assert (Hfit : first_fit h (counted st) = Some it)
    by (apply first_fit_own; trivial).
  split; [exact Hfit|]. cbv zeta.
  pose proof (Inv_accept h (fst pe) (counted st) it HIc Hc Hb Hfit Hp) as HA.
  destruct it as [n [s e]]. simpl fst in *. simpl snd in *.
  pose proof (inv_len _ HI Hc n s e Hin) as Hlen.
  assert (Hkb : In n (keys (buffers st))).
  { rewrite (inv_keys_buffers _ HI Hc). apply (in_keys _ _ _ Hin). }
  assert (Hbuf : buffer_of (buffers (accept (n, (s, e)) h (fst pe) (counted st))) n = fst pe).
  { unfold accept. simpl. rewrite buffer_of_set_same.
    apply slice_assign_full; [lia|]. rewrite Hlen. lia. }
  assert (Hother : forall k, k <> n ->
            buffer_of (buffers (accept (n, (s, e)) h (fst pe) (counted st))) k
            = buffer_of (buffers st) k /\
            get_count (filled_count (accept (n, (s, e)) h (fst pe) (counted st))) k
            = get_count (filled_count st) k).
  { intros k Hk. unfold accept. simpl.
    rewrite buffer_of_set_other, get_count_set_other by congruence. auto. }
  split; [exact HA|]. split.
  { unfold same_frame, accept. simpl. repeat split.
    now rewrite keys_set_present. }
  split; [exact Hbuf|]. split.
  { unfold accept. simpl. rewrite get_count_set_same. lia. }
  split; [rewrite Hlen; lia|]. split; [exact Hother|].
  intros Hz Hzn Hzc. rewrite Hev. unfold step. rewrite Hx.
  rewrite (on_datagram_collecting _ _ _ _ _ Hc Hd), Hb.
  rewrite (assemble_eq env h (fst pe) (counted st) HIc Hc), Hfit.
  destruct (all_full _ _) eqn:Hfull; [|reflexivity].
  exfalso. rewrite all_full_iff in Hfull.
  destruct (Hother z Hzn) as [E1 E2].
  specialize (Hfull z). rewrite E1, E2 in Hfull. apply Hzc, Hfull.
  unfold accept. simpl. now rewrite keys_set_present.
Qed.

Lemma fill_partial env z : forall items sent,
  Forall2 carries items sent -> forall st,
  Inv st -> collecting st = true -> is_beginning st = false -> exited st = None ->
  (forall n s e, In (n, (s, e)) (strings_ranges st) -> s < e) ->
  incl items (strings_ranges st) -> NoDup (map fst items) ->
  In z (keys (buffers st)) -> ~ In z (map fst items) ->
  get_count (filled_count st) z <> len (buffer_of (buffers st) z) ->
  exists st',
    run env (map snd sent) st = Ok st' /\ Inv st' /\ same_frame st st' /\
    (forall it pe, In (it, pe) (combine items sent) ->
                   buffer_of (buffers st') (fst it) = fst pe /\
                   get_count (filled_count st') (fst it)
                   = get_count (filled_count st) (fst it) + len (fst pe) /\
                   len (fst pe) = len (buffer_of (buffers st) (fst it))) /\
    (forall n, ~ In n (map fst items) ->
               buffer_of (buffers st') n = buffer_of (buffers st) n /\
               get_count (filled_count st') n = get_count (filled_count st) n).
Proof.
  induction 1 as [|it pe items sent Hcar HF IH];
    intros st HI Hc Hb Hx Hpos Hincl Hnd Hz Hzn Hzc.
  - exists st. simpl. split; [reflexivity|]. split; [exact HI|].
    split; [apply same_frame_refl|]. split; [intros ? ? []|auto].
  - assert (Hin : In it (strings_ranges st)) by (apply Hincl; now left).
    destruct (fill_one env st it pe z HI Hc Hb Hx Hpos Hin Hcar)
      as (data & h & Hev & Hd & Hfit & H1). cbv zeta in H1.
    set (st1 := accept it h (fst pe) (counted st)) in *.
    destruct H1 as (HI1 & Hsame & Hbuf & Hcnt & Hlen & Hother & Hstep).
    pose proof Hsame as (S1 & S2 & S3 & S4 & S5 & S6 & S7 & S8 & S9 & S10).
    simpl in Hnd, Hzn. inversion Hnd as [|? ? Hnotin Hnd']; subst.
    assert (Hzi : z <> fst it) by (intros E; apply Hzn; left; congruence).
    specialize (Hstep Hz Hzi Hzc).
    destruct (Hother z Hzi) as [Hzb Hzk].
    destruct (IH st1 HI1) as (st' & Hrun & HI' & Hsame' & Hfilled & Hrest).
    + congruence.
    + congruence.
    + congruence.
    + rewrite <- S1. exact Hpos.
    + rewrite <- S1. intros x Hxin. apply Hincl. now right.
    + exact Hnd'.
    + rewrite <- S10. exact Hz.
    + intros Hzin. apply Hzn. now right.
    + rewrite Hzb, Hzk. exact Hzc.
    + exists st'. split; [simpl; rewrite Hstep; exact Hrun|]. split; [exact HI'|].
      split; [eapply same_frame_trans; eauto|]. split.
      * intros it' pe' [E|Hin'].
        -- inversion E; subst it' pe'.
           destruct (Hrest (fst it) Hnotin) as [R1 R2]. rewrite R1, R2. auto.
        -- destruct (Hfilled it' pe' Hin') as (F1 & F2 & F3).
           assert (Hne : fst it' <> fst it).
           { intros E. apply Hnotin. rewrite <- E. apply in_map.
             eapply in_combine_l; eauto. }
           destruct (Hother (fst it') Hne) as [O1 O2].
           rewrite F1, F2, F3, O1, O2. auto.
      * intros n Hn. assert (Hne : n <> fst it) by (intros E; apply Hn; left; congruence).
        destruct (Hrest n (fun H => Hn (or_intror H))) as [R1 R2].
        destruct (Hother n Hne) as [O1 O2]. rewrite R1, R2. auto.
Qed.

Lemma Forall2_combine {A B : Type} (P : A -> B -> Prop) : forall (l1 : list A) (l2 : list B),
  length l1 = length l2 ->
  (forall a b, In (a, b) (combine l1 l2) -> P a b) -> Forall2 P l1 l2.
Proof.
  induction l1 as [|a r IH]; intros [|b s] Hl H; simpl in Hl; try discriminate; constructor.
  - apply H. now left.
  - apply IH; [congruence|]. intros x y Hxy. apply H. now right.
Qed.

Lemma Forall2_map_eq {A B C : Type} (f : A -> C) (g : B -> C) (l1 : list A) (l2 : list B) :
  Forall2 (fun a b => f a = g b) l1 l2 -> map f l1 = map g l2.
Proof. induction 1; simpl; congruence. Qed.

Lemma in_combine_exists {A B : Type} : forall (l1 : list A) (l2 : list B) (a : A),
  length l1 = length l2 -> In a l1 -> exists b, In (a, b) (combine l1 l2).
Proof.
  induction l1 as [|x r IH]; intros [|y s] a Hl Hin; simpl in *; try discriminate;
    [contradiction|].
  destruct Hin as [->|Hin].
  - exists y. now left.
  - destruct (IH s a ltac:(congruence) Hin) as [b Hb]. exists b. now right.
Qed.

Lemma In_firstn {A : Type} (k : nat) (l : list A) (x : A) :
  In x (firstn k l) -> In x l.
Proof. intros H. rewrite <- (firstn_skipn k l). apply in_or_app. now left. Qed.

Lemma NoDup_firstn {A : Type} (k : nat) (l : list A) : NoDup l -> NoDup (firstn k l).
Proof. intros H. rewrite <- (firstn_skipn k l) in H. now apply NoDup_app_remove_r in H. Qed.

(** The step that completes a frame, as far as the file and the frame
    counter go. *)
Lemma frame_step env st data h payload it t0 fw m written :
  Inv st -> exited st = None -> collecting st = true -> is_beginning st = false ->
  decode data = inr (h, payload) -> first_fit h (counted st) = Some it ->
  all_full (buffers (accept it h payload (counted st)))
           (filled_count (accept it h payload (counted st))) = true ->
  start_time st = Some t0 -> frames_written st = Some fw -> max_bytes st = Some m ->
  out_file st = Some written ->
  (forall secs, seconds_to_capture (args env) = Some secs ->
                check_positive_int secs = Ok secs) ->
  0 <= total_ms env (clock env (ticks st) - t0) < 4294967296 ->
  ((fw + 1) mod 40 = 0 -> clock env (S (S (ticks st))) <> t0) ->
  exists st',
    step env (Datagram data) st = Ok st' /\
    out_file st'
    = Some (written ++ le_bytes 4 (total_ms env (clock env (ticks st) - t0))
              ++ concat (map (fun n => render_part (Some m)
                                         (buffer_of (buffers (accept it h payload (counted st))) n))
                             (ids (length (strings_ranges st))))) /\
    frames_written st' = Some (fw + 1).
Proof.
  intros HI Hx Hc Hb Hd Hfit Hfull Ht0 Hfw Hmax Hout Hpos Hms Hfps.
  pose proof (Inv_counted _ HI) as HIc.
  set (st1 := accept it h payload (counted st)) in *.
  set (E := emitted env t0 fw st1).
  set (s6 := if (fw + 1) mod 40 =? 0 then with_ticks (S (ticks E)) E else E).
  assert (Hrec : out_file E
                 = Some (written ++ le_bytes 4 (total_ms env (clock env (ticks st) - t0))
                           ++ concat (map (fun n => render_part (Some m) (buffer_of (buffers st1) n))
                                          (ids (length (strings_ranges st)))))).
  { change (out_file E) with (append_file (out_file st) (frame_record env t0 st1)).
    rewrite Hout. unfold append_file, frame_record.
    pose proof (frame_parts_accept h payload (counted st) it m HIc Hc Hfit Hmax) as Hparts.
    fold st1 in Hparts. rewrite Hparts. reflexivity. }
  assert (H6 : out_file s6 = out_file E /\ frames_written s6 = Some (fw + 1)).
  { unfold s6. destruct (_ =? 0); split; reflexivity. }
  destruct H6 as [Ho6 Hw6].
  destruct (check_duration_ok env t0 s6 Hpos) as [t Hdur].
  assert (Hstep : step env (Datagram data) st
                  = (st7 <- check_duration env t0 s6 ;;
                     match exited st7 with
                     | Some _ => Ok st7
                     | None => Ok (reset_frame st7)
                     end)).
  { unfold step. rewrite Hx, (on_datagram_collecting _ _ _ _ _ Hc Hd), Hb.
    rewrite (assemble_eq env h payload (counted st) HIc Hc), Hfit. fold st1.
    rewrite Hfull.
    rewrite (complete_frame_eq env st1 t0 fw) by (trivial; exact Hms).
    fold E. rewrite report_progress_ok by exact Hfps. reflexivity. }
  rewrite Hstep, Hdur. simpl bind.
  destruct (limit_reached env t0 (ticks s6)).
  - eexists. split; [reflexivity|]. split; [rewrite <- Hrec, <- Ho6; reflexivity | exact Hw6].
  - set (s7 := with_exited (exited s6) (with_ticks t s6)).
    destruct (exited s7); eexists; (split; [reflexivity|]);
      (split; [rewrite <- Hrec, <- Ho6; reflexivity | exact Hw6]).
Qed.

(** X8.  What is recorded is what was sent.  Take a session that captures
    (it collects and a payload with a non-zero byte has been seen, so that
    no packet is skipped as empty), whose counts are all zero (after the
    discovery, or after a completed frame) and whose strings are all
    non-empty, and let it receive one datagram per string, in the order of
    the strings, each carrying the bytes of its whole range.  Provided the
    completion of the frame raises nothing, that is, the frame time fits in
    four unsigned bytes, the clock read for the report of a fortieth frame
    is not the start time, and the limit is positive as argparse has it,
    the datagram of the last string, and no earlier one, completes the
    frame, and the file grows by exactly one record: the frame time on four
    little-endian bytes, then the payloads in the order of the strings,
    each padded with zeros or cut to [max_bytes].  The frame time is the
    value [total_ms] of the microseconds between the start time and the
    clock reading taken at the last datagram; the conversion itself is
    floating point in the code and is not interpreted here
    (lines 181-225). *)
Theorem frame_round_trip env evs st sent t0 fw m written :
  0 < number_of_strings (args env) ->
  main env evs = Ok st ->
  collecting st = true -> is_beginning st = false -> exited st = None ->
  (forall n, get_count (filled_count st) n = 0) ->
  (forall n s e, In (n, (s, e)) (strings_ranges st) -> s < e) ->
  Forall2 carries (strings_ranges st) sent ->
  start_time st = Some t0 -> frames_written st = Some fw -> max_bytes st = Some m ->
  out_file st = Some written ->
  (forall secs, seconds_to_capture (args env) = Some secs ->
                check_positive_int secs = Ok secs) ->
  0 <= total_ms env (clock env (ticks st) - t0) < 4294967296 ->
  ((fw + 1) mod 40 = 0 -> clock env (S (S (ticks st))) <> t0) ->
  exists st',
    run env (map snd sent) st = Ok st' /\
    out_file st'
    = Some (written ++ le_bytes 4 (total_ms env (clock env (ticks st) - t0))
              ++ concat (map (fun pe => render_part (Some m) (fst pe)) sent)) /\
    frames_written st' = Some (fw + 1) /\
    (forall k st1, (k < length sent)%nat ->
                   run env (firstn k (map snd sent)) st = Ok st1 ->
                   out_file st1 = Some written /\ frames_written st1 = Some fw).
Proof.
  intros HS Hm Hc Hb Hx Hzero Hpos Hcar Ht0 Hfw Hmax Hout Hlim Hms Hfps.
  pose proof (Inv_main _ _ _ Hm) as HI.
  pose proof (Layout_main _ _ _ HS Hm) as HL.
  destruct (lay_collecting _ _ HL Hc) as (Hlen & _).
  assert (Hne : strings_ranges st <> []).
  { intros E. rewrite E in Hlen. unfold len in Hlen. simpl in Hlen. lia. }
  destruct (exists_last Hne) as (items & last & Hsplit).
  rewrite Hsplit in Hcar.
  destruct (Forall2_app_inv_l _ _ Hcar) as (s1 & s2 & HF1 & HF2 & Hsent).
  inversion HF2 as [|? peL ? ? HcarL HFnil]; subst. inversion HFnil; subst. clear HF2 HFnil.
  pose proof (Inv_nodup _ HI) as Hnd. unfold keys in Hnd. rewrite Hsplit, map_app in Hnd.
  simpl in Hnd.
  assert (Hnd1 : NoDup (map fst items)) by (apply NoDup_app_remove_r in Hnd; exact Hnd).
  assert (Hzn : ~ In (fst last) (map fst items)).
  { intros Hin. apply NoDup_remove_2 in Hnd. apply Hnd. rewrite app_nil_r. exact Hin. }
  assert (HinL : In last (strings_ranges st)).
  { rewrite Hsplit. apply in_or_app. right. now left. }
  assert (Hkeys : keys (buffers st) = map fst (items ++ [last])).
  { rewrite (inv_keys_buffers _ HI Hc), Hsplit. reflexivity. }
  assert (HzL : In (fst last) (keys (buffers st))).
  { rewrite Hkeys. apply in_map. apply in_or_app. right. now left. }
  assert (HlenL : 0 < len (buffer_of (buffers st) (fst last))).
  { destruct last as [n [s e]]. simpl fst. rewrite (inv_len _ HI Hc n s e HinL).
    pose proof (Hpos n s e HinL). lia. }
  assert (Hincl : incl items (strings_ranges st)).
  { intros x Hxin. rewrite Hsplit. apply in_or_app. now left. }
  destruct (fill_partial env (fst last) items s1 HF1 st HI Hc Hb Hx Hpos Hincl Hnd1 HzL Hzn)
    as (st1 & Hrun1 & HI1 & Hsame & Hfilled & Hrest).
  { rewrite Hzero. lia. }
  pose proof Hsame as (S1 & S2 & S3 & S4 & S5 & S6 & S7 & S8 & S9 & S10).
  assert (Hpos1 : forall n s e, In (n, (s, e)) (strings_ranges st1) -> s < e)
    by (rewrite <- S1; exact Hpos).
  assert (HinL1 : In last (strings_ranges st1)) by (rewrite <- S1; exact HinL).
  destruct (fill_one env st1 last peL (fst last) HI1 ltac:(congruence) ltac:(congruence)
              ltac:(congruence) Hpos1 HinL1 HcarL)
    as (data & h & Hev & Hd & Hfit & H2). cbv zeta in H2.
  set (st2 := accept last h (fst peL) (counted st1)) in *.
  destruct H2 as (HI2 & Hsame2 & Hbuf2 & Hcnt2 & Hlen2 & Hother2 & _).
  pose proof (Forall2_length HF1) as Hl1.
  assert (Hfull : all_full (buffers st2) (filled_count st2) = true).
  { apply all_full_iff. intros n Hn.
    destruct Hsame2 as (_ & _ & _ & _ & _ & _ & _ & _ & _ & K2).
    rewrite <- K2, <- S10, Hkeys, map_app in Hn. apply in_app_or in Hn.
    destruct Hn as [Hn|[<-|[]]].
    - assert (Hnl : n <> fst last) by (intros E; apply Hzn; congruence).
      destruct (Hother2 n Hnl) as [O1 O2]. rewrite O1, O2.
      apply in_map_iff in Hn. destruct Hn as (it & <- & Hit).
      destruct (in_combine_exists items s1 it Hl1 Hit) as [pe Hpe].
      destruct (Hfilled it pe Hpe) as (F1 & F2 & F3).
      rewrite F1, F2, Hzero. lia.
    - simpl fst. rewrite Hbuf2, Hcnt2.
      destruct (Hrest (fst last) Hzn) as [_ R2]. rewrite R2, Hzero. lia. }
  assert (Hms1 : 0 <= total_ms env (clock env (ticks st1) - t0) < 4294967296)
    by (rewrite <- S9; exact Hms).
  assert (Hfps1 : (fw + 1) mod 40 = 0 -> clock env (S (S (ticks st1))) <> t0)
    by (rewrite <- S9; exact Hfps).
  destruct (frame_step env st1 data h (fst peL) last t0 fw m written HI1
              ltac:(congruence) ltac:(congruence) ltac:(congruence) Hd Hfit Hfull
              ltac:(congruence) ltac:(congruence) ltac:(congruence) ltac:(congruence)
              Hlim Hms1 Hfps1)
    as (st' & Hstep & Hofile & Hfw').
  fold st2 in Hofile.
  exists st'. split.
  { rewrite map_app, run_app, Hrun1. simpl. rewrite Hev, Hstep. reflexivity. }
  split.
  { rewrite Hofile, <- S9. do 3 f_equal.
    rewrite <- S1. rewrite <- (inv_ids _ HI). unfold keys. rewrite Hsplit.
    f_equal. rewrite map_map.
    apply Forall2_map_eq. apply Forall2_app.
    - apply Forall2_combine; [exact Hl1|]. intros it pe Hin.
      destruct (Hfilled it pe Hin) as (F1 & _).
      assert (Hnl : fst it <> fst last).
      { intros E. apply Hzn. rewrite <- E. apply in_map. eapply in_combine_l; eauto. }
      destruct (Hother2 (fst it) Hnl) as [O1 _]. rewrite O1, F1. reflexivity.
    - constructor; [|constructor]. now rewrite Hbuf2. }
  split; [exact Hfw'|].
  intros k sk Hk Hrunk.
  rewrite map_app, firstn_app in Hrunk.
  rewrite length_app in Hk. simpl in Hk.
  replace (k - length (map snd s1))%nat with O in Hrunk by (rewrite length_map; lia).
  simpl in Hrunk. rewrite app_nil_r in Hrunk.
  rewrite <- (firstn_skipn k (map snd s1)), run_app in Hrun1.
  rewrite Hrunk in Hrun1. simpl in Hrun1.
  destruct (inv_max _ HI Hc) as (m0 & rest0 & _ & _ & Ho0).
  (* the first [k] datagrams are a filling of the first [k] strings *)
  assert (Hk1 : Forall2 carries (firstn k items) (firstn k s1)).
  { clear - HF1. revert k. induction HF1; intros [|k]; simpl; constructor; auto. }
  destruct (fill_partial env (fst last) (firstn k items) (firstn k s1) Hk1 st HI Hc Hb Hx Hpos)
    as (sk' & Hrunk' & _ & Hsamek & _).
  - intros x Hxin. apply Hincl. eapply In_firstn; eauto.
  - rewrite <- firstn_map. now apply NoDup_firstn.
  - exact HzL.
  - intros Hin. apply Hzn. rewrite <- firstn_map in Hin. eapply In_firstn; eauto.
  - rewrite Hzero. lia.
  - rewrite firstn_map in Hrunk. rewrite Hrunk in Hrunk'. inversion Hrunk'; subst sk'.
    destruct Hsamek as (_ & _ & _ & _ & _ & _ & K7 & K8 & _).
    split; congruence.
Qed.

Lemma frame_round_trip_witness :
  exists st',
    run (example_env 2 None) (map snd uneven_frame) uneven_state = Ok st' /\
    out_file st'
    = Some ((le_bytes 2 1 ++ le_bytes 4 2000 ++ ones 3 ++ ones 3)
              ++ le_bytes 4 4000 ++ [x0a; x0b; x0c] ++ [x01; x02; x03]) /\
    frames_written st' = Some 2.
Proof.
  assert (HS : 0 < number_of_strings (args (example_env 2 None))) by (vm_compute; reflexivity).
  assert (Hm : main (example_env 2 None) uneven_session = Ok uneven_state)
    by (vm_compute; reflexivity).
  assert (Hzero : forall n, get_count (filled_count uneven_state) n = 0).
  { intros n. unfold get_count. change (filled_count uneven_state) with [(1, 0); (2, 0)].
    cbn [get]. destruct (1 =? n); [reflexivity|]. destruct (2 =? n); reflexivity. }
  assert (Hpos : forall n s e, In (n, (s, e)) (strings_ranges uneven_state) -> s < e).
  { intros n s e [H|[H|[]]]; inversion H; lia. }
  assert (Hcar : Forall2 carries (strings_ranges uneven_state) uneven_frame).
  { constructor; [|constructor; [|constructor]].
    - eexists. eexists. split; [reflexivity|]. split; [vm_compute; reflexivity|].
      split; reflexivity.
    - eexists. eexists. split; [reflexivity|]. split; [vm_compute; reflexivity|].
      split; reflexivity. }
  assert (Hlim : forall secs, seconds_to_capture (args (example_env 2 None)) = Some secs ->
                              check_positive_int secs = Ok secs)
    by (intros secs H; discriminate H).
  assert (Hms : 0 <= total_ms (example_env 2 None)
                       (clock (example_env 2 None) (ticks uneven_state) - 0) < 4294967296)
    by (vm_compute; split; [discriminate | reflexivity]).
  assert (Hfps : (1 + 1) mod 40 = 0 ->
                 clock (example_env 2 None) (S (S (ticks uneven_state))) <> 0)
    by (intros H; vm_compute in H; discriminate H).
  destruct (frame_round_trip (example_env 2 None) uneven_session uneven_state uneven_frame
              0 1 3 (le_bytes 2 1 ++ le_bytes 4 2000 ++ ones 3 ++ ones 3)
              HS Hm eq_refl eq_refl eq_refl Hzero Hpos Hcar eq_refl eq_refl eq_refl eq_refl
              Hlim Hms Hfps)
    as (st' & Hrun & Hfile & Hfw & _).
  exists st'. split; [exact Hrun|]. split; [exact Hfile | exact Hfw].
Defined.

(** ** How [main] returns *)

Lemma run_exited env evs : forall st r, exited st = Some r -> run env evs st = Ok st.
Proof.
  induction evs as [|ev rest IH]; intros st r H; simpl; [reflexivity|].
  unfold step. rewrite H. simpl. now apply (IH st r).
Qed.

Lemma check_duration_limit env t0 s s7 :
  check_duration env t0 s = Ok s7 -> exited s = None ->
  exited s7 = None \/
  exists secs,
    seconds_to_capture (args env) = Some secs /\
    secs * 1000000 <= clock env (ticks s) - t0 /\
    s7 = with_exited (Some DurationLimit) (with_ticks (S (ticks s)) s).
Proof.
  unfold check_duration. intros H Hx.
  destruct (seconds_to_capture (args env)) as [secs|]; [|inversion H; subst; auto].
  destruct (secs =? 0); [inversion H; subst; auto|].
  unfold now in H.
  destruct (Z.leb_spec (secs * 1000000) (clock env (ticks s) - t0)) as [Hle|Hgt].
  - destruct (fps_check _); simpl in H; [|discriminate].
    inversion H. right. exists secs. auto.
  - inversion H; subst. left. exact Hx.
Qed.

Lemma complete_frame_exit env st st' r :
  complete_frame env st = Ok st' -> exited st = None -> exited st' = Some r ->
  r = DurationLimit /\
  exists secs t0 fw k,
    seconds_to_capture (args env) = Some secs /\ start_time st' = Some t0 /\
    ticks st' = S k /\ secs * 1000000 <= clock env k - t0 /\
    frames_written st = Some fw /\ frames_written st' = Some (fw + 1) /\
    buffers st' = buffers st /\ filled_count st' = filled_count st /\
    collecting st' = collecting st.
Proof.
  intros H Hx Hr.
  destruct (complete_frame_closed _ _ _ H) as (t0 & fw & t & x & Ht0 & Hfw & Hms & _ & _).
  rewrite (complete_frame_eq env st t0 fw Ht0 Hfw Hms) in H.
  destruct (report_progress env t0 (fw + 1) (emitted env t0 fw st)) as [s6|e] eqn:E6;
    simpl in H; [|discriminate].
  destruct (report_progress_inv _ _ _ _ _ E6) as [Hs6 Hx6].
  change (exited (emitted env t0 fw st)) with (exited st) in Hx6. rewrite Hx in Hx6.
  destruct (check_duration env t0 s6) as [s7|e] eqn:E7; simpl in H; [|discriminate].
  destruct (check_duration_limit _ _ _ _ E7 Hx6) as [Hnone|(secs & Hsecs & Hle & Hs7)].
  - rewrite Hnone in H. inversion H; subst st'. simpl in Hr.
    change (exited (reset_frame s7)) with (exited s7) in Hr. congruence.
  - assert (Hx7 : exited s7 = Some DurationLimit) by (rewrite Hs7; reflexivity).
    rewrite Hx7 in H. inversion H; subst st'.
    split; [congruence|]. exists secs, t0, fw, (ticks s6).
    rewrite Hs7, Hs6. repeat split; trivial.
Qed.

Lemma on_timeout_exit env st st' r :
  on_timeout env st = Ok st' -> exited st = None -> exited st' = Some r ->
  r = IdleTimeout /\ collecting st' = true /\ is_beginning st' = false /\
  exists lft k, last_frame_time st' = Some lft /\ ticks st' = S k /\
                5000000 <= clock env k - lft.
Proof.
  unfold on_timeout. intros H Hx Hr.
  destruct (collecting st) eqn:Hc; simpl in H; [|inversion H; subst; congruence].
  destruct (is_beginning st) eqn:Hb; simpl in H; [inversion H; subst; congruence|].
  destruct (last_frame_time st) as [lft|] eqn:Hl; [|inversion H; subst; congruence].
  unfold now in H.
  destruct (Z.leb_spec 5000000 (clock env (ticks st) - lft)) as [Hle|Hgt].
  - simpl in H. destruct (start_time st); simpl in H; [|discriminate].
    destruct (frames_written st) as [fw|]; simpl in H; [|discriminate].
    destruct (if 0 <? fw then _ else _); simpl in H; [|discriminate].
    inversion H; subst st'. simpl in Hr. split; [congruence|].
    simpl. rewrite Hc, Hb, Hl. repeat split. exists lft, (ticks st). auto.
  - inversion H; subst st'. simpl in Hr. congruence.
Qed.

Lemma on_datagram_exit env data st st' r :
  Inv st -> on_datagram env data st = Ok st' -> exited st = None -> exited st' = Some r ->
  exit_evidence env r (Datagram data) st'.
Proof.
  intros HI H Hx Hr.
  destruct (on_datagram_cases _ _ _ _ HI H)
    as [(e & _ & ->)|(h & payload & st3 & Hd & H3 & HI3 & Hcases)].
  { destruct e; simpl in Hr; congruence. }
  assert (HIc : Inv (learn_range h (counted st))) by apply Inv_learn_range, Inv_counted, HI.
  assert (Hx3 : exited st3 = None).
  { rewrite (finalize_exited _ _ _ HIc H3), learn_range_exited. exact Hx. }
  destruct Hcases as [(_ & _ & ->)|(st4 & H4 & Hout)]; [simpl in Hr; congruence|].
  assert (E4 : Inv st4 /\ exited st4 = None /\ is_beginning st4 = false).
  { destruct H4 as [(_ & _ & ->)|(Hb & ->)].
    - split; [now apply Inv_started|]. split; [exact Hx3 | reflexivity].
    - auto. }
  destruct E4 as (HI4 & Hx4 & Hb4).
  destruct Hout as [[_ ->]|[Hc4 Ha]]; [congruence|].
  rewrite (assemble_eq env h payload st4 HI4 Hc4) in Ha.
  destruct (first_fit h st4) as [it|] eqn:Hfit; [|inversion Ha; subst; congruence].
  destruct (all_full _ _) eqn:Hfull; [|inversion Ha; subst; simpl in Hr; congruence].
  destruct (complete_frame_exit _ _ _ _ Ha Hx4 Hr)
    as (-> & secs & t0 & fw & k & Hsecs & Ht0 & Hk & Hle & Hfw & Hfw' & Hbuf & Hcnt & Hcol).
  simpl. split; [exists data; reflexivity|]. split; [rewrite Hcol; exact Hc4|].
  exists secs, t0, (fw + 1), k. repeat split; trivial.
  - assert (Hfw4 : frames_written st4 = Some fw) by exact Hfw.
    destruct (inv_frames _ HI4 Hc4) as (fw' & Hfw'' & Hpos). assert (fw' = fw) by congruence. lia.
  - unfold completion_condition. rewrite Hbuf, Hcnt. now apply all_full_iff.
Qed.

Lemma step_exit env ev st st' r :
  Inv st -> step env ev st = Ok st' -> exited st = None -> exited st' = Some r ->
  exit_evidence env r ev st'.
Proof.
  intros HI H Hx Hr. unfold step in H. rewrite Hx in H. destruct ev as [data| |].
  - eapply on_datagram_exit; eauto.
  - destruct (on_timeout_exit _ _ _ _ H Hx Hr) as (-> & Hrest). simpl. auto.
  - inversion H; subst st'. simpl in Hr. inversion Hr. reflexivity.
Qed.

Lemma run_exit env evs : forall st0 st r,
  Inv st0 -> exited st0 = None -> run env evs st0 = Ok st -> exited st = Some r ->
  exists before ev after sb,
    evs = before ++ ev :: after /\
    run env before st0 = Ok sb /\ exited sb = None /\
    step env ev sb = Ok st /\ exit_evidence env r ev st.
Proof.
  induction evs as [|ev rest IH]; intros st0 st r HI Hx H Hr; simpl in H.
  - inversion H; subst. congruence.
  - destruct (step env ev st0) as [s1|e] eqn:E; simpl in H; [|discriminate].
    destruct (exited s1) as [r1|] eqn:Hx1.
    + rewrite (run_exited env rest s1 r1 Hx1) in H. inversion H; subst s1.
      exists [], ev, rest, st0. split; [reflexivity|]. split; [reflexivity|].
      split; [exact Hx|]. split; [exact E|]. eapply step_exit; eauto.
    + destruct (IH s1 st r (Inv_step _ _ _ _ HI E) Hx1 H Hr)
        as (before & ev' & after & sb & -> & Hrun & Hxb & Hstep & Hev).
      exists (ev :: before), ev', after, sb. split; [reflexivity|].
      split; [simpl; rewrite E; exact Hrun|]. auto.
Qed.

(** X9.  When [main] returns, it does so at one event, and the state is the
    one that event left: no later event is processed.  A return by Ctrl-C
    happens at a keyboard interrupt.  A return for idleness happens at a
    socket timeout of a session that captures, five seconds or more after
    the last frame time.  A return for the duration limit happens at a
    datagram that completes a frame, so with one frame written at least,
    the limit reached, and the buffers still holding that frame
    (lines 62-73, 230-237, 244-251). *)
Theorem exit_reasons env evs st r :
  main env evs = Ok st -> exited st = Some r ->
  exists before ev after sb,
    evs = before ++ ev :: after /\
    main env before = Ok sb /\ exited sb = None /\
    step env ev sb = Ok st /\ exit_evidence env r ev st.
Proof. intros H Hr. exact (run_exit env evs initial_state st r Inv_initial eq_refl H Hr). Qed.

Lemma exit_reasons_witness :
  exists before ev after sb,
    [Datagram limit_packet; Datagram limit_packet; SocketTimeout] = before ++ ev :: after /\
    main limit_env before = Ok sb /\ exited sb = None /\
    step limit_env ev sb = Ok limit_exit /\ exit_evidence limit_env DurationLimit ev limit_exit.
Proof.
  apply (exit_reasons limit_env [Datagram limit_packet; Datagram limit_packet; SocketTimeout]
           limit_exit DurationLimit); vm_compute; reflexivity.
Defined.

(** ** The packet counters *)

Lemma learn_range_counters h st :
  packets_seen (learn_range h st) = packets_seen st /\
  empty_frames (learn_range h st) = empty_frames st /\
  is_beginning (learn_range h st) = is_beginning st.
Proof. unfold learn_range. destruct (_ && _); repeat split. Qed.

Lemma finalize_counters env st st' :
  Inv st -> finalize env st = Ok st' ->
  packets_seen st' = packets_seen st /\ empty_frames st' = empty_frames st /\
  is_beginning st' = is_beginning st.
Proof.
  intros HI H.
  destruct (finalize_inv _ _ _ HI H) as [->|(_ & _ & mx & _ & _ & _ & ->)]; repeat split.
Qed.

Lemma assemble_counters env h payload st st' :
  Inv st -> collecting st = true -> exited st = None ->
  assemble env h payload st = Ok st' ->
  packets_seen st' = packets_seen st /\ empty_frames st' = empty_frames st /\
  is_beginning st' = is_beginning st.
Proof.
  intros HI Hc Hx H.
  destruct (assemble_cases _ _ _ _ _ HI Hc Hx H) as [[_ ->]|(it & _ & Hcases)];
    [repeat split|].
  cbv zeta in Hcases.
  destruct Hcases as [[_ ->]|(_ & t0 & fw & t & _ & _ & _ & [->| ->])]; repeat split.
Qed.

Lemma parse_header_errors data e :
  parse_header data = inl e -> e <> PayloadLengthMismatch.
Proof.
  unfold parse_header. destruct (_ <? 10); [intros H; inversion H; discriminate|].
  cbv zeta. destruct (negb _); [|discriminate].
  destruct (14 <=? _); [discriminate|]. intros H; inversion H; discriminate.
Qed.

Lemma decode_parses data :
  match decode data with
  | inr _ => exists h, parse_header data = inr h
  | inl PayloadLengthMismatch => exists h, parse_header data = inr h
  | inl e => parse_header data = inl e
  end.
Proof.
  unfold decode. destruct (parse_header data) as [e|h] eqn:Hp.
  - pose proof (parse_header_errors _ _ Hp). destruct e; congruence.
  - unfold slice_payload. destruct (negb _); eauto.
Qed.

Lemma step_counters env ev st st' :
  Inv st -> exited st = None -> step env ev st = Ok st' ->
  packets_seen st' = packets_seen st + tally (parses ev) /\
  empty_frames st <= empty_frames st' <= empty_frames st + tally (decodes ev) /\
  (is_beginning st' = true ->
   is_beginning st = true /\ empty_frames st' = empty_frames st + tally (decodes ev)).
Proof.
  intros HI Hx H. unfold step in H. rewrite Hx in H. destruct ev as [data| |].
  - unfold parses, decodes. pose proof (decode_parses data) as Hdp.
    destruct (on_datagram_cases _ _ _ _ HI H)
      as [(e & Hd & ->)|(h & payload & st3 & Hd & H3 & HI3 & Hcases)].
    { rewrite Hd in *. destruct e.
      - rewrite Hdp. simpl. repeat split; auto; lia.
      - rewrite Hdp. simpl. repeat split; auto; lia.
      - destruct Hdp as [h ->]. simpl. repeat split; auto; lia. }
    rewrite Hd in *. destruct Hdp as [h' ->]. unfold tally.
    assert (HIc : Inv (learn_range h (counted st))) by apply Inv_learn_range, Inv_counted, HI.
    destruct (finalize_counters _ _ _ HIc H3) as (P3 & E3 & B3).
    destruct (learn_range_counters h (counted st)) as (P2 & E2 & B2).
    rewrite P2 in P3. rewrite E2 in E3. rewrite B2 in B3.
    change (packets_seen (counted st)) with (packets_seen st + 1) in P3.
    change (empty_frames (counted st)) with (empty_frames st) in E3.
    change (is_beginning (counted st)) with (is_beginning st) in B3.
    assert (Hx3 : exited st3 = None).
    { rewrite (finalize_exited _ _ _ HIc H3), learn_range_exited. exact Hx. }
    destruct Hcases as [(Hb3 & _ & ->)|(st4 & H4 & Hout)].
    { simpl. rewrite P3, E3. split; [reflexivity|]. split; [lia|].
      intros _. split; [congruence | reflexivity]. }
    assert (E4 : Inv st4 /\ exited st4 = None /\ is_beginning st4 = false /\
                 packets_seen st4 = packets_seen st3 /\ empty_frames st4 = empty_frames st3).
    { destruct H4 as [(_ & _ & ->)|(Hb & ->)].
      - split; [now apply Inv_started|]. repeat split. exact Hx3.
      - auto. }
    destruct E4 as (HI4 & Hx4 & Hb4 & P4 & E4).
    assert (F : packets_seen st' = packets_seen st4 /\ empty_frames st' = empty_frames st4 /\
                is_beginning st' = is_beginning st4).
    { destruct Hout as [[_ ->]|[Hc4 Ha]]; [auto|].
      eapply assemble_counters; eauto. }
    destruct F as (P5 & E5 & B5).
    rewrite P5, E5, B5, P4, E4, P3, E3, Hb4. split; [reflexivity|]. split; [lia|].
    discriminate.
  - apply on_timeout_closed in H. destruct H as [-> _]. simpl. unfold tally.
    repeat split; auto; lia.
  - inversion H; subst st'. simpl. unfold tally. repeat split; auto; lia.
Qed.

Lemma len_filter_cons {A : Type} (f : A -> bool) (a : A) (l : list A) :
  len (filter f (a :: l)) = tally (f a) + len (filter f l).
Proof.
  simpl. destruct (f a); unfold tally; [|lia].
  unfold len. cbn [length]. lia.
Qed.

Lemma run_counters env evs : forall st st',
  Inv st -> run env evs st = Ok st' -> exited st' = None ->
  packets_seen st' = packets_seen st + len (filter parses evs) /\
  empty_frames st <= empty_frames st' <= empty_frames st + len (filter decodes evs) /\
  (is_beginning st' = true ->
   is_beginning st = true /\ empty_frames st' = empty_frames st + len (filter decodes evs)).
Proof.
  induction evs as [|ev rest IH]; intros st st' HI H Hx'.
  - simpl in H. inversion H; subst. unfold len. simpl. repeat split; auto; lia.
  - simpl in H. destruct (step env ev st) as [s1|e] eqn:E; simpl in H; [|discriminate].
    assert (Hx : exited st = None).
    { destruct (exited st) as [r|] eqn:Hx; [|reflexivity].
      unfold step in E. rewrite Hx in E. inversion E; subst s1.
      rewrite (run_exited env rest st r Hx) in H. inversion H; subst. congruence. }
    destruct (step_counters _ _ _ _ HI Hx E) as (P1 & E1 & B1).
    destruct (IH s1 st' (Inv_step _ _ _ _ HI E) H Hx') as (P2 & E2 & B2).
    rewrite !len_filter_cons. split; [lia|]. split; [lia|].
    intros Hb. destruct (B2 Hb) as [Hb1 E3]. destruct (B1 Hb1) as [Hb0 E0].
    split; [exact Hb0 | lia].
Qed.

(** X10.  While [main] has not returned, [packets_seen] is the number of
    datagrams received with a whole header, those dropped for the length of
    their payload included and those dropped for their header excluded; and
    [empty_frames] counts datagrams that decoded: all of them as long as no
    payload with a non-zero byte has arrived, at most that many afterwards
    (lines 78-102, 121-123, 170-172). *)
Theorem packet_counters env evs st :
  main env evs = Ok st -> exited st = None ->
  packets_seen st = len (filter parses evs) /\
  0 <= empty_frames st <= len (filter decodes evs) /\
  len (filter decodes evs) <= len (filter parses evs) /\
  (is_beginning st = true -> empty_frames st = len (filter decodes evs)).
Proof.
  intros H Hx.
  destruct (run_counters env evs initial_state st Inv_initial H Hx) as (P & E & B).
  simpl in P, E, B. split; [exact P|]. split; [lia|]. split.
  - clear. induction evs as [|ev rest IH]; [reflexivity|].
    rewrite !len_filter_cons.
    assert (tally (decodes ev) <= tally (parses ev)); [|lia].
    destruct ev as [data| |]; simpl; try lia.
    pose proof (decode_parses data) as Hdp.
    destruct (decode data) as [e|p]; [unfold tally at 1; destruct (parse_header data); simpl; lia|].
    destruct Hdp as [h ->]. simpl. lia.
  - intros Hb. destruct (B Hb) as [_ ->]. lia.
Qed.

Lemma packet_counters_witness :
  packets_seen counter_state = 2 /\ empty_frames counter_state = 1.
Proof.
  assert (Hm : main (example_env 1 None) counter_session = Ok counter_state)
    by (vm_compute; reflexivity).
  destruct (packet_counters _ _ _ Hm eq_refl) as (P & _ & _ & B).
  split; [rewrite P; vm_compute; reflexivity|].
  rewrite (B eq_refl). vm_compute. reflexivity.
Defined.

(** ** The record of a completed frame *)

(** X11.  Let a decoded packet reach the buffer write in the state [st4]
    (any packet: the one that ends the discovery and the first one with a
    non-zero byte included), and let its write leave every count equal to
    the length of its buffer.  Provided the frame time, which is the value
    [total_ms] of the microseconds between the start time and the clock
    reading of the completion, fits in four unsigned bytes, the clock read
    for the report of a fortieth frame is not the start time, and the limit
    is positive as argparse has it, the iteration appends exactly one record
    to the file: the four little-endian bytes of the frame time, then, for
    the identifiers 1, 2, ... in order, the buffer rendered on exactly [m]
    bytes (itself when it has [m] bytes, followed by zeros when shorter, cut
    when longer); the frame is counted and the last-frame time refreshed.
    Then either the duration limit has been reached and [main] returns with
    buffers and counts as the write left them, or every buffer is zeroed and
    every count reset to 0 (lines 196-242). *)
Theorem frame_completion env evs st data h payload st4 it t0 fw m :
  main env evs = Ok st -> exited st = None ->
  decode data = inr (h, payload) ->
  before_write env h payload st = Ok (st4, true) ->
  first_fit h st4 = Some it ->
  all_full (buffers (accept it h payload st4))
           (filled_count (accept it h payload st4)) = true ->
  start_time st4 = Some t0 -> frames_written st4 = Some fw -> max_bytes st4 = Some m ->
  (forall secs, seconds_to_capture (args env) = Some secs ->
                check_positive_int secs = Ok secs) ->
  0 <= total_ms env (clock env (ticks st4) - t0) < 4294967296 ->
  ((fw + 1) mod 40 = 0 -> clock env (S (S (ticks st4))) <> t0) ->
  let st1 := accept it h payload st4 in
  let time_header := le_bytes 4 (total_ms env (clock env (ticks st4) - t0)) in
  let parts := map (fun n => render_part (Some m) (buffer_of (buffers st1) n))
                   (ids (length (strings_ranges st4))) in
  exists st' written,
    step env (Datagram data) st = Ok st' /\
    out_file st4 = Some written /\
    out_file st' = Some (written ++ time_header ++ concat parts) /\
    to_bytes_little (total_ms env (clock env (ticks st4) - t0)) 4 = Ok time_header /\
    length time_header = 4%nat /\
    0 <= m /\
    (forall b, len (render_part (Some m) b) = m /\
               (len b = m -> render_part (Some m) b = b) /\
               (len b < m -> render_part (Some m) b = b ++ zeros (m - len b)) /\
               (m < len b -> render_part (Some m) b = firstn (Z.to_nat m) b)) /\
    frames_written st' = Some (fw + 1) /\
    last_frame_time st' = Some (clock env (S (ticks st4))) /\
    if limit_reached env t0 (limit_reading st4 fw)
    then exited st' = Some DurationLimit /\
         buffers st' = buffers st1 /\ filled_count st' = filled_count st1
    else exited st' = None /\
         forall n, buffer_of (buffers st') n = zeros (len (buffer_of (buffers st4) n)) /\
                   get_count (filled_count st') n = 0.
Proof.
  intros Hm Hx0 Hd Hw Hfit Hfull Ht0 Hfw Hmax Hpos Hms Hfps st1 time_header parts.
  pose proof (Inv_main _ _ _ Hm) as HI0.
  destruct (before_write_handed _ _ _ _ _ HI0 Hw) as (HI & Hc & Hb & Hx4).
  assert (Hx : exited st4 = None) by congruence.
  pose proof (decode_len _ _ _ Hd) as Hp.
  pose proof (Inv_accept h payload st4 it HI Hc Hb Hfit Hp) as HA. fold st1 in HA.
  destruct (inv_max _ HI Hc) as (m' & rest & Hm' & Hm0 & Hout).
  assert (m' = m) by congruence. subst m'.
  set (E := emitted env t0 fw st1).
  assert (HE : Inv E) by (apply Inv_emitted; trivial).
  set (s6 := if (fw + 1) mod 40 =? 0 then with_ticks (S (ticks E)) E else E).
  assert (Ht6 : ticks s6 = limit_reading st4 fw).
  { unfold s6, limit_reading. destruct (_ =? 0); reflexivity. }
  assert (HI6 : Inv s6).
  { unfold s6. destruct (_ =? 0); [now apply Inv_with_ticks | exact HE]. }
  assert (H6 : out_file s6 = Some ((le_bytes 2 (m / 3) ++ rest) ++ time_header ++ concat parts)
               /\ frames_written s6 = Some (fw + 1)
               /\ last_frame_time s6 = Some (clock env (S (ticks st4)))
               /\ buffers s6 = buffers st1 /\ filled_count s6 = filled_count st1
               /\ exited s6 = None /\ collecting s6 = true).
  { assert (Hrec : out_file E = Some ((le_bytes 2 (m / 3) ++ rest) ++ time_header ++ concat parts)).
    { change (out_file E) with (append_file (out_file st4) (frame_record env t0 st1)).
      rewrite Hout. unfold append_file, frame_record.
      pose proof (frame_parts_accept h payload st4 it m HI Hc Hfit Hmax) as Hparts.
      fold st1 in Hparts. rewrite Hparts. reflexivity. }
    assert (Hx6 : exited s6 = None) by (unfold s6; destruct (_ =? 0); exact Hx).
    assert (Hc6 : collecting s6 = true) by (unfold s6; destruct (_ =? 0); exact Hc).
    unfold s6. destruct (_ =? 0); (split; [exact Hrec|]); repeat split; assumption. }
  destruct H6 as (Ho6 & Hw6 & Hl6 & Hb6 & Hf6 & Hx6 & Hc6).
  destruct (check_duration_ok env t0 s6 Hpos) as [t Hdur]. rewrite Ht6 in Hdur.
  assert (Hstep : step env (Datagram data) st
                  = (st7 <- check_duration env t0 s6 ;;
                     match exited st7 with
                     | Some _ => Ok st7
                     | None => Ok (reset_frame st7)
                     end)).
  { rewrite (step_handed _ _ _ _ _ _ Hx0 Hd Hw).
    rewrite (assemble_eq env h payload st4 HI Hc), Hfit. fold st1.
    fold st1 in Hfull. rewrite Hfull.
    rewrite (complete_frame_eq env st1 t0 fw) by (trivial; exact Hms).
    fold E. rewrite report_progress_ok by exact Hfps. reflexivity. }
  rewrite Hstep, Hdur. simpl bind.
  assert (Hrender : forall b, len (render_part (Some m) b) = m /\
               (len b = m -> render_part (Some m) b = b) /\
               (len b < m -> render_part (Some m) b = b ++ zeros (m - len b)) /\
               (m < len b -> render_part (Some m) b = firstn (Z.to_nat m) b)).
  { intros b. now apply render_part_spec. }
  assert (Hto : to_bytes_little (total_ms env (clock env (ticks st4) - t0)) 4 = Ok time_header).
  { apply to_bytes_little_ok. change (256 ^ Z.of_nat 4) with 4294967296. exact Hms. }
  destruct (limit_reached env t0 (limit_reading st4 fw)).
  - exists (with_exited (Some DurationLimit) (with_ticks t s6)), (le_bytes 2 (m / 3) ++ rest).
    simpl exited. cbv iota.
    split; [reflexivity|]. split; [exact Hout|]. split; [exact Ho6|]. split; [exact Hto|].
    split; [apply length_le_bytes|]. split; [exact Hm0|]. split; [exact Hrender|].
    split; [exact Hw6|]. split; [exact Hl6|]. auto.
  - set (s7 := with_exited (exited s6) (with_ticks t s6)).
    assert (Hx7 : exited s7 = None) by exact Hx6. rewrite Hx7.
    assert (HI7 : Inv s7) by (apply Inv_with_exited, Inv_with_ticks, HI6).
    exists (reset_frame s7), (le_bytes 2 (m / 3) ++ rest).
    split; [reflexivity|]. split; [exact Hout|]. split; [exact Ho6|]. split; [exact Hto|].
    split; [apply length_le_bytes|]. split; [exact Hm0|]. split; [exact Hrender|].
    split; [exact Hw6|]. split; [exact Hl6|]. split; [exact Hx6|].
    intros n. destruct (reset_frame_counts s7 n HI7 Hc6) as [Hcnt Hbuf].
    split; [|exact Hcnt]. rewrite Hbuf.
    pose proof (accept_len h payload st4 it n HI Hc Hfit Hp) as Hl.
    fold st1 in Hl. change (buffers s7) with (buffers s6). rewrite Hb6, Hl. reflexivity.
Qed.

(** The first packet of a session of one string ends the discovery, starts
    the capture and completes the first frame, written with the time of two
    seconds that the two clock readings of the start have taken. *)
Lemma frame_completion_witness :
  exists st' written,
    step (example_env 1 None) (Datagram limit_packet) initial_state = Ok st' /\
    out_file first_handed = Some written /\
    written = le_bytes 2 1 /\
    out_file st' = Some (written ++ le_bytes 4 2000 ++ ones 3) /\
    frames_written st' = Some 1 /\
    exited st' = None /\
    forall n, buffer_of (buffers st') n = zeros (len (buffer_of (buffers first_handed) n)) /\
              get_count (filled_count st') n = 0.
Proof.
  assert (Hm : main (example_env 1 None) [] = Ok initial_state) by reflexivity.
  assert (Hd : decode limit_packet = inr (limit_header, ones 3)) by (vm_compute; reflexivity).
  assert (Hw : before_write (example_env 1 None) limit_header (ones 3) initial_state
               = Ok (first_handed, true)) by (vm_compute; reflexivity).
  destruct (frame_completion (example_env 1 None) [] initial_state limit_packet limit_header
              (ones 3) first_handed (1, (0, 3)) 0 0 3 Hm eq_refl Hd Hw eq_refl eq_refl
              eq_refl eq_refl eq_refl)
    as (st' & written & Hs & Hwr & Ho & _ & _ & _ & _ & Hfw & _ & Hx & Hz).
  - intros secs H. discriminate H.
  - vm_compute. split; [discriminate | reflexivity].
  - intros H. vm_compute in H. discriminate H.
  - exists st', written. split; [exact Hs|]. split; [exact Hwr|].
    split; [assert (E : out_file first_handed = Some (le_bytes 2 1)) by reflexivity; congruence|].
    split; [exact Ho|]. split; [exact Hfw|]. split; [exact Hx | exact Hz].
Defined.

(** ** The skip phase *)

(** X12.  The skip is governed by the flag [is_beginning].  While a session
    collects with the flag still set, nothing has reached the assembler: no
    time is set, no frame is counted, the counts and the buffers are zero,
    the file holds the header only.  A packet whose payload is all zero is
    then counted in [empty_frames] and discarded, leaving frame count,
    times, buffers and file as they were; the first packet with a non-zero
    byte clears the flag, sets the start time and the last-frame time to
    the next two readings of the clock, and is itself handed to the
    assembler.  Once the flag is cleared, every decoded packet, all zero or
    not, is handed to the assembler (lines 169-181). *)
Theorem leading_empty_skip env evs st data h payload :
  main env evs = Ok st -> exited st = None -> collecting st = true ->
  decode data = inr (h, payload) ->
  (is_empty_bytearray payload = true <-> forall b, In b payload -> b = x00) /\
  (is_beginning st = true ->
   (start_time st = None /\ last_frame_time st = None /\ frames_written st = Some 0 /\
    (forall n, get_count (filled_count st) n = 0) /\ all_zero st /\
    exists m, max_bytes st = Some m /\ out_file st = Some (le_bytes 2 (m / 3))) /\
   (is_empty_bytearray payload = true ->
    step env (Datagram data) st
    = Ok (with_empty_frames (empty_frames st + 1) (counted st))) /\
   (is_empty_bytearray payload = false ->
    step env (Datagram data) st = assemble env h payload (started env (counted st)) /\
    is_beginning (started env (counted st)) = false /\
    start_time (started env (counted st)) = Some (clock env (ticks st)) /\
    last_frame_time (started env (counted st)) = Some (clock env (S (ticks st))) /\
    buffers (started env (counted st)) = buffers st /\
    filled_count (started env (counted st)) = filled_count st)) /\
  (is_beginning st = false ->
   step env (Datagram data) st = assemble env h payload (counted st)) /\
  (forall s, skip_leading_empty env payload s
             = if is_beginning s then
                 if is_empty_bytearray payload
                 then (with_empty_frames (empty_frames s + 1) s, true)
                 else (started env s, false)
               else (s, false)).
Proof.
  intros Hm Hx Hc Hd. pose proof (Inv_main _ _ _ Hm) as HI.
  assert (Hstep : step env (Datagram data) st = on_datagram env data st).
  { unfold step. now rewrite Hx. }
  rewrite Hstep, (on_datagram_collecting _ _ _ _ _ Hc Hd).
  split; [apply is_empty_bytearray_iff|]. split; [|split].
  - intros Hb. rewrite Hb.
    destruct (inv_fresh _ HI Hb) as (H1 & H2 & H3 & H4 & H5).
    destruct (H5 Hc) as (H6 & H7).
    split; [repeat split; trivial|].
    split; intros He; rewrite He; [reflexivity|]. repeat split.
  - intros Hb. now rewrite Hb.
  - intros s. unfold skip_leading_empty.
    destruct (is_beginning s); simpl; [|reflexivity].
    destruct (is_empty_bytearray payload); reflexivity.
Qed.

(** After an all-zero push packet the session skips: the next all-zero
    packet is the second one counted and discarded. *)
Lemma leading_empty_skip_witness :
  main (example_env 1 None) warmup_session = Ok warmup_state /\
  is_beginning warmup_state = true /\ empty_frames warmup_state = 1 /\
  step (example_env 1 None) (Datagram dark_packet) warmup_state
  = Ok (with_empty_frames 2 (counted warmup_state)).
Proof.
  assert (Hm : main (example_env 1 None) warmup_session = Ok warmup_state)
    by (vm_compute; reflexivity).
  assert (Hd : decode dark_packet = inr (dark_header, zeros 6)) by (vm_compute; reflexivity).
  split; [exact Hm|]. split; [reflexivity|]. split; [reflexivity|].
  destruct (leading_empty_skip _ _ _ _ _ _ Hm eq_refl eq_refl Hd) as (_ & H & _).
  destruct (H eq_refl) as (_ & Hskip & _). apply Hskip. reflexivity.
Defined.
